(** * multus-hc: the lease manager, the coordinator client and the IPAM adapter

    A shallow embedding of the Go sources

    - [etcdv3/etcdv3.go]                        (coordinator client),
    - [multus-ipam/backend/etcdv3cli/cli.go]     (lease manager, reconciler),
    - [host-etcd/backend/etcdv3/etcdv3.go]       (the older lease manager),
    - the two plugin adapters ([formRangeSets], [allocateIP]) and
    - the container-liveness sweep ([IPAMCheckLocalIPs]),

    followed by the properties of the specification that concern them. *)

From Stdlib Require Import ZArith NArith List String Ascii Bool Lia.
From Stdlib Require Import Numbers.DecimalString Numbers.DecimalN.
From Stdlib Require Strings.Byte.
From stdpp Require Import gmap strings list fin_maps sorting.

Local Open Scope string_scope.
Local Open Scope Z_scope.

(** ** Go's [uint32]: integers with the wrap-around written out *)

Module Uint32.

Definition modulus : Z := 2 ^ 32.

Definition wrap (z : Z) : Z := z mod modulus.

Definition add (a b : Z) : Z := wrap (a + b).
Definition sub (a b : Z) : Z := wrap (a - b).

(** [^x], the bitwise complement of a 32-bit word. *)
Definition compl (a : Z) : Z := wrap (modulus - 1 - a).

(** [uint32(math.Pow(2, float64(n)))]. Below 32 the conversion is exact;
    from 32 on Go leaves it to the platform, and the truncation that
    amd64 performs is the wrap-around. *)
Definition pow2 (n : Z) : Z := wrap (2 ^ n).

Definition in_range (z : Z) : Prop := 0 <= z < modulus.

End Uint32.

(** ** [fmt.Sprintf] verbs and [strconv] on decimal numerals *)

Module Fmt.

(** [%d] of an unsigned value. *)
Definition d (z : Z) : string :=
  NilZero.string_of_uint (N.to_uint (Z.to_N z)).

Fixpoint fill (c : ascii) (n : nat) (s : string) : string :=
  match n with
  | O => s
  | S n' => String c (fill c n' s)
  end.

Definition pad (c : ascii) (width : nat) (s : string) : string :=
  fill c (width - String.length s) s.

(** [%010d]: width ten, padded with zeros. *)
Definition d010 (z : Z) : string := pad "0" 10 (d z).

(** [%10d]: width ten, padded with blanks. *)
Definition d10 (z : Z) : string := pad " " 10 (d z).

(** [strconv.ParseUint(s, 10, 32)]: digits only and at least one, or the
    value is 0 with a syntax error; a value that does not fit 32 bits is
    replaced by the largest one, with a range error. *)
Definition ParseUint32 (s : string) : Z * bool :=
  match NilZero.uint_of_string s with
  | Some u =>
      let v := Z.of_N (N.of_uint u) in
      if v <? Uint32.modulus then (v, true) else (Uint32.modulus - 1, false)
  | None => (0, false)
  end.

End Fmt.

(** ** [strings] and [path/filepath] (Unix separators) *)

Module Strings.

(** [strings.Split(s, sep)] for a separator of one character. *)
Fixpoint Split (sep : ascii) (s : string) : list string :=
  match s with
  | EmptyString => [EmptyString]
  | String c s' =>
      if Ascii.eqb c sep then EmptyString :: Split sep s'
      else match Split sep s' with
           | [] => [String c EmptyString]
           | h :: t => String c h :: t
           end
  end.

(** [strings.Join(l, sep)]. *)
Fixpoint Join (sep : string) (l : list string) : string :=
  match l with
  | [] => EmptyString
  | [x] => x
  | x :: t => x +:+ sep +:+ Join sep t
  end.

(** [strings.Contains]. *)
Fixpoint Contains (s sub : string) : bool :=
  String.prefix sub s ||
  match s with
  | EmptyString => false
  | String _ s' => Contains s' sub
  end.

(** [strings.Trim(s, " \r\n\t")]. *)
Definition is_blank (c : ascii) : bool :=
  Ascii.eqb c " " || Ascii.eqb c "013" || Ascii.eqb c "010" || Ascii.eqb c "009".

Fixpoint TrimLeft (s : string) : string :=
  match s with
  | String c s' => if is_blank c then TrimLeft s' else s
  | EmptyString => EmptyString
  end.

Fixpoint TrimRight (s : string) : string :=
  match s with
  | String c s' =>
      match TrimRight s' with
      | EmptyString => if is_blank c then EmptyString else String c EmptyString
      | r => String c r
      end
  | EmptyString => EmptyString
  end.

Definition Trim (s : string) : string := TrimRight (TrimLeft s).

End Strings.

Module Filepath.

Definition sep : ascii := "/".

Definition rooted (p : string) : bool :=
  match p with
  | String c _ => Ascii.eqb c sep
  | EmptyString => false
  end.

(** One step of [filepath.Clean]: the elements kept so far are a stack,
    innermost first. *)
Definition clean_step (root : bool) (st : list string) (e : string) : list string :=
  if String.eqb e "" || String.eqb e "." then st
  else if String.eqb e ".." then
    match st with
    | top :: st' => if String.eqb top ".." then e :: st else st'
    | [] => if root then [] else [e]
    end
  else e :: st.

Definition Clean (p : string) : string :=
  let root := rooted p in
  let st := fold_left (clean_step root) (Strings.Split sep p) [] in
  let body := Strings.Join "/" (rev st) in
  if root then String sep body
  else if String.eqb body "" then "." else body.

(** [filepath.Join]: empty elements are ignored, the rest is joined
    with the separator and cleaned; no element at all gives [""]. *)
Definition Join (elems : list string) : string :=
  match List.filter (fun e => negb (String.eqb e "")) elems with
  | [] => ""
  | l => Clean (Strings.Join "/" l)
  end.

(** The part of [p] up to and including its last separator. *)
Fixpoint upto_last_sep (p : string) : string :=
  match p with
  | EmptyString => EmptyString
  | String c p' =>
      match upto_last_sep p' with
      | EmptyString => if Ascii.eqb c sep then String c EmptyString else EmptyString
      | r => String c r
      end
  end.

(** [filepath.Dir]. *)
Definition Dir (p : string) : string := Clean (upto_last_sep p).

Fixpoint strip_trailing_sep (p : string) : string :=
  match p with
  | EmptyString => EmptyString
  | String c p' =>
      match strip_trailing_sep p' with
      | EmptyString => if Ascii.eqb c sep then EmptyString else String c EmptyString
      | r => String c r
      end
  end.

(** [filepath.Base]. *)
Definition Base (p : string) : string :=
  if String.eqb p "" then "."
  else
    let q := strip_trailing_sep p in
    if String.eqb q "" then "/"
    else List.last (Strings.Split sep q) "".

End Filepath.

(** ** Package [ipaddr] and the range model of package [allocator]

    Neither package is part of the sources at hand; the lease manager only
    calls into them. *)

Module IPAddr.

(** A [net.IP] in its four-byte form. *)
Record IP4 : Type := mkIP4 { o1 : Byte.byte; o2 : Byte.byte; o3 : Byte.byte; o4 : Byte.byte }.

(** [net.IPNet]: the network address and its mask. *)
Record IPNet : Type := mkIPNet { IP : IP4; Mask : IP4 }.

Definition octet (b : Byte.byte) : Z := Z.of_N (Byte.to_N b).

Definition to_octet (z : Z) : Byte.byte :=
  match Byte.of_N (Z.to_N (z mod 256)) with
  | Some b => b
  | None => Byte.x00
  end.

(** Modelled from the spec: [toUint32(ip)] of section 4.1, the big-endian
    value of the four bytes ([ipaddr.IP4ToUint32] is not in the sources,
    [binary.BigEndian.Uint32] is what the older lease manager calls). *)
Definition IP4ToUint32 (ip : IP4) : Z :=
  octet (o1 ip) * 2 ^ 24 + octet (o2 ip) * 2 ^ 16 + octet (o3 ip) * 2 ^ 8 + octet (o4 ip).

(** Modelled from the spec: [fromUint32(u)] of section 4.1
    ([ipaddr.Uint32ToIP4], [binary.BigEndian.PutUint32]). *)
Definition Uint32ToIP4 (u : Z) : IP4 :=
  mkIP4 (to_octet (u / 2 ^ 24)) (to_octet (u / 2 ^ 16)) (to_octet (u / 2 ^ 8)) (to_octet u).

(** Modelled from the spec: the decimal field of a lease key read back as
    a 32-bit number ([ipaddr.StrToUint32] is not in the sources). What is
    not a number reads as 0, the value the lease manager tests for when it
    skips an invalid key. *)
Definition StrToUint32 (s : string) : Z :=
  match Fmt.ParseUint32 s with
  | (v, true) => v
  | (_, false) => 0
  end.

(** Modelled from the spec: [end = start + 2^hostSize - 1], of which
    [ipaddr.Uint32AddSeg] (not in the sources) is the [start + 2^hostSize]. *)
Definition Uint32AddSeg (ip n : Z) : Z := Uint32.add ip (Uint32.pow2 n).

Definition network (n : IPNet) : Z := Z.land (IP4ToUint32 (IP n)) (IP4ToUint32 (Mask n)).

Definition broadcast (n : IPNet) : Z :=
  Z.lor (network n) (Uint32.compl (IP4ToUint32 (Mask n))).

(** Modelled from the spec: [subnetBounds(subnet) = (first, last)] with
    [first = network+1] and [last = broadcast-1]
    ([ipaddr.Net4To2Uint32] is not in the sources). *)
Definition Net4To2Uint32 (n : IPNet) : Z * Z :=
  (Uint32.add (network n) 1, Uint32.sub (broadcast n) 1).

(** [ip.Cmp] of the plugins library: -1, 0 or 1. *)
Definition Cmp (a b : IP4) : Z :=
  match IP4ToUint32 a ?= IP4ToUint32 b with
  | Lt => -1
  | Eq => 0
  | Gt => 1
  end.

Definition eqb (a b : IP4) : bool := IP4ToUint32 a =? IP4ToUint32 b.

End IPAddr.

Module Allocator.
Import IPAddr.

(** [allocator.SimpleRange]. *)
Record SimpleRange : Type := mkSimpleRange { RangeStart : IP4; RangeEnd : IP4 }.

(** [allocator.Range]: a [SimpleRange] with its subnet and gateway. *)
Record Range : Type := mkRange {
  rRangeStart : IP4;
  rRangeEnd : IP4;
  Subnet : IPNet;
  Gateway : option IP4
}.

Definition RangeSet : Type := list Range.

(** Modelled from the spec: [SimpleRange.hostSize()] of section 4.2, the
    smallest [n] such that [end - start + 1 <= 2^n]
    ([SimpleRange.HostSize] is not in the sources). *)
Definition HostSize (r : SimpleRange) : Z :=
  Z.log2_up (IP4ToUint32 (RangeEnd r) - IP4ToUint32 (RangeStart r) + 1).

(** Modelled from the spec: [rangeMatch(a, b)], start and end equal
    ([SimpleRange.Match] is not in the sources). *)
Definition Match (a b : SimpleRange) : bool :=
  IPAddr.eqb (RangeStart a) (RangeStart b) && IPAddr.eqb (RangeEnd a) (RangeEnd b).

(** Modelled from the spec: [rangeOverlap(a, b)]
    ([SimpleRange.Overlaps] is not in the sources). *)
Definition Overlaps (a b : SimpleRange) : bool :=
  (IP4ToUint32 (RangeStart a) <=? IP4ToUint32 (RangeEnd b)) &&
  (IP4ToUint32 (RangeStart b) <=? IP4ToUint32 (RangeEnd a)).

(** Modelled from the spec: [rangeContains(range, ip)]
    ([Range.Contains] is not in the sources). *)
Definition Contains (r : Range) (ip : IP4) : bool :=
  (IP4ToUint32 (rRangeStart r) <=? IP4ToUint32 ip) &&
  (IP4ToUint32 ip <=? IP4ToUint32 (rRangeEnd r)).

End Allocator.

(** ** The world outside the process

    The coordinator (key-value data with its revision, sessions and their
    mutexes), the node-local cache files and the environment are explicit
    state. Every request that leaves the process takes its outcome from a
    script: what other nodes wrote in the meantime, and whether the request
    fails. The script is arbitrary, so a statement that holds for every world
    holds for every pattern of failures and of concurrent writers. *)

Module Sys.
Import Allocator.

(** A Go [error]: [None] is [nil]. *)
Definition error : Type := option string.

Inductive outcome (A : Type) : Type :=
| Ret (a : A)
| Panic (msg : string).
Arguments Ret {A} a.
Arguments Panic {A} msg.

Record Tick : Type := mkTick {
  fails : bool;
  others : list (string * string)
}.

Inductive Event : Type :=
| EvNew (ok : bool)
| EvClientClose
| EvSession (s : nat) (ok : bool)
| EvSessionClose (s : nat) (ok : bool)
| EvLock (m : string) (s : nat) (ok : bool)
| EvUnlock (m : string) (s : nat) (ok : bool)
| EvGet (key : string) (ok : bool)
| EvList (prefix : string) (ok : bool)
| EvPut (key value : string) (ok : bool)
| EvDelete (key : string) (ok : bool)
| EvDiskNew (network : string) (ok : bool)
| EvLoadCache (network : string) (ok : bool)
| EvAppendCache (network : string) (r : SimpleRange) (ok : bool)
| EvDeleteCache (network : string) (r : SimpleRange)
| EvDocker (ok : bool)
| EvContainerList (id : string) (ok : bool)
| EvStoreLock (network : string)
| EvStoreUnlock (network : string)
| EvRemove (file : string)
| EvLog (msg : string).

Record World : Type := mkWorld {
  kv : gmap string string;
  revision : Z;
  sessions : gset nat;
  mutexes : gmap string nat;
  fresh : nat;
  clients : nat;
  rootKeyDir : string;
  nodeId : string;
  leaseDir : string;
  cache : gmap string (list SimpleRange);
  files : gmap string string;
  containers : gset string;
  script : list Tick;
  log : list Event
}.

(** Computations over a state [W] are needed for the plugin adapters
    too, whose state is the store of the node. *)
Definition ST (W A : Type) : Type := W -> outcome A * W.

Definition ret {W A} (a : A) : ST W A := fun w => (Ret a, w).

Definition bind {W A B} (m : ST W A) (f : A -> ST W B) : ST W B :=
  fun w =>
    match m w with
    | (Ret a, w') => f a w'
    | (Panic msg, w') => (Panic msg, w')
    end.

Definition panic {W A} (msg : string) : ST W A := fun w => (Panic msg, w).

(** [defer d] around a body: [d] runs when the body is left, however it
    is left. *)
Definition defer {W A} (d : ST W unit) (body : ST W A) : ST W A :=
  fun w =>
    match body w with
    | (o, w') => (o, snd (d w'))
    end.

Definition M (A : Type) : Type := ST World A.

(** The updates of a world, one field at a time. *)
Definition set_kv (f : gmap string string -> gmap string string) (n : Z) (w : World) : World :=
  let '(mkWorld k r ss ms fr cl rt id ld ca fi co sc lg) := w in
  mkWorld (f k) (r + n) ss ms fr cl rt id ld ca fi co sc lg.

Definition upd_sessions (f : gset nat -> gset nat) (w : World) : World :=
  let '(mkWorld k r ss ms fr cl rt id ld ca fi co sc lg) := w in
  mkWorld k r (f ss) ms fr cl rt id ld ca fi co sc lg.

Definition upd_mutexes (f : gmap string nat -> gmap string nat) (w : World) : World :=
  let '(mkWorld k r ss ms fr cl rt id ld ca fi co sc lg) := w in
  mkWorld k r ss (f ms) fr cl rt id ld ca fi co sc lg.

Definition upd_fresh (f : nat -> nat) (w : World) : World :=
  let '(mkWorld k r ss ms fr cl rt id ld ca fi co sc lg) := w in
  mkWorld k r ss ms (f fr) cl rt id ld ca fi co sc lg.

Definition upd_clients (f : nat -> nat) (w : World) : World :=
  let '(mkWorld k r ss ms fr cl rt id ld ca fi co sc lg) := w in
  mkWorld k r ss ms fr (f cl) rt id ld ca fi co sc lg.

Definition upd_leaseDir (f : string -> string) (w : World) : World :=
  let '(mkWorld k r ss ms fr cl rt id ld ca fi co sc lg) := w in
  mkWorld k r ss ms fr cl rt id (f ld) ca fi co sc lg.

Definition upd_cache (f : gmap string (list SimpleRange) -> gmap string (list SimpleRange)) (w : World) : World :=
  let '(mkWorld k r ss ms fr cl rt id ld ca fi co sc lg) := w in
  mkWorld k r ss ms fr cl rt id ld (f ca) fi co sc lg.

Definition upd_files (f : gmap string string -> gmap string string) (w : World) : World :=
  let '(mkWorld k r ss ms fr cl rt id ld ca fi co sc lg) := w in
  mkWorld k r ss ms fr cl rt id ld ca (f fi) co sc lg.

Definition set_script (sc' : list Tick) (w : World) : World :=
  let '(mkWorld k r ss ms fr cl rt id ld ca fi co sc lg) := w in
  mkWorld k r ss ms fr cl rt id ld ca fi co sc' lg.

Definition upd_log (f : list Event -> list Event) (w : World) : World :=
  let '(mkWorld k r ss ms fr cl rt id ld ca fi co sc lg) := w in
  mkWorld k r ss ms fr cl rt id ld ca fi co sc (f lg).

(** The log keeps the newest event first. *)
Definition emit (e : Event) : M unit := fun w => (Ret tt, upd_log (cons e) w).

(** The writes of other nodes reach the coordinator one by one, each with
    a revision of its own. *)
Definition land (ws : list (string * string)) (w : World) : World :=
  set_kv (fun m => fold_left (fun m' p => <[fst p := snd p]> m') ws m)
         (Z.of_nat (List.length ws)) w.

(** The next request leaves the process: [true] when it fails. *)
Definition tick : M bool :=
  fun w =>
    match script w with
    | [] => (Ret false, w)
    | t :: ts => (Ret (fails t), land (others t) (set_script ts w))
    end.

Definition modify (f : World -> World) : M unit := fun w => (Ret tt, f w).
Definition gets {A} (f : World -> A) : M A := fun w => (Ret (f w), w).

(** A computation without effects that may panic. *)
Definition lift {W A} (o : outcome A) : ST W A := fun w => (o, w).

(** A [for ... range] loop whose body has no [break]. *)
Fixpoint for_each {W A} (l : list A) (body : A -> ST W unit) : ST W unit :=
  match l with
  | [] => ret tt
  | x :: l' => bind (body x) (fun _ => for_each l' body)
  end.

End Sys.

Declare Scope go_scope.
Delimit Scope go_scope with go.
Notation "'do' x <- m ; k" := (Sys.bind m (fun x => k))
  (at level 10, x pattern, m at level 100, k at level 200) : go_scope.
Notation "m ;; k" := (Sys.bind m (fun _ => k))
  (at level 100, k at level 200, right associativity) : go_scope.

(** ** The coordinator client, [etcdv3/etcdv3.go] *)

Module Etcdv3.
Import Sys.
Local Open Scope go_scope.

(** A [*clientv3.Client]; a nil pointer is [None] at the call sites. *)
Inductive Client : Type := TheClient.

Record EtcdMultus : Type := mkEtcdMultus {
  Cli : Client;
  RootKeyDir : string;
  Id : string
}.

(** [logging.Errorf]: the message is logged and handed back as an error. *)
Definition Errorf (msg : string) : M error :=
  emit (EvLog msg) ;; ret (Some msg).

(** [logging.Debugf], kept where it reports an error. *)
Definition Debugf (msg : string) : M unit := emit (EvLog msg).

(** [New]: the parameters come from the environment, the client from the
    endpoints of the configuration file. *)
Definition New : M (option EtcdMultus * error) :=
  do failed <- tick;
  emit (EvNew (negb failed)) ;;
  if failed then
    do err <- Errorf "create etcd client failed";
    ret (None, err)
  else
    modify (upd_clients S) ;;
    do root <- gets rootKeyDir;
    do id <- gets nodeId;
    ret (Some (mkEtcdMultus TheClient root id), None).

(** [cli.Close()]. *)
Definition ClientClose (c : Client) : M unit :=
  emit EvClientClose ;;
  modify (upd_clients Nat.pred).

(** [concurrency.NewSession(cli)]. *)
Definition NewSession (c : Client) : M (option nat * error) :=
  do failed <- tick;
  do s <- gets fresh;
  emit (EvSession s (negb failed)) ;;
  if failed then ret (None, Some "session")
  else
    modify (upd_sessions (union {[s]})) ;;
    modify (upd_fresh S) ;;
    ret (Some s, None).

(** [s.Close()]: the lease of the session is revoked, and with it every
    mutex key the session still holds. *)
Definition SessionClose (s : nat) : M unit :=
  do failed <- tick;
  emit (EvSessionClose s (negb failed)) ;;
  if failed then ret tt
  else
    modify (upd_sessions (fun ss => ss ∖ {[s]})) ;;
    modify (upd_mutexes (filter (fun p => snd p ≠ s))).

(** [m.Lock(ctx)] on the mutex [m] of session [s]. *)
Definition Lock (s : nat) (m : string) : M error :=
  do failed <- tick;
  emit (EvLock m s (negb failed)) ;;
  if failed then ret (Some "lock")
  else
    modify (upd_mutexes (insert m s)) ;;
    ret None.

(** [m.Unlock(ctx)]. *)
Definition Unlock (s : nat) (m : string) : M error :=
  do failed <- tick;
  emit (EvUnlock m s (negb failed)) ;;
  if failed then ret (Some "unlock")
  else
    modify (upd_mutexes (delete m)) ;;
    ret None.

(** [cli.Get(ctx, key)]: the key-value pairs of the response. *)
Definition Get (c : Client) (key : string) : M (list (string * string) * error) :=
  do failed <- tick;
  emit (EvGet key (negb failed)) ;;
  if failed then ret ([], Some "get")
  else
    do m <- gets kv;
    ret (match m !! key with Some v => [(key, v)] | None => [] end, None).

Definition key_le (p q : string * string) : Prop :=
  String.leb (fst p) (fst q) = true.

#[global] Instance key_le_dec : RelDecision key_le :=
  fun p q => decide (String.leb (fst p) (fst q) = true).

Definition with_prefix (prefix : string) (m : gmap string string) : list (string * string) :=
  merge_sort key_le
    (List.filter (fun p => String.prefix prefix (fst p)) (map_to_list m)).

(** [cli.Get(ctx, prefix, WithPrefix(), WithSort(SortByKey, SortAscend))]. *)
Definition GetPrefix (c : Client) (prefix : string) : M (list (string * string) * error) :=
  do failed <- tick;
  emit (EvList prefix (negb failed)) ;;
  if failed then ret ([], Some "get")
  else
    do m <- gets kv;
    ret (with_prefix prefix m, None).

(** [cli.Put(ctx, key, value)]: the revision of the response header. *)
Definition Put (c : Client) (key value : string) : M (Z * error) :=
  do failed <- tick;
  emit (EvPut key value (negb failed)) ;;
  if failed then ret (0, Some "put")
  else
    modify (set_kv (insert key value) 1) ;;
    do r <- gets revision;
    ret (r, None).

(** [cli.Delete(ctx, key)]. *)
Definition Delete (c : Client) (key : string) : M error :=
  do failed <- tick;
  emit (EvDelete key (negb failed)) ;;
  if failed then ret (Some "delete")
  else
    modify (set_kv (delete key) 1) ;;
    ret None.

Definition KeyToMutex (key : string) : string :=
  let ss := Strings.Split "/" (Filepath.Dir key) in
  let mutex := Filepath.Join [hd "" ss; "mutex"] in
  fold_left (fun m s => Filepath.Join [m; s]) (tl ss) mutex.

(** The first lines of [TransPutKey] and [TransDelKey]: a nil client is
    replaced by one of the call's own, closed when the call returns. *)
Definition with_client (c : option Client) (body : Client -> M error) : M error :=
  match c with
  | Some cli => body cli
  | None =>
      do r <- New;
      match r with
      | (Some em, _) => defer (ClientClose (Cli em)) (body (Cli em))
      | (None, _) => Errorf "Create etcd client failed"
      end
  end.

Definition unlock_deferred (s : nat) (mutex : string) : M unit :=
  do err <- Unlock s mutex;
  match err with
  | Some _ => Debugf "unlock etcd mutex failed"
  | None => ret tt
  end.

Definition TransPutKey (c : option Client) (key value : string) (noExist : bool) : M error :=
  with_client c (fun cli =>
    do r <- NewSession cli;
    match r with
    | (None, _) => Errorf "create etcd session failed"
    | (Some s, _) =>
        defer (SessionClose s)
          (let mutex := KeyToMutex key in
           do err <- Lock s mutex;
           match err with
           | Some _ => Errorf "get etcd locd failed"
           | None =>
               defer (unlock_deferred s mutex)
                 (do chk <-
                    (if noExist then
                       do resp <- Get cli key;
                       match resp with
                       | (_, Some _) => Errorf ("failed to check key " +:+ key)
                       | (kvs, None) =>
                           if negb (Nat.eqb (List.length kvs) 0)
                           then Errorf ("key " +:+ key +:+ " exists")
                           else ret None
                       end
                     else ret None);
                  match chk with
                  | Some e => ret (Some e)
                  | None =>
                      do p <- Put cli key value;
                      match p with
                      | (_, Some _) => Errorf ("write key " +:+ key +:+ " to " +:+ value +:+ " failed")
                      | (_, None) => ret None
                      end
                  end)
           end)
    end).

Definition TransDelKey (c : option Client) (key : string) : M error :=
  with_client c (fun cli =>
    do r <- NewSession cli;
    match r with
    | (None, _) => Errorf "create etcd session failed"
    | (Some s, _) =>
        defer (SessionClose s)
          (let mutex := KeyToMutex key in
           do err <- Lock s mutex;
           match err with
           | Some _ => Errorf "get etcd locd failed"
           | None =>
               defer (unlock_deferred s mutex)
                 (do err <- Delete cli key;
                  match err with
                  | Some _ => Errorf ("delete key " +:+ key +:+ " failed")
                  | None => ret None
                  end)
           end)
    end).

(** [TransDelKeys]: the errors of the deletions are dropped. *)
Definition TransDelKeys (c : option Client) (keys : list string) : M unit :=
  for_each keys (fun k => TransDelKey c k ;; ret tt).

End Etcdv3.

(** ** The node-local store, package [disk]

    Modelled from the spec: the cache operations of the table in section 4.3
    (package [disk] is not in the sources). [LoadCache] returns the lines of
    the cache file, [AppendCache] appends a line unless it is there already,
    [DeleteCache] removes the matching line. *)

Module Disk.
Import Allocator Sys.
Local Open Scope go_scope.

Record Store : Type := mkStore { network : string }.

Definition linesOf (c : gmap string (list SimpleRange)) (n : string) : list SimpleRange :=
  match c !! n with
  | Some l => l
  | None => []
  end.

Definition lines (n : string) (w : World) : list SimpleRange := linesOf (cache w) n.

(** Modelled from the spec: [disk.New], which opens the store of a network. *)
Definition New (n dataDir : string) : M (option Store * error) :=
  do failed <- tick;
  emit (EvDiskNew n (negb failed)) ;;
  if failed then ret (None, Some "disk") else ret (Some (mkStore n), None).

(** Modelled from the spec: [LoadCache()]. *)
Definition LoadCache (s : Store) : M (list SimpleRange * error) :=
  do failed <- tick;
  emit (EvLoadCache (network s) (negb failed)) ;;
  if failed then ret ([], Some "load cache")
  else
    do l <- gets (lines (network s));
    ret (l, None).

(** Modelled from the spec: [AppendCache(r)], error [duplicate]. *)
Definition AppendCache (s : Store) (r : SimpleRange) : M error :=
  do failed <- tick;
  do l <- gets (lines (network s));
  let ok := negb failed && negb (existsb (Match r) l) in
  emit (EvAppendCache (network s) r ok) ;;
  if ok then
    modify (upd_cache (fun c => <[network s := (linesOf c (network s) ++ [r])%list]> c)) ;;
    ret None
  else ret (Some "append cache").

(** Modelled from the spec: [DeleteCache(r)], no error. *)
Definition DeleteCache (s : Store) (r : SimpleRange) : M error :=
  emit (EvDeleteCache (network s) r) ;;
  modify (upd_cache (fun c =>
    <[network s := List.filter (fun x => negb (Match r x)) (linesOf c (network s))]> c)) ;;
  ret None.

End Disk.

(** ** The lease manager and the reconciler,
       [multus-ipam/backend/etcdv3cli/cli.go] *)

Module Etcdv3cli.
Import IPAddr Allocator Sys Etcdv3.
Local Open Scope go_scope.

Definition staticDir : string := "static".
Definition maxApplyTry : Z := 3.

(** [fmt.Sprintf(keyTemplate, ips, n)] with [keyTemplate = "%010d-%d"]. *)
Definition keyTemplate (ips n : Z) : string := Fmt.d010 ips +:+ "-" +:+ Fmt.d n.

Definition ipmaLeaseToUint32Range (key : string) : outcome (Z * Z) :=
  match Strings.Split "-" (Filepath.Base key) with
  | l0 :: l1 :: _ =>
      let IPStart := StrToUint32 l0 in
      let hostSize := StrToUint32 l1 in
      let IPEnd := Uint32.sub (Uint32AddSeg IPStart hostSize) 1 in
      Ret (IPStart, IPEnd)
  | _ => Panic "index out of range"
  end.

Definition ipamLeaseToSimleRange (l : string) : outcome SimpleRange :=
  match ipmaLeaseToUint32Range l with
  | Ret (ips, ipe) => Ret (mkSimpleRange (Uint32ToIP4 ips) (Uint32ToIP4 ipe))
  | Panic msg => Panic msg
  end.

Definition ipamSimpleRangeToLease (keyDir : string) (rs : SimpleRange) : string :=
  let ips := IP4ToUint32 (RangeStart rs) in
  let n := HostSize rs in
  Filepath.Join [keyDir; keyTemplate ips n].

(** The loop of [ipamGetFreeIPRange] over the keys of the response:
    [None] when the loop runs to its end. *)
Fixpoint scanLeases (unit last : Z) (kvs : list (string * string)) : outcome (option (Z * Z)) :=
  match kvs with
  | [] => Ret None
  | ev :: rest =>
      match ipmaLeaseToUint32Range (fst ev) with
      | Panic msg => Panic msg
      | Ret (ips, ipe) =>
          if ips =? 0 then scanLeases unit last rest
          else if Uint32.sub ips last <? unit then scanLeases unit (Uint32.add ipe 1) rest
          else
            let sips := last in
            let sipe := Uint32.sub (Uint32.add last unit) 1 in
            Ret (Some (sips, sipe))
      end
  end.

Definition ipamGetFreeIPRange (cli : Client) (keyDir : string) (subnet : IPNet) (n : Z)
  : M (option SimpleRange * error) :=
  let unit := Uint32.pow2 n in
  let '(rips, ripe) := Net4To2Uint32 subnet in
  let last := ripe in
  do resp <- GetPrefix cli keyDir;
  match resp with
  | (_, Some _) =>
      do err <- Errorf ("Get " +:+ keyDir +:+ " failed");
      ret (None, err)
  | (kvs, None) =>
      do found <- lift (scanLeases unit last kvs);
      match found with
      | Some (sips, sipe) =>
          ret (Some (mkSimpleRange (Uint32ToIP4 sips) (Uint32ToIP4 sipe)), None)
      | None =>
          do err <- Errorf "apply ip range failed";
          ret (None, err)
      end
  end.

Definition IPAMApplyIPRange (name : string) (applyUnit : Z) (subnet : IPNet)
  : M (option SimpleRange * error) :=
  do r <- New;
  match r with
  | (_, Some e) => ret (None, Some e)
  | (None, None) => panic "nil pointer dereference"
  | (Some etcdMultus, None) =>
      let cli := Cli etcdMultus in
      let rKeyDir := RootKeyDir etcdMultus in
      let id := Id etcdMultus in
      defer (ClientClose cli)
        (do ld <- gets leaseDir;
         let keyDir := Filepath.Join [rKeyDir; ld; name] in
         do r <- ipamGetFreeIPRange cli keyDir subnet applyUnit;
         match r with
         | (_, Some e) => ret (None, Some e)
         | (None, None) => panic "nil pointer dereference"
         | (Some rs, None) =>
             do err <- TransPutKey (Some cli) (ipamSimpleRangeToLease keyDir rs) id true;
             match err with
             | Some _ =>
                 do e <- Errorf ("write key " +:+ ipamSimpleRangeToLease keyDir rs
                                 +:+ " with value " +:+ id +:+ " failed");
                 ret (None, e)
             | None => ret (Some rs, None)
             end
         end)
  end.

(** The loop of [IPAMGetAllLease]. *)
Fixpoint collectLeases (id : string) (kvs : list (string * string))
         (leases : gmap string (list SimpleRange)) : outcome (gmap string (list SimpleRange)) :=
  match kvs with
  | [] => Ret leases
  | ev :: rest =>
      let v := Strings.Trim (snd ev) in
      if String.eqb v id then
        let k := Strings.Trim (fst ev) in
        let network := Filepath.Base (Filepath.Dir k) in
        match ipamLeaseToSimleRange k with
        | Panic msg => Panic msg
        | Ret sr =>
            match leases !! network with
            | Some l => collectLeases id rest (<[network := (l ++ [sr])%list]> leases)
            | None => collectLeases id rest (<[network := [sr]]> leases)
            end
        end
      else collectLeases id rest leases
  end.

Definition IPAMGetAllLease (cli : Client) (keyDir id : string)
  : M (gmap string (list SimpleRange) * error) :=
  do resp <- GetPrefix cli keyDir;
  match resp with
  | (_, Some _) =>
      do err <- Errorf ("Get " +:+ keyDir +:+ " failed");
      ret (∅, err)
  | (kvs, None) =>
      do leases <- lift (collectLeases id kvs ∅);
      ret (leases, None)
  end.

(** First pass of [ipamCheckNet], the loop over the cache for one lease:
    [true] when an entry matches the lease. *)
Fixpoint matchCaches (s : Disk.Store) (lsr : SimpleRange) (caches : list SimpleRange) : M bool :=
  match caches with
  | [] => ret false
  | csr :: rest =>
      if Overlaps csr lsr then
        if Match csr lsr then ret true
        else (Disk.DeleteCache s csr ;; matchCaches s lsr rest)
      else matchCaches s lsr rest
  end.

Definition checkLease (s : Disk.Store) (cli : Client) (keyDir : string)
           (caches : list SimpleRange) (lsr : SimpleRange) : M unit :=
  do found <- matchCaches s lsr caches;
  if found then ret tt
  else
    do err <- Disk.AppendCache s lsr;
    match err with
    | Some _ => (TransDelKey (Some cli) (ipamSimpleRangeToLease keyDir lsr) ;; ret tt)
    | None => ret tt
    end.

(** Second pass of [ipamCheckNet], the body of the loop over the cache. *)
Definition checkCache (s : Disk.Store) (cli : Client) (keyDir id : string)
           (leases : list SimpleRange) (csr : SimpleRange) : M unit :=
  if existsb (Match csr) leases then ret tt
  else
    do err <- TransPutKey (Some cli) (ipamSimpleRangeToLease keyDir csr) id true;
    match err with
    | Some _ => (Disk.DeleteCache s csr ;; ret tt)
    | None => ret tt
    end.

Definition ipamCheckNet (em : EtcdMultus) (network : string) (leases : list SimpleRange) : M unit :=
  do r <- Disk.New network "";
  match r with
  | (_, Some _) => (Errorf "create disk manager failed" ;; ret tt)
  | (None, None) => panic "nil pointer dereference"
  | (Some s, None) =>
      do r <- Disk.LoadCache s;
      match r with
      | (_, Some _) => (Errorf "get cache failed" ;; ret tt)
      | (caches, None) =>
          do ld <- gets leaseDir;
          let keyDir := Filepath.Join [RootKeyDir em; ld; network] in
          let cli := Cli em in
          let id := Id em in
          for_each leases (checkLease s cli keyDir caches) ;;
          do r <- Disk.LoadCache s;
          match r with
          | (_, Some _) => (Errorf "get cache failed" ;; ret tt)
          | (caches, None) => for_each caches (checkCache s cli keyDir id leases)
          end
      end
  end.

Definition IPAMCheck : M error :=
  do r <- New;
  match r with
  | (None, _) => panic "nil pointer dereference"
  | (Some etcdMultus, Some e) => ret (Some e)
  | (Some etcdMultus, None) =>
      let cli := Cli etcdMultus in
      let rKeyDir := RootKeyDir etcdMultus in
      let id := Id etcdMultus in
      defer (ClientClose cli)
        (modify (upd_leaseDir (fun leaseDir => Filepath.Join [rKeyDir; leaseDir])) ;;
         do ld <- gets leaseDir;
         do r <- IPAMGetAllLease cli ld id;
         match r with
         | (_, Some e) => ret (Some e)
         | (leases, None) =>
             if Nat.eqb (size leases) 0 then ret None
             else
               (for_each (map_to_list leases)
                  (fun nl => ipamCheckNet etcdMultus (fst nl) (snd nl)) ;;
                ret None)
         end)
  end.

End Etcdv3cli.

(** ** The older lease manager, [host-etcd/backend/etcdv3/etcdv3.go] *)

Module HostEtcd.
Import IPAddr Sys Etcdv3.
Local Open Scope go_scope.

Definition rootKeyDir : string := "multus".
Definition maxApplyTry : nat := 3.

(** [fmt.Sprintf(keyTemplate, b, e)] with [keyTemplate = "%10d-%10d"]. *)
Definition keyTemplate (b e : Z) : string := Fmt.d10 b +:+ "-" +:+ Fmt.d10 e.

(** [s[strings.LastIndex(s, "/")+1:]]. *)
Definition afterLastSlash (s : string) : string := List.last (Strings.Split "/" s) "".

(** The loop of [GetFreeIPRange] over the keys of the response; when it
    runs to its end it hands back the last address in use. *)
Fixpoint scanRanges (lastIP : Z) (kvs : list (string * string)) : outcome (Z + Z * Z) :=
  match kvs with
  | [] => Ret (inl lastIP)
  | ev :: rest =>
      match Strings.Split "-" (fst ev) with
      | [] => Panic "index out of range"
      | r0 :: more =>
          let IPRangeBegin := fst (Fmt.ParseUint32 (afterLastSlash r0)) in
          if Uint32.sub IPRangeBegin lastIP <=? 1 then
            match more with
            | [] => Panic "index out of range"
            | r1 :: _ => scanRanges (fst (Fmt.ParseUint32 r1)) rest
            end
          else
            let IPBegin := Uint32.add lastIP 1 in
            let IPEnd := Uint32.sub IPRangeBegin 1 in
            Ret (inr (IPBegin, IPEnd))
      end
  end.

Definition GetFreeIPRange (cli : Client) (dir : string) (subnet : IPNet) (unit : Z)
  : M (Z * Z * error) :=
  let bIP := Uint32.add (IP4ToUint32 (IP subnet)) 1 in
  let eIP := Uint32.sub (Uint32.add bIP (Uint32.compl (IP4ToUint32 (Mask subnet)))) 1 in
  let lastIP := bIP in
  do getResp <- GetPrefix cli dir;
  match getResp with
  | (_, Some _) => ret (0, 0, None)
  | (kvs, None) =>
      do r <- lift (scanRanges lastIP kvs);
      match r with
      | inr (IPBegin, IPEnd) => ret (IPBegin, IPEnd, None)
      | inl lastIP =>
          if lastIP <? eIP then
            let block := Uint32.sub eIP lastIP in
            let block := if block >? unit then unit else block in
            let IPBegin := Uint32.add lastIP 1 in
            let IPEnd := Uint32.add lastIP block in
            ret (IPBegin, IPEnd, None)
          else ret (0, 0, Some "can't apply free IP range")
      end
  end.

(** [cli.Get(ctx, key)] read for the revision of its response header. *)
Definition GetRevision (c : Client) (key : string) : M (Z * error) :=
  do failed <- tick;
  emit (EvGet key (negb failed)) ;;
  if failed then ret (0, Some "get")
  else
    do r <- gets revision;
    ret (r, None).

(** The loop [for i := 1; i <= maxApplyTry; i++] of [ApplyNewIPRange];
    [tries] counts the turns that are left. *)
Fixpoint applyLoop (tries : nat) (cli : Client) (keyDir nodeName : string)
         (subnet : IPNet) (unit : Z) : M (option (IP4 * IP4) * error) :=
  match tries with
  | O => ret (None, Some "can't apply free IP range")
  | S tries' =>
      do r <- GetFreeIPRange cli keyDir subnet unit;
      match r with
      | (_, _, Some e) => ret (None, Some e)
      | (IPBegin, IPEnd, None) =>
          let claimKey := keyTemplate IPBegin IPEnd in
          do putResp <- Put cli (keyDir +:+ "/" +:+ claimKey) nodeName;
          match putResp with
          | (_, Some e) => ret (None, Some e)
          | (putRev, None) =>
              do getResp <- GetRevision cli (keyDir +:+ "/" +:+ claimKey);
              match getResp with
              | (_, Some e) => ret (None, Some e)
              | (getRev, None) =>
                  if putRev =? getRev
                  then ret (Some (Uint32ToIP4 IPBegin, Uint32ToIP4 IPEnd), None)
                  else applyLoop tries' cli keyDir nodeName subnet unit
              end
          end
      end
  end.

(** [ApplyNewIPRange]: everything before the loop reads the configuration
    and opens the client, and fails as a whole. *)
Definition ApplyNewIPRange (network : string) (subnet : IPNet) (unit : Z)
  : M (option (IP4 * IP4) * error) :=
  do failed <- tick;
  emit (EvNew (negb failed)) ;;
  if failed then ret (None, Some "etcd client")
  else
    modify (upd_clients S) ;;
    do nodeName <- gets nodeId;
    defer (ClientClose TheClient)
      (let keyDir := rootKeyDir +:+ "/" +:+ network in
       applyLoop maxApplyTry TheClient keyDir nodeName subnet unit).

End HostEtcd.

(** ** The container-liveness sweep, package [dockercli] *)

Module Dockercli.
Import Sys Etcdv3.
Local Open Scope go_scope.

(** The body of the loop of [IPAMCheckLocalIPs] for the assignment file
    [f] read as belonging to container [id]. [disk.LoadAllLeases],
    [disk.GetID] and the store lock are not in the sources: the files are
    a map from path to container id, and the lock leaves its two events. *)
Definition checkLocalIP (fid : string * string) : M unit :=
  let '(f, id) := fid in
  do failed <- tick;
  emit (EvContainerList id (negb failed)) ;;
  if failed then Debugf ("list container " +:+ id +:+ " failed")
  else
    do live <- gets containers;
    if bool_decide (id ∈ live) then ret tt
    else
      let network := Filepath.Base (Filepath.Dir f) in
      do r <- Disk.New network "";
      match r with
      | (_, Some _) => Debugf "create disk manager failed"
      | (None, None) => panic "nil pointer dereference"
      | (Some s, None) =>
          emit (EvStoreLock network) ;;
          do curID <- gets (fun w => files w !! f);
          (if bool_decide (curID = Some id)
           then (emit (EvRemove f) ;; modify (upd_files (delete f)))
           else ret tt) ;;
          emit (EvStoreUnlock network)
      end.

Definition IPAMCheckLocalIPs : M error :=
  do failed <- tick;
  emit (EvDocker (negb failed)) ;;
  if failed then Errorf "create docker cli failed"
  else
    do leases <- gets (fun w => map_to_list (files w));
    for_each leases checkLocalIP ;;
    ret None.

End Dockercli.

(** ** The plugin adapters

    Two programs of the repository carry a [formRangeSets] and an
    [allocateIP]: the [multus-ipam] plugin and the older [host-etcd] plugin.
    What they call outside the sources at hand (the allocator's [Get] and
    [Release], the store's cache file, the lease manager they import) is a
    parameter: any behaviour over any state [S]. The calls leave their
    events in a log next to the state. *)

Module Plugin.
Import IPAddr Allocator Sys.
Local Open Scope go_scope.

(** [net.ParseIP] on dotted quads, and [IP.String]. *)
Definition parseOctet (s : string) : option Byte.byte :=
  match Fmt.ParseUint32 s with
  | (v, true) => if v <=? 255 then Some (to_octet v) else None
  | (_, false) => None
  end.

Definition ParseIP (s : string) : option IP4 :=
  match Strings.Split "." s with
  | [a; b; c; d] =>
      match parseOctet a, parseOctet b, parseOctet c, parseOctet d with
      | Some a', Some b', Some c', Some d' => Some (mkIP4 a' b' c' d')
      | _, _, _, _ => None
      end
  | _ => None
  end.

Definition IPString (ip : IP4) : string :=
  Fmt.d (octet (o1 ip)) +:+ "." +:+ Fmt.d (octet (o2 ip)) +:+ "." +:+
  Fmt.d (octet (o3 ip)) +:+ "." +:+ Fmt.d (octet (o4 ip)).

(** Modelled from the spec: a line ["startIP-endIP"] of the cache file
    ([Range.String] is not in the sources). *)
Definition RangeString (r : Range) : string :=
  IPString (rRangeStart r) +:+ "-" +:+ IPString (rRangeEnd r).

(** Modelled from the spec: [RangeSet.rangeFor(ip)], the first range that
    contains [ip] ([RangeSet.RangeFor] is not in the sources). *)
Definition RangeFor (rs : RangeSet) (ip : IP4) : option Range :=
  List.find (fun r => Contains r ip) rs.

Record IPAllocator : Type := mkIPAllocator { rangeset : RangeSet; rangeID : nat }.

(** [allocator.NewIPAllocator(&rs, store, idx)]. *)
Definition NewIPAllocator (rs : RangeSet) (idx : nat) : IPAllocator := mkIPAllocator rs idx.

Record IPAMConfig : Type := mkIPAMConfig {
  Name : string;
  Ranges : list RangeSet;
  ApplyUnit : Z
}.

Inductive Call : Type :=
| CGet (a : IPAllocator) (ok : bool)
| CRelease (a : IPAllocator)
| CApply (ok : bool)
| CAppendCache (line : string)
| CFlashCache (lines : list string)
| CLog (msg : string).

Definition noAddresses : string := "no IP addresses available in range set".

(** The lines of the cache file as ranges. A line without ["-"] stops the
    program ([pairIP[1]] is out of range); a line with an address that
    does not parse gives nil addresses, which no range contains, and is
    left out here. *)
Fixpoint parseCache (c : list string) : outcome (list SimpleRange) :=
  match c with
  | [] => Ret []
  | r :: rest =>
      match Strings.Split "-" r with
      | p0 :: p1 :: _ =>
          match parseCache rest with
          | Panic msg => Panic msg
          | Ret l =>
              match ParseIP p0, ParseIP p1 with
              | Some a, Some b => Ret (mkSimpleRange a b :: l)
              | _, _ => Ret l
              end
          end
      | _ => Panic "index out of range"
      end
  end.

Definition withBounds (r : Range) (s e : IP4) : Range :=
  mkRange s e (Subnet r) (Gateway r).

(** The body of the innermost loop of [formRangeSets] ([multus-ipam]). *)
Definition clipTo (ro : Range) (cr : SimpleRange) : Range :=
  let r := ro in
  let r := if Cmp (rRangeStart ro) (RangeStart cr) <? 0
           then withBounds r (RangeStart cr) (rRangeEnd r) else r in
  let r := if Cmp (rRangeEnd ro) (RangeEnd cr) >? 0
           then withBounds r (rRangeStart r) (RangeEnd cr) else r in
  r.

Fixpoint overCache (ro : Range) (cacheRangeSet : list SimpleRange) (rs : RangeSet) : RangeSet :=
  match cacheRangeSet with
  | [] => rs
  | cr :: rest =>
      if Contains ro (RangeStart cr) || Contains ro (RangeEnd cr)
      then overCache ro rest (rs ++ [clipTo ro cr])%list
      else overCache ro rest rs
  end.

Fixpoint overRanges (rso : RangeSet) (cacheRangeSet : list SimpleRange) (rs : RangeSet) : RangeSet :=
  match rso with
  | [] => rs
  | ro :: rest => overRanges rest cacheRangeSet (overCache ro cacheRangeSet rs)
  end.

Fixpoint overOrigin (origin : list RangeSet) (cacheRangeSet : list SimpleRange)
         (rss : list RangeSet) : list RangeSet :=
  match origin with
  | [] => rss
  | rso :: rest =>
      overOrigin rest cacheRangeSet (rss ++ [overRanges rso cacheRangeSet []])%list
  end.

Section Externals.
Context {St IPConfig : Type}.

Variable LoadRangeSetFromCache : St -> list string * error.
Variable AppendRangeToCache : string -> St -> St.
Variable FlashRangeSetToCache : list string -> St -> St.
Variable allocGet : IPAllocator -> string -> string -> St -> (IPConfig + string) * St.
Variable allocRelease : IPAllocator -> string -> string -> St -> error * St.
Variable etcdApplyNewIPRange : string -> IPNet -> Z -> St -> (IP4 * IP4 + string) * St.

Record Host : Type := mkHost { store : St; calls : list Call }.

Definition P (A : Type) : Type := ST Host A.

Definition call (c : Call) : P unit := fun h => (Ret tt, mkHost (store h) (c :: calls h)).

Definition Errorf (msg : string) : P error := call (CLog msg) ;; ret (Some msg).

Definition LoadCache : P (list string * error) :=
  fun h => (Ret (LoadRangeSetFromCache (store h)), h).

Definition AppendCache (line : string) : P unit :=
  fun h => (Ret tt, mkHost (AppendRangeToCache line (store h)) (CAppendCache line :: calls h)).

Definition FlashCache (lines : list string) : P unit :=
  fun h => (Ret tt, mkHost (FlashRangeSetToCache lines (store h)) (CFlashCache lines :: calls h)).

(** [alloc.Get(containerID, ifName, nil)]. *)
Definition Get (a : IPAllocator) (containerID ifName : string) : P (option IPConfig * error) :=
  fun h =>
    match allocGet a containerID ifName (store h) with
    | (inl c, s') => (Ret (Some c, None), mkHost s' (CGet a true :: calls h))
    | (inr msg, s') => (Ret (None, Some msg), mkHost s' (CGet a false :: calls h))
    end.

(** [alloc.Release(containerID, ifName)]; a nil allocator stops the program. *)
Definition Release (a : option IPAllocator) (containerID ifName : string) : P error :=
  match a with
  | None => panic "nil pointer dereference"
  | Some a' =>
      fun h =>
        match allocRelease a' containerID ifName (store h) with
        | (e, s') => (Ret e, mkHost s' (CRelease a' :: calls h))
        end
  end.

Definition ApplyNewIPRange (network : string) (subnet : IPNet) (unit : Z)
  : P (option (IP4 * IP4) * error) :=
  fun h =>
    match etcdApplyNewIPRange network subnet unit (store h) with
    | (inl se, s') => (Ret (Some se, None), mkHost s' (CApply true :: calls h))
    | (inr msg, s') => (Ret (None, Some msg), mkHost s' (CApply false :: calls h))
    end.

(** [for _, alloc := range allocs { _ = alloc.Release(containerID, ifName) }]. *)
Definition releaseAll (allocs : list (option IPAllocator)) (containerID ifName : string) : P unit :=
  for_each allocs (fun alloc => Release alloc containerID ifName ;; ret tt).

(** *** [multus-ipam] *)

Definition formRangeSets (origin : list RangeSet) (network : string) (unit : Z)
  : P (option (list RangeSet) * error) :=
  do r <- LoadCache;
  match r with
  | (_, Some e) => ret (None, Some e)
  | (c, None) =>
      do cacheRangeSet <- lift (parseCache c);
      ret (Some (overOrigin origin cacheRangeSet []), None)
  end.

(** [ipamConf.Ranges[idx][0]]. *)
Definition firstRange (ranges : list RangeSet) (idx : nat) : outcome Range :=
  match nth_error ranges idx with
  | Some (r :: _) => Ret r
  | _ => Panic "index out of range"
  end.

(** The loop [for i := 0; i < 3; i++] of [allocateIP]; [n] counts the
    turns that are left. *)
Fixpoint applyRetry (n : nat) (ipamConf : IPAMConfig) (containerID ifName : string) (idx : nat)
         (alloc : option IPAllocator) (ipConf : option IPConfig) (err : error)
  : P (option IPAllocator * option IPConfig * error) :=
  match n with
  | O => ret (alloc, ipConf, err)
  | S n' =>
      match err with
      | Some msg =>
          if Strings.Contains msg noAddresses then
            do r0 <- lift (firstRange (Ranges ipamConf) idx);
            do a <- ApplyNewIPRange (Name ipamConf) (Subnet r0) (ApplyUnit ipamConf);
            match a with
            | (_, Some e) => ret (alloc, ipConf, Some e)
            | (None, None) => panic "nil address"
            | (Some (sIP, eIP), None) =>
                AppendCache (IPString sIP +:+ "-" +:+ IPString eIP) ;;
                let r := withBounds r0 sIP eIP in
                let alloc := NewIPAllocator [r] idx in
                do g <- Get alloc containerID ifName;
                match g with
                | (ipConf, Some e) =>
                    Errorf "alloc ip from range failed" ;;
                    applyRetry n' ipamConf containerID ifName idx (Some alloc) ipConf (Some e)
                | (ipConf, None) => ret (Some alloc, ipConf, None)
                end
            end
          else ret (alloc, ipConf, err)
      | None => ret (alloc, ipConf, err)
      end
  end.

(** The loop of [allocateIP] over the range sets, from index [idx] on. *)
Fixpoint allocateFrom (ipamConf : IPAMConfig) (containerID ifName : string)
         (idx : nat) (rss : list RangeSet)
         (allocs : list (option IPAllocator)) (IPs : list (option IPConfig))
  : P (option (list (option IPConfig)) * error) :=
  match rss with
  | [] => ret (Some IPs, None)
  | rs :: rest =>
      do first <-
        (if negb (Nat.eqb (List.length rs) 0) then
           let alloc := NewIPAllocator rs idx in
           do g <- Get alloc containerID ifName;
           ret (Some alloc, fst g, snd g)
         else
           do err <- Errorf noAddresses;
           ret (None, None, err));
      let '(alloc, ipConf, err) := first in
      do r <- applyRetry 3 ipamConf containerID ifName idx alloc ipConf err;
      let '(alloc, ipConf, err) := r in
      match err with
      | Some _ =>
          releaseAll allocs containerID ifName ;;
          do e <- Errorf "failed to allocate for range";
          ret (None, e)
      | None =>
          allocateFrom ipamConf containerID ifName (S idx) rest
                       (allocs ++ [alloc])%list (IPs ++ [ipConf])%list
      end
  end.

Definition allocateIP (ipamConf : IPAMConfig) (containerID ifName : string)
  : P (option (list (option IPConfig)) * error) :=
  do r <- formRangeSets (Ranges ipamConf) (Name ipamConf) (ApplyUnit ipamConf);
  match r with
  | (_, Some e) => ret (None, Some e)
  | (None, None) => ret (Some [], None)
  | (Some rss, None) => allocateFrom ipamConf containerID ifName 0 rss [] []
  end.

(** *** [host-etcd] *)

Fixpoint hostEtcd_overCache (ors : RangeSet) (cacheRangeSet : list SimpleRange) (rs : RangeSet)
  : RangeSet :=
  match cacheRangeSet with
  | [] => rs
  | cr :: rest =>
      match RangeFor ors (RangeStart cr) with
      | Some or => hostEtcd_overCache ors rest (rs ++ [or])%list
      | None => hostEtcd_overCache ors rest rs
      end
  end.

Definition cacheLines (rss : list RangeSet) : list string :=
  flat_map (List.map RangeString) rss.

Fixpoint hostEtcd_overOrigin (network : string) (unit : Z) (origin : list RangeSet)
         (cacheRangeSet : list SimpleRange) (rss : list RangeSet) (flashCache : bool)
  : P (option (list RangeSet) * error) :=
  match origin with
  | [] =>
      (if flashCache then FlashCache (cacheLines rss) else ret tt) ;;
      ret (Some rss, None)
  | ors :: rest =>
      let rs := hostEtcd_overCache ors cacheRangeSet [] in
      if Nat.eqb (List.length rs) 0 then
        do o0 <- lift (match ors with
                       | r :: _ => Ret r
                       | [] => Panic "index out of range"
                       end);
        do a <- ApplyNewIPRange network (Subnet o0) unit;
        match a with
        | (_, Some e) => ret (None, Some e)
        | (None, None) => panic "nil address"
        | (Some (sIP, eIP), None) =>
            hostEtcd_overOrigin network unit rest cacheRangeSet
              (rss ++ [[withBounds o0 sIP eIP]])%list true
        end
      else hostEtcd_overOrigin network unit rest cacheRangeSet (rss ++ [rs])%list flashCache
  end.

Definition hostEtcd_formRangeSets (origin : list RangeSet) (network : string) (unit : Z)
  : P (option (list RangeSet) * error) :=
  do r <- LoadCache;
  match r with
  | (_, Some e) => ret (None, Some e)
  | (c, None) =>
      do cacheRangeSet <- lift (parseCache c);
      hostEtcd_overOrigin network unit origin cacheRangeSet [] false
  end.

(** The loop of the older [allocateIP]: [todo] are the range sets still
    to visit, [rss] the slice that the loop updates in place. The
    allocator made for a fresh lease is a variable of the inner block;
    what the loop appends to [allocs] is the one it began with. *)
Fixpoint hostEtcd_allocateFrom (ipamConf : IPAMConfig) (containerID ifName : string)
         (idx : nat) (todo rss : list RangeSet)
         (allocs : list (option IPAllocator)) (IPs : list (option IPConfig))
         (reflashCache : bool)
  : P (option (list (option IPConfig)) * error) :=
  match todo with
  | [] =>
      (if reflashCache then FlashCache (cacheLines rss) else ret tt) ;;
      ret (Some IPs, None)
  | rangeset :: rest =>
      let alloc := NewIPAllocator rangeset idx in
      do g <- Get alloc containerID ifName;
      match g with
      | (ipConf, None) =>
          hostEtcd_allocateFrom ipamConf containerID ifName (S idx) rest rss
            (allocs ++ [Some alloc])%list (IPs ++ [ipConf])%list reflashCache
      | (ipConf, Some msg) =>
          if Strings.Contains msg noAddresses then
            do r0 <- lift (match rangeset with
                           | r :: _ => Ret r
                           | [] => Panic "index out of range"
                           end);
            do a <- ApplyNewIPRange (Name ipamConf) (Subnet r0) (ApplyUnit ipamConf);
            match a with
            | (Some (sIP, eIP), None) =>
                let r := withBounds r0 sIP eIP in
                let alloc' := NewIPAllocator [r] idx in
                do g' <- Get alloc' containerID ifName;
                match g' with
                | (ipConf', None) =>
                    hostEtcd_allocateFrom ipamConf containerID ifName (S idx) rest
                      (alter (fun x => x ++ [r])%list idx rss)
                      (allocs ++ [Some alloc])%list (IPs ++ [ipConf'])%list true
                | (_, Some e) =>
                    releaseAll allocs containerID ifName ;;
                    ret (None, Some ("failed to allocate for range: " +:+ e))
                end
            | (None, None) => panic "nil address"
            | (_, Some e) =>
                releaseAll allocs containerID ifName ;;
                ret (None, Some ("failed to allocate for range: " +:+ e))
            end
          else
            hostEtcd_allocateFrom ipamConf containerID ifName (S idx) rest rss
              (allocs ++ [Some alloc])%list (IPs ++ [ipConf])%list reflashCache
      end
  end.

Definition hostEtcd_allocateIP (ipamConf : IPAMConfig) (containerID ifName : string)
  : P (option (list (option IPConfig)) * error) :=
  do r <- hostEtcd_formRangeSets (Ranges ipamConf) (Name ipamConf) (ApplyUnit ipamConf);
  match r with
  | (_, Some e) => ret (None, Some e)
  | (None, None) => ret (Some [], None)
  | (Some rss, None) =>
      hostEtcd_allocateFrom ipamConf containerID ifName 0 rss rss [] [] false
  end.

(** *** [cmdDel], the same in both plugins

    [allocator.LoadIPAMConfig] and [disk.New] are not in the sources: what
    they hand back is [loaded] and [opened]. [fmt.Errorf] is called with
    the joined messages as its format and no operand; [Errorf0] is the
    text it makes of a format. *)

Variable Errorf0 : string -> string.



End Externals.

End Plugin.

(** ** Vocabulary of the statements *)

Fixpoint has_char (c : ascii) (s : string) : bool :=
  match s with
  | EmptyString => false
  | String x s' => Ascii.eqb x c || has_char c s'
  end.

Definition is_digit (c : ascii) : bool :=
  (48 <=? nat_of_ascii c)%nat && (nat_of_ascii c <=? 57)%nat.

Fixpoint all_digits (s : string) : bool :=
  match s with
  | EmptyString => true
  | String x s' => is_digit x && all_digits s'
  end.

(** A path element: not empty, no separator in it, neither [.] nor [..]. *)
Definition element (name : string) : Prop :=
  name <> "" /\ has_char "/" name = false /\ name <> "." /\ name <> "..".

(** The address [a.b.c.d]. *)
Definition ip (a b c d : Z) : IPAddr.IP4 :=
  IPAddr.mkIP4 (IPAddr.to_octet a) (IPAddr.to_octet b) (IPAddr.to_octet c) (IPAddr.to_octet d).

(** The subnet 10.0.0.0/24 of the scenarios of the specification. *)
Definition net24 : IPAddr.IPNet := IPAddr.mkIPNet (ip 10 0 0 0) (ip 255 255 255 0).

(** The outcome of the next request and the world it leaves. *)
Definition next_fails (w : Sys.World) : bool :=
  match Sys.script w with
  | [] => false
  | t :: _ => Sys.fails t
  end.

Definition after_tick (w : Sys.World) : Sys.World :=
  match Sys.script w with
  | [] => w
  | t :: ts => Sys.land (Sys.others t) (Sys.set_script ts w)
  end.

(** No other node writes to the coordinator from now on. *)
Definition quiet (w : Sys.World) : Prop :=
  Forall (fun t => Sys.others t = []) (Sys.script w).

(** No other node writes and no request fails from now on. *)
Definition calm (w : Sys.World) : Prop :=
  Forall (fun t => Sys.others t = [] /\ Sys.fails t = false) (Sys.script w).

(** What a log that keeps the newest entry first has gained over [old],
    oldest entry first. *)
Definition since {A : Type} (old l : list A) : list A :=
  rev (firstn (List.length l - List.length old) l).

(** The events that [w'] has logged since [w], oldest first. *)
Definition news (w w' : Sys.World) : list Sys.Event := since (Sys.log w) (Sys.log w').

(** A call that took the mutex [m] for its session [s] ends with the
    request to unlock [m] (logged when it fails), the request to close [s]
    and, when the client was its own, the closing of the client. When one
    of the two requests is answered the mutex is free in the world [w'] the
    call leaves, and when the second is answered the session is gone. *)
Definition released_at_end (m : string) (s : nat) (evs : list Sys.Event) (w' : Sys.World) : Prop :=
  exists pre u c post,
    evs = (pre ++ Sys.EvUnlock m s u
               :: (if u then [] else [Sys.EvLog "unlock etcd mutex failed"])
               ++ Sys.EvSessionClose s c :: post)%list /\
    (post = [] \/ post = [Sys.EvClientClose]) /\
    (u = true \/ c = true -> Sys.mutexes w' !! m = None) /\
    (c = true -> s ∉ Sys.sessions w').

(** A world with nothing in it, for the node [node-a]. *)
Definition w0 : Sys.World :=
  Sys.mkWorld ∅ 0 ∅ ∅ 0 0 "multus" "node-a" "lease" ∅ ∅ ∅ [] [].

(** The world [w] after some node has written [key]. *)
Definition with_key (key owner : string) (w : Sys.World) : Sys.World :=
  Sys.set_kv (insert key owner) 1 w.

(** Node [node-b] holds the block 10.0.0.2-10.0.0.17 of network [net1]. *)
Definition w_one_lease : Sys.World :=
  with_key "multus/lease/net1/0167772162-4" "node-b" w0.

(** The clipped intersection in the words of the specification: it starts
    at the later of the two starts, ends at the earlier of the two ends, and
    is there when that leaves an address. *)
Definition intersection (ro : Allocator.Range) (cr : Allocator.SimpleRange)
  : option Allocator.Range :=
  let s := Z.max (IPAddr.IP4ToUint32 (Allocator.rRangeStart ro))
                 (IPAddr.IP4ToUint32 (Allocator.RangeStart cr)) in
  let e := Z.min (IPAddr.IP4ToUint32 (Allocator.rRangeEnd ro))
                 (IPAddr.IP4ToUint32 (Allocator.RangeEnd cr)) in
  if s <=? e
  then Some (Plugin.withBounds ro (IPAddr.Uint32ToIP4 s) (IPAddr.Uint32ToIP4 e))
  else None.

(** [formRangeSets] in the words of the specification. *)
Definition formRangeSets_spec (origin : list Allocator.RangeSet)
           (cacheRangeSet : list Allocator.SimpleRange) : list Allocator.RangeSet :=
  List.map (fun rso => flat_map (fun ro => omap (intersection ro) cacheRangeSet) rso) origin.

(** The cached range reaches beyond the configured one on both sides. *)
Definition covers (cr : Allocator.SimpleRange) (ro : Allocator.Range) : Prop :=
  IPAddr.IP4ToUint32 (Allocator.RangeStart cr) < IPAddr.IP4ToUint32 (Allocator.rRangeStart ro) /\
  IPAddr.IP4ToUint32 (Allocator.rRangeEnd ro) < IPAddr.IP4ToUint32 (Allocator.RangeEnd cr).

(** A store that is the list of the lines of its cache file. *)
Definition loadLines (s : list string) : list string * Sys.error := (s, None).

(** What one turn of the innermost loop of [formRangeSets] appends. *)
Definition kept (ro : Allocator.Range) (cr : Allocator.SimpleRange) : list Allocator.Range :=
  if Allocator.Contains ro (Allocator.RangeStart cr) || Allocator.Contains ro (Allocator.RangeEnd cr)
  then [Plugin.clipTo ro cr] else [].

(** The allocators released by the calls [cs], and those whose [Get]
    succeeded, in the order of the calls. *)
Definition released (cs : list Plugin.Call) : list Plugin.IPAllocator :=
  omap (fun c => match c with Plugin.CRelease a => Some a | _ => None end) cs.


(** The calls of a run from [h] to [h'], oldest first. *)
Definition calls_since {St : Type} (h h' : @Plugin.Host St) : list Plugin.Call :=
  since (Plugin.calls h) (Plugin.calls h').

(** A node for the scenarios of [allocateIP]: the store is the list of the
    lines of the cache file; the allocator of the first range set hands out
    10.0.0.2, that of every other one fails on the file of its hint; the
    lease manager has no endpoint. *)
Definition demoGet (a : Plugin.IPAllocator) (containerID ifName : string) (s : list string)
  : (IPAddr.IP4 + string) * list string :=
  if Nat.eqb (Plugin.rangeID a) 0 then (inl (ip 10 0 0 2), s)
  else (inr "open last_reserved_ip.1: permission denied", s).

Definition demoRelease (a : Plugin.IPAllocator) (containerID ifName : string) (s : list string)
  : Sys.error * list string := (None, s).

Definition demoApply (name : string) (subnet : IPAddr.IPNet) (unit : Z) (s : list string)
  : (IPAddr.IP4 * IPAddr.IP4 + string) * list string := (inr "no etcd endpoints", s).

Definition demoAppend (line : string) (s : list string) : list string := (s ++ [line])%list.

Definition demoFlash (lines : list string) (s : list string) : list string := lines.

Definition range0 : Allocator.Range :=
  Allocator.mkRange (ip 10 0 0 1) (ip 10 0 0 254) net24 None.

Definition range1 : Allocator.Range :=
  Allocator.mkRange (ip 10 0 1 1) (ip 10 0 1 254)
    (IPAddr.mkIPNet (ip 10 0 1 0) (ip 255 255 255 0)) None.

Definition twoRanges : Plugin.IPAMConfig := Plugin.mkIPAMConfig "net1" [[range0]; [range1]] 4.

Definition twoBlocks : @Plugin.Host (list string) :=
  Plugin.mkHost ["10.0.0.2-10.0.0.17"; "10.0.1.2-10.0.1.17"] [].

(** The requests on the data of the coordinator in [evs] are made while
    the mutex [m] is held: [held] tells whether it is at the start. *)
Fixpoint guarded (m : string) (held : bool) (evs : list Sys.Event) : Prop :=
  match evs with
  | [] => True
  | Sys.EvLock m' _ true :: rest =>
      if String.eqb m' m then guarded m true rest else guarded m held rest
  | Sys.EvUnlock m' _ _ :: rest =>
      if String.eqb m' m then guarded m false rest else guarded m held rest
  | Sys.EvSessionClose _ _ :: rest => guarded m false rest
  | Sys.EvGet _ _ :: rest => held = true /\ guarded m held rest
  | Sys.EvPut _ _ _ :: rest => held = true /\ guarded m held rest
  | Sys.EvDelete _ _ :: rest => held = true /\ guarded m held rest
  | _ :: rest => guarded m held rest
  end.

(** The listing of the leases is the second request of [IPAMCheck], after
    the making of the client: it fails when the script says so. *)
Definition listing_fails (w : Sys.World) : bool :=
  match Sys.script w with
  | t1 :: t2 :: _ => negb (Sys.fails t1) && Sys.fails t2
  | _ => false
  end.

(** A world whose coordinator accepts the client and fails the next request. *)
Definition w_listing_fails : Sys.World :=
  Sys.set_script [Sys.mkTick false []; Sys.mkTick true []] w0.





(** The blocks 10.0.0.2-10.0.0.17 and 10.0.0.18-10.0.0.33. *)
Definition block_a : Allocator.SimpleRange :=
  Allocator.mkSimpleRange (ip 10 0 0 2) (ip 10 0 0 17).

Definition block_b : Allocator.SimpleRange :=
  Allocator.mkSimpleRange (ip 10 0 0 18) (ip 10 0 0 33).

(** The node [node-a] with its client. *)
Definition node_a : Etcdv3.EtcdMultus := Etcdv3.mkEtcdMultus Etcdv3.TheClient "multus" "node-a".

(** The cache of [net1] holds both blocks and the coordinator the lease of
    the second one only; [w_orphan_refused] is the same world with a
    coordinator that fails the seventh request of the run, the write of the key. *)
Definition w_orphan : Sys.World :=
  with_key "multus/lease/net1/0167772178-4" "node-a"
    (Sys.upd_cache (insert "net1" [block_a; block_b]) w0).

Definition w_orphan_refused : Sys.World :=
  Sys.set_script
    [Sys.mkTick false []; Sys.mkTick false []; Sys.mkTick false []; Sys.mkTick false [];
     Sys.mkTick false []; Sys.mkTick false []; Sys.mkTick true []]
    w_orphan.

(** The listings of a directory of the coordinator and the writes of a
    key among the events: a turn of lease acquisition starts with a
    listing and ends with a write. *)
Definition is_listing (e : Sys.Event) : bool :=
  match e with
  | Sys.EvList _ _ => true
  | _ => false
  end.

Definition is_write (e : Sys.Event) : bool :=
  match e with
  | Sys.EvPut _ _ _ => true
  | _ => false
  end.

Definition listings (evs : list Sys.Event) : nat := List.length (List.filter is_listing evs).

Definition writes (evs : list Sys.Event) : nat := List.length (List.filter is_write evs).

(** Node [node-c] claims the key of the block that starts at 10.0.0.254
    while [node-a] waits for the answer to its fifth request, the read
    under the mutex. *)
Definition w_race : Sys.World :=
  Sys.set_script
    [Sys.mkTick false []; Sys.mkTick false []; Sys.mkTick false []; Sys.mkTick false [];
     Sys.mkTick false [("multus/lease/net1/0167772414-4", "node-c")]]
    w_one_lease.

(** The computation [m] adds at most [a] listings and [b] writes to the
    log, from every world. *)
Definition costs {A : Type} (m : Sys.M A) (a b : nat) : Prop :=
  forall w,
    (listings (Sys.log (snd (m w))) <= listings (Sys.log w) + a)%nat /\
    (writes (Sys.log (snd (m w))) <= writes (Sys.log w) + b)%nat.


(** The computation [m] leaves as many clients open as it found, from
    every world and however it ends. *)
Definition keeps_clients {A : Type} (m : Sys.M A) : Prop :=
  forall w, Sys.clients (snd (m w)) = Sys.clients w.



(** Every request is answered but the fourth one, and no other node
    writes. *)
Definition w_fourth_fails : Sys.World :=
  Sys.set_script
    [Sys.mkTick false []; Sys.mkTick false []; Sys.mkTick false []; Sys.mkTick true []]
    w_one_lease.

(** The address files of two containers, of which [c1] is alive. *)
Definition w_two_files : Sys.World :=
  Sys.mkWorld ∅ 0 ∅ ∅ 0 0 "multus" "node-a" "lease" ∅
    (<["/var/lib/cni/networks/net1/10.0.0.2" := "c1"]>
       (<["/var/lib/cni/networks/net1/10.0.0.3" := "c2"]> ∅))
    {["c1"]} [] [].

(** The cache of [net1] holds the block 10.0.0.2-10.0.0.17, and the one
    key of the coordinator belongs to [node-b]. *)
Definition w_cached_only : Sys.World :=
  with_key "multus/lease/net1/0167772178-4" "node-b"
    (Sys.upd_cache (insert "net1" [block_a]) w0).

(** What the older [formRangeSets] makes of a configured range set
    [ors]: a set that is not empty, of ranges of [ors] as they are
    configured or of the first of them with the bounds of a new lease. *)
Definition formed_from (ors rs : Allocator.RangeSet) : Prop :=
  rs <> [] /\
  forall r, In r rs ->
    In r ors \/
    exists o0 rest s e, ors = o0 :: rest /\ r = Plugin.withBounds o0 s e.

(** The requests for a new lease among the calls of a plugin. *)
Definition is_apply (c : Plugin.Call) : bool :=
  match c with
  | Plugin.CApply _ => true
  | _ => false
  end.

Definition applies (cs : list Plugin.Call) : nat := List.length (List.filter is_apply cs).

(** The computation [m] asks for [n] new leases at most, from every state
    of the node. *)
Definition asks {St A : Type} (m : Sys.ST (@Plugin.Host St) A) (n : nat) : Prop :=
  forall h, (applies (Plugin.calls (snd (m h))) <= applies (Plugin.calls h) + n)%nat.


(** A lease manager that hands out 10.0.0.18-10.0.0.33. *)
Definition readyApply (name : string) (subnet : IPAddr.IPNet) (unit : Z) (s : list string)
  : (IPAddr.IP4 * IPAddr.IP4 + string) * list string :=
  (inl (ip 10 0 0 18, ip 10 0 0 33), s).

(** The events that [TransDelKey] may leave for the key [key]: none on a
    cache, no write, and no deletion but that of [key]. *)
Definition deletes_only (key : string) (e : Sys.Event) : Prop :=
  match e with
  | Sys.EvDeleteCache _ _ | Sys.EvAppendCache _ _ _ | Sys.EvPut _ _ _ => False
  | Sys.EvDelete k _ => k = key
  | _ => True
  end.

(** What the first pass of the reconciler may do for the leases [leases]
    of a network whose cache was read as [caches]: delete a line that
    overlaps a lease without matching it, append a lease that no line
    matches, and delete the key of a lease that it could not append. *)
Definition first_pass_event (net keyDir : string) (caches leases : list Allocator.SimpleRange)
           (evs : list Sys.Event) (e : Sys.Event) : Prop :=
  match e with
  | Sys.EvDeleteCache n r =>
      n = net /\ In r caches /\
      exists lsr, In lsr leases /\ Allocator.Overlaps r lsr = true /\ Allocator.Match r lsr = false
  | Sys.EvAppendCache n r _ =>
      n = net /\ In r leases /\
      forall csr, In csr caches ->
                  Allocator.Overlaps csr r = true -> Allocator.Match csr r = false
  | Sys.EvDelete k _ =>
      exists lsr, In lsr leases /\ k = Etcdv3cli.ipamSimpleRangeToLease keyDir lsr /\
                  In (Sys.EvAppendCache net lsr false) evs
  | Sys.EvPut _ _ _ => False
  | _ => True
  end.

(** The cache lines [caches] and the leases [leases] of a network agree:
    a line that overlaps a lease matches it, every lease overlaps a line
    and every line matches a lease. *)
Definition agree (caches leases : list Allocator.SimpleRange) : Prop :=
  (forall csr lsr, In csr caches -> In lsr leases ->
                   Allocator.Overlaps csr lsr = true -> Allocator.Match csr lsr = true) /\
  (forall lsr, In lsr leases -> exists csr, In csr caches /\ Allocator.Overlaps csr lsr = true) /\
  (forall csr, In csr caches -> existsb (Allocator.Match csr) leases = true).

(** The cache of [net1] holds the block 10.0.0.18-10.0.0.33, the
    coordinator its lease, and the second request will fail. *)
Definition w_agreed : Sys.World :=
  Sys.set_script [Sys.mkTick false []; Sys.mkTick true []]
    (with_key "multus/lease/net1/0167772178-4" "node-a"
       (Sys.upd_cache (insert "net1" [block_b]) w0)).

(** * Properties *)

Example Split_ex : Strings.Split "-" "0000000002-4" = ["0000000002"; "4"].
Proof. reflexivity. Qed.

Example Join_ex : Filepath.Join ["multus"; "lease"; "net1"] = "multus/lease/net1".
Proof. reflexivity. Qed.

Example Clean_ex : Filepath.Clean "/a//b/./c/../d/" = "/a/b/d".
Proof. reflexivity. Qed.

Example Dir_ex : Filepath.Dir "multus/lease/net1/0000000002-4" = "multus/lease/net1".
Proof. reflexivity. Qed.

Example Base_ex : Filepath.Base "multus/lease/net1/0000000002-4" = "0000000002-4".
Proof. reflexivity. Qed.

Example d010_ex : Fmt.d010 167772162 = "0167772162".
Proof. reflexivity. Qed.

Example d10_ex : Fmt.d10 167772162 = " 167772162".
Proof. reflexivity. Qed.

(** ** Strings, numerals and paths *)

Section StringFacts.

Lemma Split_nonempty c s : Strings.Split c s <> [].
Proof.
  destruct s as [|x s]; simpl; [discriminate|].
  destruct (Ascii.eqb x c); [discriminate|].
  destruct (Strings.Split c s); discriminate.
Qed.

Lemma Split_no_sep c s : has_char c s = false -> Strings.Split c s = [s].
Proof.
  induction s as [|x s IH]; simpl; [reflexivity|].
  intros H. apply orb_false_iff in H as [Hx Hs].
  rewrite Hx, (IH Hs). reflexivity.
Qed.

Lemma Split_app c a b :
  Strings.Split c (a +:+ String c b) = (Strings.Split c a ++ Strings.Split c b)%list.
Proof.
  induction a as [|x a IH]; simpl.
  - rewrite Ascii.eqb_refl. reflexivity.
  - destruct (Ascii.eqb x c).
    + rewrite IH. reflexivity.
    + rewrite IH. pose proof (Split_nonempty c a) as Hne.
      destruct (Strings.Split c a); [contradiction|reflexivity].
Qed.

Lemma has_char_app c a b : has_char c (a +:+ b) = has_char c a || has_char c b.
Proof.
  induction a as [|x a IH]; simpl; [reflexivity|].
  rewrite IH. apply orb_assoc.
Qed.

Lemma digits_no_char c s : is_digit c = false -> all_digits s = true -> has_char c s = false.
Proof.
  intros Hc. induction s as [|x s IH]; simpl; [reflexivity|].
  intros H. apply andb_true_iff in H as [Hx Hs].
  rewrite (IH Hs), orb_false_r.
  destruct (Ascii.eqb_spec x c) as [->|]; [congruence|reflexivity].
Qed.

Lemma all_digits_NilEmpty u : all_digits (NilEmpty.string_of_uint u) = true.
Proof. induction u; simpl; auto. Qed.

Lemma all_digits_d z : all_digits (Fmt.d z) = true.
Proof.
  unfold Fmt.d, NilZero.string_of_uint.
  destruct (N.to_uint (Z.to_N z)); try reflexivity; apply all_digits_NilEmpty.
Qed.

Lemma all_digits_fill n s : all_digits s = true -> all_digits (Fmt.fill "0" n s) = true.
Proof. intros H. induction n; simpl; auto. Qed.

Lemma all_digits_d010 z : all_digits (Fmt.d010 z) = true.
Proof. apply all_digits_fill, all_digits_d. Qed.

Lemma d_nonempty z : Fmt.d z <> "".
Proof.
  unfold Fmt.d, NilZero.string_of_uint.
  destruct (N.to_uint (Z.to_N z)); simpl; discriminate.
Qed.

Lemma uint_of_string_d z :
  NilZero.uint_of_string (Fmt.d z) = Some (N.to_uint (Z.to_N z)).
Proof.
  unfold Fmt.d. apply NilZero.usu.
  destruct (Z.to_N z); simpl; [discriminate|].
  unfold Pos.to_uint. intros H.
  pose proof (DecimalPos.Unsigned.to_uint_nonnil p). contradiction.
Qed.

End StringFacts.

Section NumeralFacts.

Lemma uint_of_string_fill n s u :
  s <> "" ->
  NilZero.uint_of_string s = Some u ->
  exists u', NilZero.uint_of_string (Fmt.fill "0" n s) = Some u' /\ N.of_uint u' = N.of_uint u.
Proof.
  intros Hs Hu. induction n as [|n (u' & Hu' & Hv)]; simpl.
  - exists u. split; [assumption|reflexivity].
  - exists (Decimal.D0 u'). split; [|exact Hv].
    unfold NilZero.uint_of_string in *. simpl.
    destruct (Fmt.fill "0" n s); [discriminate|].
    rewrite Hu'. reflexivity.
Qed.

Lemma ParseUint32_d z : 0 <= z < Uint32.modulus -> Fmt.ParseUint32 (Fmt.d z) = (z, true).
Proof.
  intros Hz. unfold Fmt.ParseUint32. rewrite uint_of_string_d.
  rewrite DecimalN.Unsigned.of_to, Z2N.id by lia.
  destruct (Z.ltb_spec z Uint32.modulus); [reflexivity|lia].
Qed.

Lemma ParseUint32_d010 z : 0 <= z < Uint32.modulus -> Fmt.ParseUint32 (Fmt.d010 z) = (z, true).
Proof.
  intros Hz. unfold Fmt.ParseUint32, Fmt.d010, Fmt.pad.
  destruct (uint_of_string_fill (10 - String.length (Fmt.d z)) (Fmt.d z) _
              (d_nonempty z) (uint_of_string_d z)) as (u' & -> & Hv).
  rewrite Hv, DecimalN.Unsigned.of_to, Z2N.id by lia.
  destruct (Z.ltb_spec z Uint32.modulus); [reflexivity|lia].
Qed.

Lemma StrToUint32_d z : 0 <= z < Uint32.modulus -> IPAddr.StrToUint32 (Fmt.d z) = z.
Proof. intros Hz. unfold IPAddr.StrToUint32. rewrite ParseUint32_d; auto. Qed.

Lemma StrToUint32_d010 z : 0 <= z < Uint32.modulus -> IPAddr.StrToUint32 (Fmt.d010 z) = z.
Proof. intros Hz. unfold IPAddr.StrToUint32. rewrite ParseUint32_d010; auto. Qed.

End NumeralFacts.

Section AddressFacts.
Import IPAddr.

Lemma octet_range b : 0 <= octet b < 256.
Proof.
  unfold octet. pose proof (Byte.to_N_bounded b). lia.
Qed.

Lemma to_octet_octet b : to_octet (octet b) = b.
Proof.
  unfold to_octet. pose proof (octet_range b) as Hb.
  rewrite Z.mod_small by lia. unfold octet.
  rewrite N2Z.id, Byte.of_to_N. reflexivity.
Qed.

Lemma octet_to_octet z : 0 <= z < 256 -> octet (to_octet z) = z.
Proof.
  intros Hz. unfold to_octet. rewrite Z.mod_small by lia.
  destruct (Byte.of_N (Z.to_N z)) as [b|] eqn:E.
  - apply Byte.to_of_N in E. unfold octet. rewrite E. lia.
  - apply Byte.of_N_None_iff in E. lia.
Qed.

Lemma IP4ToUint32_range ip : 0 <= IP4ToUint32 ip < Uint32.modulus.
Proof.
  unfold IP4ToUint32, Uint32.modulus.
  pose proof (octet_range (o1 ip)). pose proof (octet_range (o2 ip)).
  pose proof (octet_range (o3 ip)). pose proof (octet_range (o4 ip)).
  change (2 ^ 24) with 16777216. change (2 ^ 16) with 65536.
  change (2 ^ 8) with 256. change (2 ^ 32) with 4294967296. lia.
Qed.

Lemma Uint32ToIP4_IP4ToUint32 ip : Uint32ToIP4 (IP4ToUint32 ip) = ip.
Proof.
  destruct ip as [a b c d]. unfold Uint32ToIP4, IP4ToUint32. simpl.
  pose proof (octet_range a) as Ha. pose proof (octet_range b) as Hb.
  pose proof (octet_range c) as Hc. pose proof (octet_range d) as Hd.
  change (2 ^ 24) with 16777216. change (2 ^ 16) with 65536. change (2 ^ 8) with 256.
  set (x := octet a * 16777216 + octet b * 65536 + octet c * 256 + octet d).
  assert (E1 : x / 16777216 = octet a) by (symmetry; apply (Z.div_unique_pos x 16777216 _ (octet b * 65536 + octet c * 256 + octet d)); subst x; lia).
  assert (E2 : x / 65536 = octet a * 256 + octet b) by (symmetry; apply (Z.div_unique_pos x 65536 _ (octet c * 256 + octet d)); subst x; lia).
  assert (E3 : x / 256 = octet a * 65536 + octet b * 256 + octet c) by (symmetry; apply (Z.div_unique_pos x 256 _ (octet d)); subst x; lia).
  assert (F : forall q r, 0 <= r < 256 -> to_octet (q * 256 + r) = to_octet r).
  { intros q r Hr. unfold to_octet. f_equal. f_equal. f_equal.
    rewrite Z.add_comm, Z.mod_add by lia. reflexivity. }
  rewrite E1, E2, E3.
  rewrite (F (octet a) (octet b)) by lia.
  replace (octet a * 65536 + octet b * 256 + octet c)
    with ((octet a * 256 + octet b) * 256 + octet c) by lia.
  rewrite (F _ (octet c)) by lia.
  replace x with ((octet a * 65536 + octet b * 256 + octet c) * 256 + octet d) by (subst x; lia).
  rewrite (F _ (octet d)) by lia.
  rewrite !to_octet_octet. reflexivity.
Qed.




End AddressFacts.

Section PathFacts.
Import Filepath.

Lemma append_nonempty_r a b : b <> "" -> a +:+ b <> "".
Proof. destruct a; [auto|discriminate]. Qed.

Lemma append_assoc a b c : (a +:+ b) +:+ c = a +:+ (b +:+ c).
Proof.
  induction a as [|x a IH]; [reflexivity|].
  change ((String x a +:+ b) +:+ c) with (String x ((a +:+ b) +:+ c)).
  change (String x a +:+ b +:+ c) with (String x (a +:+ b +:+ c)).
  rewrite IH. reflexivity.
Qed.

Lemma Join_snoc sep l x :
  Strings.Join sep (l ++ [x]) =
  match l with
  | [] => x
  | _ => Strings.Join sep l +:+ sep +:+ x
  end.
Proof.
  induction l as [|y l IH]; [reflexivity|].
  destruct l as [|z l]; [reflexivity|].
  change (Strings.Join sep ((y :: z :: l) ++ [x]))
    with (y +:+ sep +:+ Strings.Join sep ((z :: l) ++ [x])).
  rewrite IH.
  change (Strings.Join sep (y :: z :: l)) with (y +:+ sep +:+ Strings.Join sep (z :: l)).
  rewrite <- !append_assoc. reflexivity.
Qed.

Lemma clean_step_element root st name : element name -> clean_step root st name = name :: st.
Proof.
  intros (H0 & _ & H1 & H2). unfold clean_step.
  apply String.eqb_neq in H0, H1, H2. rewrite H0, H1, H2. reflexivity.
Qed.

Lemma Clean_slash_element p name :
  element name ->
  exists pre, Clean (p +:+ String sep name) = pre +:+ name /\
              (pre = "" \/ exists q, pre = q +:+ String sep "").
Proof.
  intros Hn. unfold Clean.
  set (root := rooted (p +:+ String sep name)).
  rewrite Split_app, fold_left_app.
  rewrite (Split_no_sep sep name) by apply Hn. simpl fold_left.
  rewrite clean_step_element by assumption.
  set (st := fold_left (clean_step root) (Strings.Split sep p) []).
  cbn [rev]. change (List.rev st) with (rev st). rewrite Join_snoc.
  assert (Hne : name <> "") by apply Hn.
  destruct (rev st) as [|y l] eqn:E.
  - destruct root.
    + exists (String sep ""). split; [reflexivity|]. right. exists "". reflexivity.
    + apply String.eqb_neq in Hne. rewrite Hne. exists "". split; [reflexivity|]. left. reflexivity.
  - set (J := Strings.Join "/" (y :: l)).
    destruct root.
    + exists (String sep J +:+ String sep ""). split.
      * simpl. rewrite <- append_assoc. reflexivity.
      * right. exists (String sep J). reflexivity.
    + assert (Hb : J +:+ "/" +:+ name <> "").
      { apply append_nonempty_r. discriminate. }
      apply String.eqb_neq in Hb. rewrite Hb.
      exists (J +:+ String sep ""). split.
      * rewrite <- append_assoc. reflexivity.
      * right. exists J. reflexivity.
Qed.

Lemma strip_no_sep b : has_char sep b = false -> strip_trailing_sep b = b.
Proof.
  induction b as [|c b IH]; simpl; [reflexivity|].
  intros H. apply orb_false_iff in H as [Hc Hb]. rewrite (IH Hb).
  destruct b; [rewrite Hc|]; reflexivity.
Qed.

Lemma strip_append a b :
  b <> "" -> strip_trailing_sep b = b -> strip_trailing_sep (a +:+ b) = a +:+ b.
Proof.
  intros Hb Hs. induction a as [|c a IH]; [assumption|].
  change (String c a +:+ b) with (String c (a +:+ b)).
  cbn [strip_trailing_sep]. rewrite IH. pose proof (append_nonempty_r a b Hb).
  destruct (a +:+ b); [contradiction|reflexivity].
Qed.

Lemma last_snoc {A} (l : list A) x d : List.last (l ++ [x]) d = x.
Proof.
  induction l as [|y l IH]; [reflexivity|].
  simpl. destruct (l ++ [x])%list eqn:E; [destruct l; discriminate|exact IH].
Qed.

Lemma Base_element pre name :
  element name ->
  (pre = "" \/ exists q, pre = q +:+ String sep "") ->
  Base (pre +:+ name) = name.
Proof.
  intros Hn Hpre. assert (Hne : name <> "") by apply Hn.
  assert (Hns : has_char sep name = false) by apply Hn.
  unfold Base.
  pose proof (append_nonempty_r pre name Hne) as Hp.
  apply String.eqb_neq in Hp. rewrite Hp.
  rewrite strip_append by (auto using strip_no_sep). rewrite Hp.
  destruct Hpre as [->|[q ->]].
  - simpl. rewrite Split_no_sep by assumption. reflexivity.
  - rewrite append_assoc.
    change (String sep "" +:+ name) with (String sep name).
    rewrite Split_app, (Split_no_sep sep name) by assumption. apply last_snoc.
Qed.

(** The last element of a joined path is read back by [Base], whatever
    the directory. *)
Lemma Base_Join dir name : element name -> Base (Join [dir; name]) = name.
Proof.
  intros Hn. assert (Hne : name <> "") by apply Hn.
  unfold Join. simpl List.filter.
  apply String.eqb_neq in Hne. rewrite Hne. simpl negb.
  destruct (String.eqb_spec dir "") as [->|Hd]; simpl negb; cbv iota.
  - assert (E : Clean (Strings.Join "/" [name]) = name).
    { unfold Clean. simpl Strings.Join. rewrite Split_no_sep by apply Hn.
      simpl fold_left. rewrite clean_step_element by assumption. simpl.
      assert (Hr : rooted name = false).
      { destruct name as [|c n]; [reflexivity|]. destruct Hn as (_ & Hs & _).
        simpl in Hs. apply orb_false_iff in Hs as [Hs _]. exact Hs. }
      rewrite Hr, Hne. reflexivity. }
    rewrite E. apply (Base_element "" name); auto.
  - change (Strings.Join "/" [dir; name]) with (dir +:+ String sep name).
    destruct (Clean_slash_element dir name Hn) as (pre & -> & Hpre).
    apply Base_element; assumption.
Qed.

End PathFacts.

(** ** The wire format of a lease key *)

Section LeaseKeys.
Import IPAddr Allocator Sys Etcdv3cli.

Lemma keyTemplate_split ips n :
  Strings.Split "-" (keyTemplate ips n) = [Fmt.d010 ips; Fmt.d n].
Proof.
  unfold keyTemplate.
  change ("-" +:+ Fmt.d n) with (String "-" (Fmt.d n)).
  rewrite Split_app.
  rewrite !Split_no_sep; [reflexivity| |];
    apply digits_no_char; auto using all_digits_d, all_digits_d010.
Qed.

Lemma keyTemplate_element ips n : element (keyTemplate ips n).
Proof.
  assert (Hd : has_char "-" (keyTemplate ips n) = true).
  { unfold keyTemplate. rewrite has_char_app. apply orb_true_iff. right. reflexivity. }
  repeat split.
  - intros E. rewrite E in Hd. discriminate.
  - unfold keyTemplate. rewrite !has_char_app.
    rewrite (digits_no_char "/" (Fmt.d010 ips)), (digits_no_char "/" (Fmt.d n));
      auto using all_digits_d, all_digits_d010.
  - intros E. rewrite E in Hd. discriminate.
  - intros E. rewrite E in Hd. discriminate.
Qed.

(** What the decoder reads from an encoded key: the start and the
    exponent go through the decimal fields unchanged. *)
Lemma decode_encode keyDir ips n :
  0 <= ips < Uint32.modulus -> 0 <= n < Uint32.modulus ->
  ipmaLeaseToUint32Range (Filepath.Join [keyDir; keyTemplate ips n]) =
  Ret (ips, Uint32.sub (Uint32AddSeg ips n) 1).
Proof.
  intros Hips Hn. unfold ipmaLeaseToUint32Range.
  rewrite Base_Join by apply keyTemplate_element.
  rewrite keyTemplate_split, StrToUint32_d010, StrToUint32_d by assumption.
  reflexivity.
Qed.

Lemma span_end s n :
  0 <= s -> 0 <= n -> s + 2 ^ n - 1 < Uint32.modulus ->
  Uint32.sub (Uint32AddSeg s n) 1 = s + 2 ^ n - 1.
Proof.
  intros Hs Hn Hlt. unfold Uint32.sub, Uint32AddSeg, Uint32.add, Uint32.pow2, Uint32.wrap.
  assert (Hp : 0 < 2 ^ n) by (apply Z.pow_pos_nonneg; lia).
  rewrite Zplus_mod_idemp_r, Zminus_mod_idemp_l.
  apply Z.mod_small. lia.
Qed.

End LeaseKeys.

(** C6, as amended. A range whose span is a power of two, [end = start +
    2^n - 1], is read back unchanged from the lease key that encodes it,
    under any key directory: the key holds the start and the exponent, and
    the decoder rebuilds the end from them. *)
Theorem lease_key_roundtrip_pow2 :
  forall (keyDir : string) (r : Allocator.SimpleRange) (n : Z),
    0 <= n <= 32 ->
    IPAddr.IP4ToUint32 (Allocator.RangeEnd r) =
      IPAddr.IP4ToUint32 (Allocator.RangeStart r) + 2 ^ n - 1 ->
    Etcdv3cli.ipamLeaseToSimleRange (Etcdv3cli.ipamSimpleRangeToLease keyDir r) = Sys.Ret r.
Proof.
  intros keyDir [s e] n Hn Hspan. simpl in Hspan.
  pose proof (IP4ToUint32_range s) as Hs. pose proof (IP4ToUint32_range e) as He.
  unfold Etcdv3cli.ipamLeaseToSimleRange, Etcdv3cli.ipamSimpleRangeToLease.
  cbn [Allocator.RangeStart].
  assert (Hh : Allocator.HostSize (Allocator.mkSimpleRange s e) = n).
  { unfold Allocator.HostSize. cbn [Allocator.RangeStart Allocator.RangeEnd].
    rewrite Hspan. replace (_ + 2 ^ n - 1 - _ + 1) with (2 ^ n) by lia.
    apply Z.log2_up_pow2. lia. }
  rewrite Hh, decode_encode; [|assumption|unfold Uint32.modulus; lia].
  rewrite span_end; [|lia|lia|lia].
  rewrite <- Hspan, !Uint32ToIP4_IP4ToUint32. reflexivity.
Qed.

Lemma lease_key_roundtrip_pow2_witness :
  0 <= 4 <= 32 /\
  IPAddr.IP4ToUint32 (ip 10 0 0 17) = IPAddr.IP4ToUint32 (ip 10 0 0 2) + 2 ^ 4 - 1 /\
  Etcdv3cli.ipamLeaseToSimleRange
    (Etcdv3cli.ipamSimpleRangeToLease "multus/lease/net1"
       (Allocator.mkSimpleRange (ip 10 0 0 2) (ip 10 0 0 17)))
  = Sys.Ret (Allocator.mkSimpleRange (ip 10 0 0 2) (ip 10 0 0 17)).
Proof.
  split; [lia|]. split; [reflexivity|].
  apply (lease_key_roundtrip_pow2 "multus/lease/net1" _ 4); [lia|reflexivity].
Defined.

(** C6 as the specification has it fails on a range of three addresses:
    the key of 10.0.0.2-10.0.0.4 carries the exponent 2 and reads back as
    10.0.0.2-10.0.0.5. *)
Lemma lease_key_roundtrip_fails :
  Etcdv3cli.ipamSimpleRangeToLease "multus/lease/net1"
    (Allocator.mkSimpleRange (ip 10 0 0 2) (ip 10 0 0 4)) = "multus/lease/net1/0167772162-2"
  /\ Etcdv3cli.ipamLeaseToSimleRange
       (Etcdv3cli.ipamSimpleRangeToLease "multus/lease/net1"
          (Allocator.mkSimpleRange (ip 10 0 0 2) (ip 10 0 0 4)))
     = Sys.Ret (Allocator.mkSimpleRange (ip 10 0 0 2) (ip 10 0 0 5))
  /\ Etcdv3cli.ipamLeaseToSimleRange
       (Etcdv3cli.ipamSimpleRangeToLease "multus/lease/net1"
          (Allocator.mkSimpleRange (ip 10 0 0 2) (ip 10 0 0 4)))
     <> Sys.Ret (Allocator.mkSimpleRange (ip 10 0 0 2) (ip 10 0 0 4)).
Proof.
  split; [vm_compute; reflexivity|].
  split; [vm_compute; reflexivity|].
  vm_compute. discriminate.
Qed.

(** ** Requests and the script *)

Section ScriptFacts.
Import Sys.

Lemma tick_eq w : tick w = (Ret (next_fails w), after_tick w).
Proof. unfold tick, next_fails, after_tick. destruct (script w); reflexivity. Qed.

Lemma land_frame ws w :
  log (land ws w) = log w /\ sessions (land ws w) = sessions w /\
  mutexes (land ws w) = mutexes w /\ fresh (land ws w) = fresh w /\
  clients (land ws w) = clients w /\ cache (land ws w) = cache w /\
  files (land ws w) = files w /\ containers (land ws w) = containers w /\
  script (land ws w) = script w /\ leaseDir (land ws w) = leaseDir w /\
  rootKeyDir (land ws w) = rootKeyDir w /\ nodeId (land ws w) = nodeId w.
Proof. destruct w. repeat split. Qed.

Lemma after_tick_frame w :
  log (after_tick w) = log w /\ sessions (after_tick w) = sessions w /\
  mutexes (after_tick w) = mutexes w /\ fresh (after_tick w) = fresh w /\
  clients (after_tick w) = clients w /\ cache (after_tick w) = cache w /\
  files (after_tick w) = files w /\ containers (after_tick w) = containers w /\
  script (after_tick w) = tl (script w) /\ leaseDir (after_tick w) = leaseDir w /\
  rootKeyDir (after_tick w) = rootKeyDir w /\ nodeId (after_tick w) = nodeId w.
Proof.
  unfold after_tick. destruct w as [k r ss ms fr cl rt id ld ca fi co sc lg].
  destruct sc as [|t ts]; repeat split.
Qed.

Lemma log_after_tick w : log (after_tick w) = log w.
Proof. apply after_tick_frame. Qed.
Lemma sessions_after_tick w : sessions (after_tick w) = sessions w.
Proof. apply after_tick_frame. Qed.
Lemma mutexes_after_tick w : mutexes (after_tick w) = mutexes w.
Proof. apply after_tick_frame. Qed.
Lemma fresh_after_tick w : fresh (after_tick w) = fresh w.
Proof. apply after_tick_frame. Qed.
Lemma clients_after_tick w : clients (after_tick w) = clients w.
Proof. apply after_tick_frame. Qed.
Lemma cache_after_tick w : cache (after_tick w) = cache w.
Proof. apply after_tick_frame. Qed.
Lemma files_after_tick w : files (after_tick w) = files w.
Proof. apply after_tick_frame. Qed.
Lemma containers_after_tick w : containers (after_tick w) = containers w.
Proof. apply after_tick_frame. Qed.
Lemma script_after_tick w : script (after_tick w) = tl (script w).
Proof. apply after_tick_frame. Qed.
Lemma leaseDir_after_tick w : leaseDir (after_tick w) = leaseDir w.
Proof. apply after_tick_frame. Qed.
Lemma rootKeyDir_after_tick w : rootKeyDir (after_tick w) = rootKeyDir w.
Proof. apply after_tick_frame. Qed.
Lemma nodeId_after_tick w : nodeId (after_tick w) = nodeId w.
Proof. apply after_tick_frame. Qed.

Lemma kv_after_tick_quiet w : quiet w -> kv (after_tick w) = kv w.
Proof.
  unfold quiet, after_tick. destruct w as [k r ss ms fr cl rt id ld ca fi co sc lg].
  destruct sc as [|t ts]; [reflexivity|]. cbn [script].
  intros H. inversion H as [|? ? Ht _]; subst. rewrite Ht. reflexivity.
Qed.

Lemma quiet_after_tick w : quiet w -> quiet (after_tick w).
Proof.
  unfold quiet. rewrite script_after_tick.
  destruct (script w); simpl; [auto|]. intros H. inversion H; assumption.
Qed.

Lemma calm_quiet w : calm w -> quiet w.
Proof. unfold calm, quiet. apply List.Forall_impl. intros t [H _]. exact H. Qed.

Lemma calm_after_tick w : calm w -> calm (after_tick w).
Proof.
  unfold calm. rewrite script_after_tick.
  destruct (script w); simpl; [auto|]. intros H. inversion H; assumption.
Qed.

Lemma calm_next_fails w : calm w -> next_fails w = false.
Proof.
  unfold calm, next_fails. destruct (script w); [reflexivity|].
  intros H. inversion H as [|? ? [_ Ht] _]; subst. exact Ht.
Qed.

Lemma filter_none {A} (f : A -> bool) l :
  (forall x, In x l -> f x = false) -> List.filter f l = [].
Proof.
  induction l as [|a l IH]; simpl; intros H; [reflexivity|].
  rewrite (H a) by auto. apply IH. auto.
Qed.

Lemma with_prefix_empty prefix (m : gmap string string) :
  (forall k, String.prefix prefix k = true -> m !! k = None) ->
  Etcdv3.with_prefix prefix m = [].
Proof.
  intros H. unfold Etcdv3.with_prefix. rewrite filter_none; [reflexivity|].
  intros [k v] Hin. simpl. apply list_elem_of_In, elem_of_map_to_list in Hin.
  destruct (String.prefix prefix k) eqn:E; [|reflexivity].
  rewrite (H k E) in Hin. discriminate.
Qed.

End ScriptFacts.

Create Rewrite HintDb frame.
#[local] Hint Rewrite log_after_tick sessions_after_tick mutexes_after_tick fresh_after_tick
  clients_after_tick cache_after_tick files_after_tick containers_after_tick
  script_after_tick leaseDir_after_tick rootKeyDir_after_tick nodeId_after_tick : frame.

(** ** Lease acquisition *)

Section Acquire.
Import IPAddr Allocator Sys Etcdv3 Etcdv3cli.

Lemma tick_nil w : script w = [] -> tick w = (Ret false, w).
Proof. intros H. unfold tick. rewrite H. reflexivity. Qed.

(** The loop of [ipamGetFreeIPRange] has no case for the end of the key
    list: without keys it finds nothing. *)
Lemma scanLeases_nil unit last : scanLeases unit last [] = Ret None.
Proof. reflexivity. Qed.

Lemma ipamGetFreeIPRange_empty cli keyDir subnet n w :
  script w = [] ->
  (forall k, String.prefix keyDir k = true -> kv w !! k = None) ->
  ipamGetFreeIPRange cli keyDir subnet n w =
  (Ret (None, Some "apply ip range failed"),
   upd_log (cons (EvLog "apply ip range failed")) (upd_log (cons (EvList keyDir true)) w)).
Proof.
  destruct w as [k r ss ms fr cl rt id ld ca fi co sc lg]. cbn [script kv].
  intros -> Hk. unfold ipamGetFreeIPRange.
  destruct (Net4To2Uint32 subnet) as [rips ripe].
  unfold GetPrefix, bind, tick.
  cbn -[with_prefix]. rewrite with_prefix_empty by assumption. reflexivity.
Qed.

End Acquire.

(** C1 does not hold of [IPAMApplyIPRange]: on a network without lease
    keys, with a coordinator that answers every request and no other node
    at work, the acquisition fails with "apply ip range failed" for every
    subnet and every exponent, and writes nothing. *)
Theorem acquire_on_empty_network_fails :
  forall (name : string) (n : Z) (subnet : IPAddr.IPNet) (w : Sys.World),
    Sys.script w = [] ->
    (forall k,
        String.prefix (Filepath.Join [Sys.rootKeyDir w; Sys.leaseDir w; name]) k = true ->
        Sys.kv w !! k = None) ->
    fst (Etcdv3cli.IPAMApplyIPRange name n subnet w)
      = Sys.Ret (None, Some "apply ip range failed")
    /\ Sys.kv (snd (Etcdv3cli.IPAMApplyIPRange name n subnet w)) = Sys.kv w.
Proof.
  intros name n subnet [k r ss ms fr cl rt id ld ca fi co sc lg].
  cbn [Sys.script Sys.kv Sys.rootKeyDir Sys.leaseDir]. intros -> Hk.
  unfold Etcdv3cli.IPAMApplyIPRange, Etcdv3.New, Sys.bind, Sys.defer, Sys.ret, Sys.emit,
    Sys.modify, Sys.gets, Sys.tick.
  cbn -[Etcdv3cli.ipamGetFreeIPRange Filepath.Join].
  rewrite ipamGetFreeIPRange_empty by (try reflexivity; assumption).
  cbn. split; reflexivity.
Qed.

Lemma acquire_on_empty_network_fails_witness :
  fst (Etcdv3cli.IPAMApplyIPRange "net1" 4 net24 w0)
    = Sys.Ret (None, Some "apply ip range failed")
  /\ Sys.kv (snd (Etcdv3cli.IPAMApplyIPRange "net1" 4 net24 w0)) = Sys.kv w0.
Proof.
  apply (acquire_on_empty_network_fails "net1" 4 net24 w0).
  - reflexivity.
  - intros k _. reflexivity.
Defined.

Section GapSearch.
Import IPAddr Allocator Sys Etcdv3 Etcdv3cli.

(** The gap search starts from the last usable address, [last := ripe]:
    the first key that is a lease and lies [unit] or more away from it,
    in 32-bit arithmetic, ends the search with the block that starts
    there. *)
Lemma scanLeases_first unit last k v rest ips ipe :
  ipmaLeaseToUint32Range k = Ret (ips, ipe) ->
  ips <> 0 ->
  unit <= Uint32.sub ips last ->
  scanLeases unit last ((k, v) :: rest) =
  Ret (Some (last, Uint32.sub (Uint32.add last unit) 1)).
Proof.
  intros Hk H0 Hu. simpl. rewrite Hk.
  destruct (Z.eqb_spec ips 0); [contradiction|].
  destruct (Z.ltb_spec (Uint32.sub ips last) unit); [lia|reflexivity].
Qed.

(** Every block that the loop returns has [unit] addresses, up to the
    wrap-around of the 32-bit sum. *)
Lemma scanLeases_size unit last kvs sips sipe :
  scanLeases unit last kvs = Ret (Some (sips, sipe)) ->
  sipe = Uint32.sub (Uint32.add sips unit) 1.
Proof.
  revert last. induction kvs as [|ev kvs IH]; intros last; simpl; [discriminate|].
  destruct (ipmaLeaseToUint32Range ev.1) as [[ips ipe]|]; [|discriminate].
  destruct (ips =? 0); [apply IH|].
  destruct (Uint32.sub ips last <? unit); [apply IH|].
  intros [= <- <-]. reflexivity.
Qed.

End GapSearch.

(** C2 does not hold of [ipamGetFreeIPRange]: in 10.0.0.0/24, whose usable
    range ends at 10.0.0.254, with the one lease 10.0.0.2-10.0.0.17 taken
    and the exponent 4, the block returned is 10.0.0.254-10.0.1.13. It has
    its sixteen addresses, and fifteen of them lie beyond the subnet. *)
Theorem gap_search_leaves_subnet :
  fst (Etcdv3cli.ipamGetFreeIPRange Etcdv3.TheClient "multus/lease/net1" net24 4 w_one_lease)
    = Sys.Ret (Some (Allocator.mkSimpleRange (ip 10 0 0 254) (ip 10 0 1 13)), None)
  /\ IPAddr.Net4To2Uint32 net24 = (IPAddr.IP4ToUint32 (ip 10 0 0 1), IPAddr.IP4ToUint32 (ip 10 0 0 254))
  /\ IPAddr.IP4ToUint32 (ip 10 0 1 13) = IPAddr.IP4ToUint32 (ip 10 0 0 254) + 2 ^ 4 - 1
  /\ IPAddr.IP4ToUint32 (ip 10 0 0 254) < IPAddr.IP4ToUint32 (ip 10 0 1 13).
Proof.
  repeat split; vm_compute; reflexivity.
Qed.

(** The older [GetFreeIPRange] returns the whole gap between two leases,
    whatever the unit: 22 addresses here for a unit of 16. *)
Example older_gap_search_returns_whole_gap :
  fst (HostEtcd.GetFreeIPRange Etcdv3.TheClient "multus/net1"
         (IPAddr.mkIPNet (ip 192 168 56 0) (ip 255 255 255 0)) 16
         (with_key "multus/net1/3232249858-3232249873" "node-b"
            (with_key "multus/net1/3232249896-3232249906" "node-b" w0)))
  = Sys.Ret (IPAddr.IP4ToUint32 (ip 192 168 56 18), IPAddr.IP4ToUint32 (ip 192 168 56 39), None).
Proof. vm_compute. reflexivity. Qed.

(** On a network without keys the older [GetFreeIPRange] does return a
    block, 10.0.0.2-10.0.0.17 for a unit of 16. *)
Example older_gap_search_on_empty_network :
  fst (HostEtcd.GetFreeIPRange Etcdv3.TheClient "multus/net1" net24 16 w0)
  = Sys.Ret (IPAddr.IP4ToUint32 (ip 10 0 0 2), IPAddr.IP4ToUint32 (ip 10 0 0 17), None).
Proof. vm_compute. reflexivity. Qed.

(** ** [formRangeSets] of the multus-ipam plugin *)

Section FormRangeSets.
Import IPAddr Allocator Sys Plugin.

Lemma overCache_flat_map ro cache rs :
  overCache ro cache rs = (rs ++ flat_map (kept ro) cache)%list.
Proof.
  revert rs. induction cache as [|cr cache IH]; intros rs; simpl.
  - rewrite app_nil_r. reflexivity.
  - unfold kept at 1.
    destruct (Contains ro (RangeStart cr) || Contains ro (RangeEnd cr));
      rewrite IH; [rewrite <- app_assoc|]; reflexivity.
Qed.

Lemma overRanges_flat_map rso cache rs :
  overRanges rso cache rs = (rs ++ flat_map (fun ro => flat_map (kept ro) cache) rso)%list.
Proof.
  revert rs. induction rso as [|ro rso IH]; intros rs; simpl.
  - rewrite app_nil_r. reflexivity.
  - rewrite IH, overCache_flat_map, <- app_assoc. reflexivity.
Qed.

Lemma overOrigin_map origin cache rss :
  overOrigin origin cache rss =
  (rss ++ List.map (fun rso => flat_map (fun ro => flat_map (kept ro) cache) rso) origin)%list.
Proof.
  revert rss. induction origin as [|rso origin IH]; intros rss; simpl.
  - rewrite app_nil_r. reflexivity.
  - rewrite IH, overRanges_flat_map, <- app_assoc. reflexivity.
Qed.

(** What the loop appends is the clipped intersection. *)
Lemma clipTo_bounds ro cr :
  IP4ToUint32 (rRangeStart (clipTo ro cr)) =
    Z.max (IP4ToUint32 (rRangeStart ro)) (IP4ToUint32 (RangeStart cr)) /\
  IP4ToUint32 (rRangeEnd (clipTo ro cr)) =
    Z.min (IP4ToUint32 (rRangeEnd ro)) (IP4ToUint32 (RangeEnd cr)) /\
  Subnet (clipTo ro cr) = Subnet ro /\ Gateway (clipTo ro cr) = Gateway ro.
Proof.
  unfold clipTo, Cmp.
  destruct (Z.compare_spec (IP4ToUint32 (rRangeStart ro)) (IP4ToUint32 (RangeStart cr)));
    destruct (Z.compare_spec (IP4ToUint32 (rRangeEnd ro)) (IP4ToUint32 (RangeEnd cr)));
    simpl; repeat split; lia.
Qed.

Lemma clipTo_intersection ro cr :
  intersection ro cr <> None -> intersection ro cr = Some (clipTo ro cr).
Proof.
  unfold intersection. destruct (clipTo_bounds ro cr) as (Hs & He & Hn & Hg).
  destruct (_ <=? _); [intros _|congruence].
  rewrite <- Hs, <- He, !Uint32ToIP4_IP4ToUint32.
  destruct (clipTo ro cr) as [s e n g]. simpl in *. subst. reflexivity.
Qed.

(** The test of the loop, an end of the cached range inside the configured
    one, is the test for a common address except when the cached range
    covers the configured one. *)
Lemma kept_intersection ro cr :
  IP4ToUint32 (rRangeStart ro) <= IP4ToUint32 (rRangeEnd ro) ->
  IP4ToUint32 (RangeStart cr) <= IP4ToUint32 (RangeEnd cr) ->
  ~ covers cr ro ->
  kept ro cr = match intersection ro cr with Some r => [r] | None => [] end.
Proof.
  intros Ho Hc Hn. unfold kept.
  destruct (Contains ro (RangeStart cr) || Contains ro (RangeEnd cr)) eqn:E.
  - rewrite clipTo_intersection; [reflexivity|].
    unfold intersection, Contains in *.
    destruct (Z.leb_spec
      (Z.max (IP4ToUint32 (rRangeStart ro)) (IP4ToUint32 (RangeStart cr)))
      (Z.min (IP4ToUint32 (rRangeEnd ro)) (IP4ToUint32 (RangeEnd cr)))); [discriminate|].
    apply orb_true_iff in E. rewrite !andb_true_iff, !Z.leb_le in E. lia.
  - unfold intersection, Contains, covers in *.
    destruct (Z.leb_spec
      (Z.max (IP4ToUint32 (rRangeStart ro)) (IP4ToUint32 (RangeStart cr)))
      (Z.min (IP4ToUint32 (rRangeEnd ro)) (IP4ToUint32 (RangeEnd cr)))); [|reflexivity].
    apply orb_false_iff in E. rewrite !andb_false_iff, !Z.leb_gt in E. lia.
Qed.

Lemma flat_map_kept ro cache :
  IP4ToUint32 (rRangeStart ro) <= IP4ToUint32 (rRangeEnd ro) ->
  (forall cr, In cr cache ->
     IP4ToUint32 (RangeStart cr) <= IP4ToUint32 (RangeEnd cr) /\ ~ covers cr ro) ->
  flat_map (kept ro) cache = omap (intersection ro) cache.
Proof.
  intros Ho. induction cache as [|cr cache IH]; intros H; [reflexivity|].
  simpl. destruct (H cr (or_introl eq_refl)) as [Hc Hn].
  rewrite kept_intersection by assumption.
  rewrite IH by (intros; apply H; right; assumption).
  destruct (intersection ro cr); reflexivity.
Qed.

End FormRangeSets.

Lemma rangeset_intersections rso cache :
  (forall ro, In ro rso ->
     IPAddr.IP4ToUint32 (Allocator.rRangeStart ro) <= IPAddr.IP4ToUint32 (Allocator.rRangeEnd ro)) ->
  (forall ro cr, In ro rso -> In cr cache ->
     IPAddr.IP4ToUint32 (Allocator.RangeStart cr) <= IPAddr.IP4ToUint32 (Allocator.RangeEnd cr)
     /\ ~ covers cr ro) ->
  flat_map (fun ro => flat_map (kept ro) cache) rso =
  flat_map (fun ro => omap (intersection ro) cache) rso.
Proof.
  induction rso as [|ro rso IH]; intros Ho Hc; [reflexivity|]. simpl.
  rewrite flat_map_kept; [|apply Ho; left; reflexivity|intros; apply Hc; [left; reflexivity|assumption]].
  f_equal. apply IH; intros; [apply Ho|apply Hc]; try right; assumption.
Qed.

(** X17. What [formRangeSets] agrees with the specification on: when the ranges
    are well-formed and no cached range covers a configured one on both
    sides, its loops compute the clipped intersections. *)
Theorem formRangeSets_intersections :
  forall (origin : list Allocator.RangeSet) (cacheRangeSet : list Allocator.SimpleRange),
    (forall rso ro, In rso origin -> In ro rso ->
       IPAddr.IP4ToUint32 (Allocator.rRangeStart ro) <= IPAddr.IP4ToUint32 (Allocator.rRangeEnd ro)) ->
    (forall rso ro cr, In rso origin -> In ro rso -> In cr cacheRangeSet ->
       IPAddr.IP4ToUint32 (Allocator.RangeStart cr) <= IPAddr.IP4ToUint32 (Allocator.RangeEnd cr)
       /\ ~ covers cr ro) ->
    Plugin.overOrigin origin cacheRangeSet [] = formRangeSets_spec origin cacheRangeSet.
Proof.
  intros origin cache Ho Hc. rewrite overOrigin_map. simpl. unfold formRangeSets_spec.
  apply map_ext_in. intros rso Hrso.
  apply rangeset_intersections; intros; [eapply Ho|eapply Hc]; eassumption.
Qed.

(** C7 does not hold of [formRangeSets]: the configured range
    10.0.0.5-10.0.0.10 and the cached block 10.0.0.2-10.0.0.17 have the
    six addresses of the configured range in common, and the range set
    returned for them is empty. *)
Theorem formRangeSets_misses_covering_block :
  fst (Plugin.formRangeSets loadLines
         [[Allocator.mkRange (ip 10 0 0 5) (ip 10 0 0 10) net24 (Some (ip 10 0 0 1))]]
         "net1" 4
         (Plugin.mkHost ["10.0.0.2-10.0.0.17"] []))
    = Sys.Ret (Some [[]], None)
  /\ Plugin.parseCache ["10.0.0.2-10.0.0.17"]
      = Sys.Ret [Allocator.mkSimpleRange (ip 10 0 0 2) (ip 10 0 0 17)]
  /\ formRangeSets_spec
        [[Allocator.mkRange (ip 10 0 0 5) (ip 10 0 0 10) net24 (Some (ip 10 0 0 1))]]
        [Allocator.mkSimpleRange (ip 10 0 0 2) (ip 10 0 0 17)]
      = [[Allocator.mkRange (ip 10 0 0 5) (ip 10 0 0 10) net24 (Some (ip 10 0 0 1))]].
Proof.
  repeat split; vm_compute; reflexivity.
Qed.

(** ** [allocateIP] *)

(** C8 does not hold of the [allocateIP] of the host-etcd plugin. Two
    range sets, each with a cached block; the first allocation succeeds,
    the second fails on a file of the store. The error is not the one for
    exhausted ranges, the loop goes on: the ADD succeeds with a nil address
    for the second range, and nothing is released. *)
Theorem older_allocateIP_swallows_failure :
  fst (Plugin.hostEtcd_allocateIP loadLines demoFlash demoGet demoRelease demoApply
         twoRanges "c1" "eth0" twoBlocks)
    = Sys.Ret (Some [Some (ip 10 0 0 2); None], None)
  /\ calls_since twoBlocks
        (snd (Plugin.hostEtcd_allocateIP loadLines demoFlash demoGet demoRelease demoApply
                twoRanges "c1" "eth0" twoBlocks))
      = [Plugin.CGet (Plugin.NewIPAllocator [range0] 0) true;
         Plugin.CGet (Plugin.NewIPAllocator [range1] 1) false].
Proof.
  split; vm_compute; reflexivity.
Qed.

(** On the same node the [allocateIP] of the multus-ipam plugin releases
    the allocator of the first range and fails. *)
Example allocateIP_rolls_back_example :
  fst (Plugin.allocateIP loadLines demoAppend demoGet demoRelease demoApply
         twoRanges "c1" "eth0" twoBlocks)
    = Sys.Ret (None, Some "failed to allocate for range")
  /\ released (calls_since twoBlocks
        (snd (Plugin.allocateIP loadLines demoAppend demoGet demoRelease demoApply
                twoRanges "c1" "eth0" twoBlocks)))
      = [Plugin.NewIPAllocator
           [Allocator.mkRange (ip 10 0 0 2) (ip 10 0 0 17) net24 None] 0].
Proof.
  split; vm_compute; reflexivity.
Qed.

(** *** The multus-ipam [allocateIP], for every allocator, store and lease
    manager *)

Section Rollback.
Import IPAddr Allocator Sys Plugin.
Context {St IPConfig : Type}.
Variable LoadRangeSetFromCache : St -> list string * error.
Variable AppendRangeToCache : string -> St -> St.
Variable allocGet : IPAllocator -> string -> string -> St -> (IPConfig + string) * St.
Variable allocRelease : IPAllocator -> string -> string -> St -> error * St.
Variable etcdApplyNewIPRange : string -> IPNet -> Z -> St -> (IP4 * IP4 + string) * St.

Abbreviation Host := (@Host St).







Lemma overOrigin_length origin cache : List.length (overOrigin origin cache []) = List.length origin.
Proof. rewrite overOrigin_map. simpl. apply length_map. Qed.

End Rollback.

(** ** The coordinator client: [TransPutKey] and [TransDelKey] *)

Lemma since_self {A} (l : list A) : since l l = [].
Proof. unfold since. rewrite Nat.sub_diag. reflexivity. Qed.

Lemma since_cons {A} (old l : list A) e :
  (List.length old <= List.length l)%nat -> since old (e :: l) = (since old l ++ [e])%list.
Proof.
  intros H. unfold since. cbn [List.length].
  replace (S (List.length l) - List.length old)%nat
    with (S (List.length l - List.length old)) by lia.
  reflexivity.
Qed.

Lemma mutex_free_filter (M : gmap string nat) m s o :
  M !! m = o -> (o = None \/ o = Some s) -> filter (fun p => p.2 ≠ s) M !! m = None.
Proof.
  intros H Ho. apply map_lookup_filter_None. rewrite H.
  destruct Ho as [-> | ->]; [left; reflexivity|right]. intros x [= <-]. simpl. auto.
Qed.

(** Symbolic execution. The world is taken apart into its fields, so that
    every update computes; each request then has three cases: the script
    is at its end, its next entry fails the request, or it answers it
    after the writes of the other nodes. *)
Ltac ev :=
  cbn -[Etcdv3.KeyToMutex news since released_at_end guarded String.append
        Etcdv3.with_prefix Filepath.Join Filepath.Base Filepath.Dir].

Ltac run sc :=
  ev;
  repeat (match goal with
          | |- context [match sc with [] => _ | _ :: _ => _ end] =>
              destruct sc as [|[[|] ?] sc]; ev
          | |- context [match ?m !! ?k with Some _ => _ | None => _ end] =>
              destruct (m !! k); ev
          end).

Ltac norm_log :=
  unfold news; ev;
  rewrite ?since_cons by (cbn [List.length]; lia);
  rewrite since_self;
  cbn [app].

Ltac not_locked :=
  let H := fresh in
  intros H; cbn [In] in H;
  repeat (let H1 := fresh in destruct H as [H1|H]; [discriminate H1|]);
  contradiction.

Ltac locked :=
  let H := fresh in
  intros H; cbn [In] in H;
  repeat (let H1 := fresh in
          destruct H as [H1|H];
          [first [discriminate H1 | injection H1; clear H1; intros; subst]|]);
  try contradiction.

Ltac find_end :=
  unfold released_at_end;
  (exists [] + eexists [_] + eexists [_; _] + eexists [_; _; _] + eexists [_; _; _; _]
   + eexists [_; _; _; _; _] + eexists [_; _; _; _; _; _] + eexists [_; _; _; _; _; _; _]);
  (exists true + exists false);
  eexists _, _; split; [cbn [app]; reflexivity|].

Ltac state_facts :=
  split; [first [left; reflexivity | right; reflexivity]|];
  cbn [Sys.mutexes Sys.sessions];
  split;
  [ let H := fresh in
    let H1 := fresh in
    intros H; destruct H as [H1|H1]; try discriminate H1;
    lazymatch goal with
    | |- delete _ _ !! _ = None => apply lookup_delete_eq
    | |- filter _ (delete _ _) !! _ = None =>
        eapply mutex_free_filter; [apply lookup_delete_eq|auto]
    | |- filter _ (<[_:=_]> _) !! _ = None =>
        eapply mutex_free_filter; [apply lookup_insert_eq|auto]
    end
  | let H := fresh in
    intros H; try discriminate H;
    let Hn := fresh in
    intros Hn; apply elem_of_difference in Hn; destruct Hn as [_ Hn];
    apply Hn, elem_of_singleton; reflexivity ].

Ltac leaf := norm_log; first [not_locked | locked; find_end; state_facts].

Section Release.
Import Sys Etcdv3.

Lemma TransPutKey_releases c key value noExist w s :
  In (EvLock (KeyToMutex key) s true) (news w (snd (TransPutKey c key value noExist w))) ->
  released_at_end (KeyToMutex key) s
    (news w (snd (TransPutKey c key value noExist w)))
    (snd (TransPutKey c key value noExist w)).
Proof.
  destruct w as [k r ss ms fr cl rt id ld ca fi co sc lg].
  unfold TransPutKey, with_client, New, ClientClose, NewSession, SessionClose, Lock,
    unlock_deferred, Unlock, Get, Put, Errorf, Debugf, bind, defer, ret, emit, modify, gets, tick.
  destruct c as [cli|], noExist; run sc; leaf.
Qed.

Lemma TransDelKey_releases c key w s :
  In (EvLock (KeyToMutex key) s true) (news w (snd (TransDelKey c key w))) ->
  released_at_end (KeyToMutex key) s
    (news w (snd (TransDelKey c key w)))
    (snd (TransDelKey c key w)).
Proof.
  destruct w as [k r ss ms fr cl rt id ld ca fi co sc lg].
  unfold TransDelKey, with_client, New, ClientClose, NewSession, SessionClose, Lock,
    unlock_deferred, Unlock, Delete, Errorf, Debugf, bind, defer, ret, emit, modify, gets, tick.
  destruct c as [cli|]; run sc; leaf.
Qed.

End Release.

(** C10. A call of [TransPutKey] or of [TransDelKey] that has taken the
    mutex of the key's directory ends, on every path and whatever fails on
    the way, with the request to unlock that mutex and the request to close
    its session, in this order, followed only by the closing of a client of
    its own. When one of the two requests is answered the mutex is free,
    and when the closing of the session is answered the session is gone. *)
Theorem mutex_and_session_released :
  forall (c : option Etcdv3.Client) (key value : string) (noExist : bool)
         (w : Sys.World) (s : nat),
    (In (Sys.EvLock (Etcdv3.KeyToMutex key) s true)
        (news w (snd (Etcdv3.TransPutKey c key value noExist w))) ->
     released_at_end (Etcdv3.KeyToMutex key) s
       (news w (snd (Etcdv3.TransPutKey c key value noExist w)))
       (snd (Etcdv3.TransPutKey c key value noExist w)))
    /\
    (In (Sys.EvLock (Etcdv3.KeyToMutex key) s true)
        (news w (snd (Etcdv3.TransDelKey c key w))) ->
     released_at_end (Etcdv3.KeyToMutex key) s
       (news w (snd (Etcdv3.TransDelKey c key w)))
       (snd (Etcdv3.TransDelKey c key w))).
Proof.
  intros c key value noExist w s. split.
  - apply TransPutKey_releases.
  - apply TransDelKey_releases.
Qed.

Lemma mutex_and_session_released_witness :
  In (Sys.EvLock (Etcdv3.KeyToMutex "multus/lease/net1/0167772162-4") 0 true)
     (news w0 (snd (Etcdv3.TransPutKey (Some Etcdv3.TheClient)
                      "multus/lease/net1/0167772162-4" "node-a" true w0)))
  /\ released_at_end (Etcdv3.KeyToMutex "multus/lease/net1/0167772162-4") 0
       (news w0 (snd (Etcdv3.TransPutKey (Some Etcdv3.TheClient)
                        "multus/lease/net1/0167772162-4" "node-a" true w0)))
       (snd (Etcdv3.TransPutKey (Some Etcdv3.TheClient)
               "multus/lease/net1/0167772162-4" "node-a" true w0)).
Proof.
  assert (H : In (Sys.EvLock (Etcdv3.KeyToMutex "multus/lease/net1/0167772162-4") 0 true)
     (news w0 (snd (Etcdv3.TransPutKey (Some Etcdv3.TheClient)
                      "multus/lease/net1/0167772162-4" "node-a" true w0)))).
  { vm_compute. right. left. reflexivity. }
  split; [exact H|].
  exact (proj1 (mutex_and_session_released (Some Etcdv3.TheClient)
                  "multus/lease/net1/0167772162-4" "node-a" true w0 0) H).
Defined.

Section PutIfAbsent.
Import Sys Etcdv3.

Ltac guarded_leaf :=
  norm_log; cbn [guarded]; rewrite ?String.eqb_refl; cbn [guarded]; repeat split.

(** The read and the write of [TransPutKey] are made between the taking
    and the release of the mutex, on every path. *)
Lemma TransPutKey_guarded c key value noExist w :
  guarded (KeyToMutex key) false (news w (snd (TransPutKey c key value noExist w))).
Proof.
  destruct w as [k r ss ms fr cl rt id ld ca fi co sc lg].
  unfold TransPutKey, with_client, New, ClientClose, NewSession, SessionClose, Lock,
    unlock_deferred, Unlock, Get, Put, Errorf, Debugf, bind, defer, ret, emit, modify, gets, tick.
  destruct c as [cli|], noExist; run sc; guarded_leaf.
Qed.

Lemma TransDelKey_guarded c key w :
  guarded (KeyToMutex key) false (news w (snd (TransDelKey c key w))).
Proof.
  destruct w as [k r ss ms fr cl rt id ld ca fi co sc lg].
  unfold TransDelKey, with_client, New, ClientClose, NewSession, SessionClose, Lock,
    unlock_deferred, Unlock, Delete, Errorf, Debugf, bind, defer, ret, emit, modify, gets, tick.
  destruct c as [cli|]; run sc; guarded_leaf.
Qed.

Lemma TransPutKey_present c key value w v0 :
  script w = [] -> kv w !! key = Some v0 ->
  fst (TransPutKey c key value true w) = Ret (Some ("key " +:+ key +:+ " exists")) /\
  kv (snd (TransPutKey c key value true w)) = kv w.
Proof.
  destruct w as [k r ss ms fr cl rt id ld ca fi co sc lg]. cbn [script kv]. intros -> Hk.
  unfold TransPutKey, with_client, New, ClientClose, NewSession, SessionClose, Lock,
    unlock_deferred, Unlock, Get, Put, Errorf, Debugf, bind, defer, ret, emit, modify, gets, tick.
  destruct c as [cli|]; ev; rewrite Hk; ev; split; reflexivity.
Qed.

Lemma TransPutKey_absent c key value w :
  script w = [] -> kv w !! key = None ->
  fst (TransPutKey c key value true w) = Ret None /\
  kv (snd (TransPutKey c key value true w)) = <[key:=value]> (kv w).
Proof.
  destruct w as [k r ss ms fr cl rt id ld ca fi co sc lg]. cbn [script kv]. intros -> Hk.
  unfold TransPutKey, with_client, New, ClientClose, NewSession, SessionClose, Lock,
    unlock_deferred, Unlock, Get, Put, Errorf, Debugf, bind, defer, ret, emit, modify, gets, tick.
  destruct c as [cli|]; ev; rewrite Hk; ev; split; reflexivity.
Qed.

End PutIfAbsent.

(** C3. [TransPutKey] with [noExist = true], for every key and value. On
    every path, whatever fails, the read of the key and the write are made
    while the mutex derived from the key's directory is held. When the
    coordinator answers every request and no other node writes: a key
    that holds a value makes the call fail with "key ... exists" and keeps
    its value, a key that holds none is written and the call succeeds. *)
Theorem put_if_absent :
  forall (c : option Etcdv3.Client) (key value : string) (w : Sys.World),
    guarded (Etcdv3.KeyToMutex key) false
      (news w (snd (Etcdv3.TransPutKey c key value true w)))
    /\
    (Sys.script w = [] ->
     match Sys.kv w !! key with
     | Some _ =>
         fst (Etcdv3.TransPutKey c key value true w)
           = Sys.Ret (Some ("key " +:+ key +:+ " exists")) /\
         Sys.kv (snd (Etcdv3.TransPutKey c key value true w)) = Sys.kv w
     | None =>
         fst (Etcdv3.TransPutKey c key value true w) = Sys.Ret None /\
         Sys.kv (snd (Etcdv3.TransPutKey c key value true w)) = <[key:=value]> (Sys.kv w)
     end).
Proof.
  intros c key value w. split.
  - apply TransPutKey_guarded.
  - intros Hs. destruct (Sys.kv w !! key) as [v0|] eqn:Hk.
    + eapply TransPutKey_present; eassumption.
    + apply TransPutKey_absent; assumption.
Qed.

Lemma put_if_absent_witness :
  Sys.script w_one_lease = [] /\
  fst (Etcdv3.TransPutKey (Some Etcdv3.TheClient) "multus/lease/net1/0167772162-4" "node-a"
         true w_one_lease)
    = Sys.Ret (Some "key multus/lease/net1/0167772162-4 exists") /\
  Sys.kv (snd (Etcdv3.TransPutKey (Some Etcdv3.TheClient) "multus/lease/net1/0167772162-4"
                 "node-a" true w_one_lease)) = Sys.kv w_one_lease.
Proof.
  split; [reflexivity|].
  exact (proj2 (put_if_absent (Some Etcdv3.TheClient) "multus/lease/net1/0167772162-4"
                  "node-a" w_one_lease) eq_refl).
Defined.

(** ** The reconciler *)

Ltac ev ::=
  cbn -[Etcdv3.KeyToMutex news since released_at_end guarded String.append
        Etcdv3.with_prefix Filepath.Join Filepath.Base Filepath.Dir
        size map_to_list Etcdv3cli.ipamCheckNet Etcdv3cli.collectLeases
        Etcdv3cli.ipamSimpleRangeToLease Etcdv3cli.scanLeases IPAddr.Net4To2Uint32
        Uint32.pow2 IPAddr.Uint32ToIP4].

Ltac run sc ::=
  ev;
  repeat (match goal with
          | |- context [match sc with [] => _ | _ :: _ => _ end] =>
              destruct sc as [|[[|] ?] sc]; ev
          | |- context [match ?m !! ?k with Some _ => _ | None => _ end] =>
              destruct (m !! k); ev
          | |- context [if bool_decide ?P then _ else _] =>
              destruct (bool_decide P); ev
          end).

Section Totality.
Import Allocator Sys Etcdv3 Etcdv3cli.












End Totality.

Section Reconciler.
Import Allocator Sys Etcdv3 Etcdv3cli Dockercli.




End Reconciler.



(** ** The second pass of the reconciler *)

Section SecondPass.
Import Allocator Sys Etcdv3 Etcdv3cli.

Lemma grown_nil {A} (lg : list A) : lg = ([] ++ lg)%list.
Proof. reflexivity. Qed.

Lemma grown_cons {A} (x : A) l p lg : l = (p ++ lg)%list -> x :: l = ((x :: p) ++ lg)%list.
Proof. intros ->. reflexivity. Qed.




End SecondPass.

Section SecondPassLoop.
Import Allocator Sys Etcdv3 Etcdv3cli.








Lemma linesOf_insert (c : gmap string (list SimpleRange)) net v n :
  Disk.linesOf (<[net := v]> c) n = if String.eqb net n then v else Disk.linesOf c n.
Proof.
  unfold Disk.linesOf. destruct (String.eqb_spec net n) as [->|Hne].
  - rewrite lookup_insert_eq. reflexivity.
  - rewrite lookup_insert_ne by assumption. reflexivity.
Qed.

Lemma since_app {A} (old l : list A) : since old (l ++ old) = rev l.
Proof.
  unfold since. rewrite length_app.
  replace (List.length l + List.length old - List.length old)%nat with (List.length l + 0)%nat by lia.
  rewrite firstn_app_2. cbn [firstn]. rewrite app_nil_r. reflexivity.
Qed.

Lemma DeleteCache_effect s r w :
  exists w', Disk.DeleteCache s r w = (Ret None, w') /\
    log w' = EvDeleteCache (Disk.network s) r :: log w /\
    forall n, Disk.lines n w' =
      if String.eqb (Disk.network s) n
      then List.filter (fun x => negb (Match r x)) (Disk.lines n w)
      else Disk.lines n w.
Proof.
  destruct w as [k r0 ss ms fr cl rt id ld ca fi co sc lg].
  unfold Disk.DeleteCache, bind, ret, emit, modify. ev.
  eexists. split; [reflexivity|]. cbn [log]. split; [reflexivity|].
  intros n. unfold Disk.lines. cbn [cache]. rewrite linesOf_insert.
  destruct (String.eqb_spec (Disk.network s) n) as [->|]; reflexivity.
Qed.

Variables (s : Disk.Store) (cli : Client) (keyDir id : string) (leases : list SimpleRange).



End SecondPassLoop.

Section SecondPassStep.
Import Allocator Sys Etcdv3 Etcdv3cli.

Lemma checkCache_matched s cli keyDir id leases csr w :
  existsb (Match csr) leases = true ->
  checkCache s cli keyDir id leases csr w = (Ret tt, w).
Proof. intros Hm. unfold checkCache. rewrite Hm. reflexivity. Qed.


End SecondPassStep.



(** The sixth scenario of the specification, through [ipamCheckNet]: the
    key of the block without a lease is written and the cache keeps the
    block; when the coordinator refuses the write the block leaves the
    cache and the other one stays. *)
Example ipamCheckNet_repairs_orphan :
  Sys.kv (snd (Etcdv3cli.ipamCheckNet node_a "net1" [block_b] w_orphan))
    !! "multus/lease/net1/0167772162-4" = Some "node-a"
  /\ Disk.lines "net1" (snd (Etcdv3cli.ipamCheckNet node_a "net1" [block_b] w_orphan))
     = [block_a; block_b].
Proof. split; vm_compute; reflexivity. Qed.

Example ipamCheckNet_drops_orphan :
  Sys.kv (snd (Etcdv3cli.ipamCheckNet node_a "net1" [block_b] w_orphan_refused))
    !! "multus/lease/net1/0167772162-4" = None
  /\ Disk.lines "net1" (snd (Etcdv3cli.ipamCheckNet node_a "net1" [block_b] w_orphan_refused))
     = [block_b].
Proof. split; vm_compute; reflexivity. Qed.

(** Through [IPAMCheck] the pass works on another directory: the package
    variable [leaseDir] is overwritten with the joined path before the
    listing, and [ipamCheckNet] joins the root to it once more. *)
Example IPAMCheck_moves_the_lease_directory :
  Sys.leaseDir (snd (Etcdv3cli.IPAMCheck w_orphan)) = "multus/lease"
  /\ In (Sys.EvPut "multus/multus/lease/net1/0167772162-4" "node-a" true)
        (news w_orphan (snd (Etcdv3cli.IPAMCheck w_orphan))).
Proof. split; vm_compute; [reflexivity|]. do 8 right. left. reflexivity. Qed.

(** ** Lease acquisition under a lost race *)

Section Attempts.
Import IPAddr Allocator Sys Etcdv3.

Lemma costs_ret {A} (x : A) : costs (ret x) 0 0.
Proof. intros w. cbn. lia. Qed.

Lemma costs_panic {A} msg : costs (@panic World A msg) 0 0.
Proof. intros w. cbn. lia. Qed.

Lemma costs_lift {A} (o : outcome A) : costs (lift o) 0 0.
Proof. intros w. cbn. lia. Qed.

Lemma costs_gets {A} (f : World -> A) : costs (gets f) 0 0.
Proof. intros w. cbn. lia. Qed.

Lemma costs_weaken {A} (m : M A) a b a' b' :
  costs m a b -> (a <= a')%nat -> (b <= b')%nat -> costs m a' b'.
Proof. intros H Ha Hb w. destruct (H w). lia. Qed.

Ltac free :=
  apply (costs_weaken _ 0 0); [first [apply costs_ret | apply costs_panic] | lia | lia].

Lemma costs_bind {A B} a b a' b' (m : M A) (f : A -> M B) :
  costs m a b -> (forall x, costs (f x) a' b') -> costs (bind m f) (a + a') (b + b').
Proof.
  intros Hm Hf w. unfold bind. specialize (Hm w).
  destruct (m w) as [[x|msg] w1]; cbn [snd] in *.
  - specialize (Hf x w1). lia.
  - lia.
Qed.

Lemma costs_defer {A} a b a' b' (d : M unit) (body : M A) :
  costs d a b -> costs body a' b' -> costs (defer d body) (a + a') (b + b').
Proof.
  intros Hd Hb w. unfold defer. specialize (Hb w).
  destruct (body w) as [o w1]; cbn [snd] in *. specialize (Hd w1). lia.
Qed.

Lemma log_upd_log f w : log (upd_log f w) = f (log w).
Proof. destruct w. reflexivity. Qed.

Lemma log_upd_clients f w : log (upd_clients f w) = log w.
Proof. destruct w. reflexivity. Qed.


Lemma log_tick w : log (snd (tick w)) = log w.
Proof. destruct w as [k r ss ms fr cl rt id ld ca fi co sc lg]. destruct sc; reflexivity. Qed.

Lemma costs_tick : costs tick 0 0.
Proof. intros w. rewrite log_tick. lia. Qed.

Lemma costs_emit e :
  costs (emit e) (if is_listing e then 1 else 0) (if is_write e then 1 else 0).
Proof.
  intros w. unfold emit. cbn [snd]. rewrite log_upd_log.
  unfold listings, writes. cbn [List.filter].
  destruct (is_listing e), (is_write e); cbn [List.length]; lia.
Qed.

Lemma costs_Errorf msg : costs (Errorf msg) 0 0.
Proof.
  unfold Errorf. apply (costs_bind 0 0 0 0); [apply (costs_emit (EvLog msg))|].
  intros _. apply costs_ret.
Qed.

Lemma costs_New : costs New 0 0.
Proof.
  unfold New. apply (costs_bind 0 0 0 0); [apply costs_tick|]. intros failed.
  apply (costs_bind 0 0 0 0); [apply (costs_emit (EvNew _))|]. intros _.
  destruct failed.
  - apply (costs_bind 0 0 0 0); [apply costs_Errorf|]. intros err. apply costs_ret.
  - apply (costs_bind 0 0 0 0).
    + intros w. unfold modify. cbn [snd]. rewrite log_upd_clients. lia.
    + intros _. apply (costs_bind 0 0 0 0); [apply costs_gets|]. intros root.
      apply (costs_bind 0 0 0 0); [apply costs_gets|]. intros id. apply costs_ret.
Qed.

Lemma costs_ClientClose c : costs (ClientClose c) 0 0.
Proof.
  unfold ClientClose. apply (costs_bind 0 0 0 0); [apply (costs_emit EvClientClose)|].
  intros _ w. unfold modify. cbn [snd]. rewrite log_upd_clients. lia.
Qed.

Lemma costs_GetPrefix c prefix : costs (GetPrefix c prefix) 1 0.
Proof.
  unfold GetPrefix. apply (costs_bind 0 0 1 0); [apply costs_tick|]. intros failed.
  apply (costs_bind 1 0 0 0); [apply (costs_emit (EvList _ _))|]. intros _.
  destruct failed; [apply costs_ret|].
  apply (costs_bind 0 0 0 0); [apply costs_gets|]. intros m. apply costs_ret.
Qed.


Lemma costs_TransPutKey c key value noExist : costs (TransPutKey c key value noExist) 0 1.
Proof.
  intros w. destruct w as [k r ss ms fr cl rt id ld ca fi co sc lg].
  unfold listings, writes.
  unfold TransPutKey, with_client, New, ClientClose, NewSession, SessionClose, Lock,
    unlock_deferred, Unlock, Get, Put, Errorf, Debugf, bind, defer, ret, emit, modify, gets, tick.
  destruct c as [cli|], noExist; run sc;
    cbn [log List.filter is_listing is_write List.length]; lia.
Qed.

(** [ipamGetFreeIPRange] lists the directory once. *)
Lemma costs_ipamGetFreeIPRange cli keyDir subnet n :
  costs (Etcdv3cli.ipamGetFreeIPRange cli keyDir subnet n) 1 0.
Proof.
  unfold Etcdv3cli.ipamGetFreeIPRange. destruct (Net4To2Uint32 subnet) as [rips ripe].
  apply (costs_bind 1 0 0 0); [apply costs_GetPrefix|]. intros [kvs [e|]].
  - apply (costs_bind 0 0 0 0); [apply costs_Errorf|]. intros err. apply costs_ret.
  - apply (costs_bind 0 0 0 0); [apply costs_lift|]. intros [[sips sipe]|].
    + apply costs_ret.
    + apply (costs_bind 0 0 0 0); [apply costs_Errorf|]. intros err. apply costs_ret.
Qed.

(** [IPAMApplyIPRange] has one turn: one listing, one write at most. *)
Lemma costs_IPAMApplyIPRange name applyUnit subnet :
  costs (Etcdv3cli.IPAMApplyIPRange name applyUnit subnet) 1 1.
Proof.
  unfold Etcdv3cli.IPAMApplyIPRange.
  apply (costs_bind 0 0 1 1); [apply costs_New|]. intros [[em|] [e|]]; try free.
  apply (costs_defer 0 0 1 1); [apply costs_ClientClose|].
  apply (costs_bind 0 0 1 1); [apply costs_gets|]. intros ld.
  apply (costs_bind 1 0 0 1); [apply costs_ipamGetFreeIPRange|]. intros [[rs|] [e|]]; try free.
  apply (costs_bind 0 1 0 0); [apply costs_TransPutKey|]. intros [e|].
  - apply (costs_bind 0 0 0 0); [apply costs_Errorf|]. intros err. apply costs_ret.
  - apply costs_ret.
Qed.





End Attempts.

(** C4 does not hold of [IPAMApplyIPRange]: it has no loop, and the
    constant [maxApplyTry] of its package is never read. From every world
    it lists the directory once and writes once at most. When [node-c]
    claims the chosen key first, the call of [node-a] ends in the error of
    the write after that one turn. *)
Theorem acquire_gives_up_after_one_turn :
  (forall (name : string) (applyUnit : Z) (subnet : IPAddr.IPNet),
     costs (Etcdv3cli.IPAMApplyIPRange name applyUnit subnet) 1 1)
  /\ fst (Etcdv3cli.IPAMApplyIPRange "net1" 4 net24 w_race)
     = Sys.Ret (None,
                Some "write key multus/lease/net1/0167772414-4 with value node-a failed")
  /\ news w_race (snd (Etcdv3cli.IPAMApplyIPRange "net1" 4 net24 w_race))
     = [Sys.EvNew true; Sys.EvList "multus/lease/net1" true;
        Sys.EvSession 0 true; Sys.EvLock "multus/mutex/lease/net1" 0 true;
        Sys.EvGet "multus/lease/net1/0167772414-4" true;
        Sys.EvLog "key multus/lease/net1/0167772414-4 exists";
        Sys.EvUnlock "multus/mutex/lease/net1" 0 true; Sys.EvSessionClose 0 true;
        Sys.EvLog "write key multus/lease/net1/0167772414-4 with value node-a failed";
        Sys.EvClientClose].
Proof.
  split; [|split].
  - apply costs_IPAMApplyIPRange.
  - vm_compute. reflexivity.
  - vm_compute. reflexivity.
Qed.


(** * Further properties of the code *)

(** ** The coordinator client under failures *)

Section AllOrNothing.
Import Sys Etcdv3.

Ltac run_quiet sc Hq :=
  ev;
  repeat (match goal with
          | |- context [match sc with [] => _ | _ :: _ => _ end] =>
              destruct sc as [|[f o] sc];
              [|let Ho := fresh "Ho" in
                pose proof (List.Forall_inv Hq) as Ho;
                apply List.Forall_inv_tail in Hq;
                cbn [others] in Ho; subst o; destruct f];
              ev
          | |- context [match ?m !! ?k with Some _ => _ | None => _ end] =>
              let Hk := fresh "Hk" in destruct (m !! k) eqn:Hk; ev
          end).

Ltac suffix_found :=
  first [exists 0%nat; reflexivity | exists 1%nat; reflexivity | exists 2%nat; reflexivity
        | exists 3%nat; reflexivity | exists 4%nat; reflexivity | exists 5%nat; reflexivity
        | exists 6%nat; reflexivity | exists 7%nat; reflexivity].

Lemma TransPutKey_quiet c key value noExist w :
  quiet w ->
  (exists n, script (snd (TransPutKey c key value noExist w)) = drop n (script w)) /\
  match fst (TransPutKey c key value noExist w) with
  | Ret None =>
      kv (snd (TransPutKey c key value noExist w)) = <[key := value]> (kv w) /\
      (noExist = true -> kv w !! key = None)
  | Ret (Some _) => kv (snd (TransPutKey c key value noExist w)) = kv w
  | Panic _ => False
  end.
Proof.
  destruct w as [k r ss ms fr cl rt id ld ca fi co sc lg].
  unfold quiet. cbn [script kv]. intros Hq.
  unfold TransPutKey, with_client, New, ClientClose, NewSession, SessionClose, Lock,
    unlock_deferred, Unlock, Get, Put, Errorf, Debugf, bind, defer, ret, emit, modify, gets, tick.
  destruct c as [cli|], noExist; run_quiet sc Hq;
    (split; [suffix_found|]); try reflexivity;
    (split; [reflexivity|]); intros; first [assumption | reflexivity | discriminate].
Qed.

Lemma TransDelKey_quiet c key w :
  quiet w ->
  (exists n, script (snd (TransDelKey c key w)) = drop n (script w)) /\
  match fst (TransDelKey c key w) with
  | Ret None => kv (snd (TransDelKey c key w)) = delete key (kv w)
  | Ret (Some _) => kv (snd (TransDelKey c key w)) = kv w
  | Panic _ => False
  end.
Proof.
  destruct w as [k r ss ms fr cl rt id ld ca fi co sc lg].
  unfold quiet. cbn [script kv]. intros Hq.
  unfold TransDelKey, with_client, New, ClientClose, NewSession, SessionClose, Lock,
    unlock_deferred, Unlock, Delete, Errorf, Debugf, bind, defer, ret, emit, modify, gets, tick.
  destruct c as [cli|]; run_quiet sc Hq; (split; [suffix_found|]); reflexivity.
Qed.

Lemma quiet_drop n w w' : script w' = drop n (script w) -> quiet w -> quiet w'.
Proof. unfold quiet. intros -> H. apply Forall_drop. exact H. Qed.

End AllOrNothing.

Section DelKeys.
Import Sys Etcdv3.

Ltac run_calm sc Hq :=
  ev;
  repeat (match goal with
          | |- context [match sc with [] => _ | _ :: _ => _ end] =>
              destruct sc as [|[f o] sc];
              [|let Ho := fresh "Ho" in
                pose proof (List.Forall_inv Hq) as Ho;
                apply List.Forall_inv_tail in Hq;
                cbn [others fails] in Ho; destruct Ho; subst o f];
              ev
          end).

Lemma TransDelKey_calm c key w :
  calm w ->
  fst (TransDelKey c key w) = Ret None /\
  kv (snd (TransDelKey c key w)) = delete key (kv w) /\
  exists n, script (snd (TransDelKey c key w)) = drop n (script w).
Proof.
  destruct w as [k r ss ms fr cl rt id ld ca fi co sc lg].
  unfold calm. cbn [script kv]. intros Hq.
  unfold TransDelKey, with_client, New, ClientClose, NewSession, SessionClose, Lock,
    unlock_deferred, Unlock, Delete, Errorf, Debugf, bind, defer, ret, emit, modify, gets, tick.
  destruct c as [cli|]; run_calm sc Hq; (split; [reflexivity|]); (split; [reflexivity|]);
    first [exists 0%nat; reflexivity | exists 1%nat; reflexivity | exists 2%nat; reflexivity
          | exists 3%nat; reflexivity | exists 4%nat; reflexivity | exists 5%nat; reflexivity
          | exists 6%nat; reflexivity].
Qed.

Lemma calm_drop n w w' : script w' = drop n (script w) -> calm w -> calm w'.
Proof. unfold calm. intros -> H. apply Forall_drop. exact H. Qed.

Lemma TransDelKeys_quiet c keys :
  forall w, quiet w ->
  exists w', TransDelKeys c keys w = (Ret tt, w') /\ quiet w' /\
    forall k, kv w' !! k = kv w !! k \/ (In k keys /\ kv w' !! k = None).
Proof.
  induction keys as [|key keys IH]; intros w Hq.
  - exists w. split; [reflexivity|]. split; [assumption|]. intros k. left. reflexivity.
  - unfold TransDelKeys. cbn [for_each]. unfold bind at 1 2.
    destruct (TransDelKey_quiet c key w Hq) as [[n Hn] Hr].
    destruct (TransDelKey c key w) as [[[e|]|msg] w1]; cbn [fst snd] in *; [| |contradiction].
    + unfold ret at 1. destruct (IH w1 (quiet_drop _ _ _ Hn Hq)) as (w2 & Hrun & Hq2 & Hk).
      unfold TransDelKeys in Hrun. rewrite Hrun. exists w2.
      split; [reflexivity|]. split; [assumption|]. intros k.
      destruct (Hk k) as [H|[Hin H]].
      * left. rewrite H, Hr. reflexivity.
      * right. split; [right; assumption|assumption].
    + unfold ret at 1. destruct (IH w1 (quiet_drop _ _ _ Hn Hq)) as (w2 & Hrun & Hq2 & Hk).
      unfold TransDelKeys in Hrun. rewrite Hrun. exists w2.
      split; [reflexivity|]. split; [assumption|]. intros k.
      destruct (Hk k) as [H|[Hin H]].
      * rewrite H, Hr. destruct (String.eqb_spec key k) as [->|Hne].
        -- right. split; [left; reflexivity|apply lookup_delete_eq].
        -- left. apply lookup_delete_ne. assumption.
      * right. split; [right; assumption|assumption].
Qed.

Lemma TransDelKeys_calm c keys :
  forall w, calm w ->
  forall k, In k keys -> kv (snd (TransDelKeys c keys w)) !! k = None.
Proof.
  induction keys as [|key keys IH]; intros w Hc k Hin; [contradiction|].
  unfold TransDelKeys. cbn [for_each]. unfold bind at 1 2.
  destruct (TransDelKey_calm c key w Hc) as (He & Hkv & n & Hn).
  destruct (TransDelKey c key w) as [o w1]; cbn [fst snd] in *. subst o.
  unfold ret at 1.
  assert (Hc1 : calm w1) by (eapply calm_drop; eassumption).
  fold (TransDelKeys c keys).
  destruct (in_dec string_dec k keys) as [Hin'|Hnin].
  - apply IH; assumption.
  - destruct Hin as [->|Hin]; [|contradiction].
    destruct (TransDelKeys_quiet c keys w1 (calm_quiet _ Hc1)) as (w2 & Hrun & _ & Hk).
    rewrite Hrun. cbn [snd]. destruct (Hk k) as [H|[_ H]]; [|assumption].
    rewrite H, Hkv. apply lookup_delete_eq.
Qed.

End DelKeys.

(** ** The clients that the calls open *)

Section Clients.
Import IPAddr Allocator Sys Etcdv3.

Lemma keeps_ret {A} (x : A) : keeps_clients (ret x).
Proof. intros w. reflexivity. Qed.

Lemma keeps_panic {A} msg : keeps_clients (@panic World A msg).
Proof. intros w. reflexivity. Qed.

Lemma keeps_lift {A} (o : outcome A) : keeps_clients (lift o).
Proof. intros w. reflexivity. Qed.

Lemma keeps_gets {A} (f : World -> A) : keeps_clients (gets f).
Proof. intros w. reflexivity. Qed.

Lemma keeps_tick : keeps_clients tick.
Proof. intros w. rewrite tick_eq. apply clients_after_tick. Qed.

Lemma keeps_emit e : keeps_clients (emit e).
Proof. intros [k r ss ms fr cl rt id ld ca fi co sc lg]. reflexivity. Qed.

Lemma keeps_modify f :
  (forall w, clients (f w) = clients w) -> keeps_clients (modify f).
Proof. intros H w. apply H. Qed.

Lemma keeps_bind {A B} (m : M A) (f : A -> M B) :
  keeps_clients m -> (forall x, keeps_clients (f x)) -> keeps_clients (bind m f).
Proof.
  intros Hm Hf w. unfold bind. specialize (Hm w).
  destruct (m w) as [[x|msg] w1]; cbn [snd] in *; [rewrite Hf|]; assumption.
Qed.

Lemma keeps_defer {A} (d : M unit) (body : M A) :
  keeps_clients d -> keeps_clients body -> keeps_clients (defer d body).
Proof.
  intros Hd Hb w. unfold defer. specialize (Hb w).
  destruct (body w) as [o w1]; cbn [snd] in *. rewrite Hd. assumption.
Qed.

Lemma keeps_for_each {A} (l : list A) (body : A -> M unit) :
  (forall x, keeps_clients (body x)) -> keeps_clients (for_each l body).
Proof.
  intros H. induction l as [|x l IH]; [apply keeps_ret|].
  cbn [for_each]. apply keeps_bind; [apply H|]. intros _. exact IH.
Qed.

Ltac keeps :=
  repeat first
    [ apply keeps_ret | apply keeps_panic | apply keeps_lift | apply keeps_gets
    | apply keeps_tick | apply keeps_emit
    | apply keeps_modify; intros [? ? ? ? ? ? ? ? ? ? ? ? ? ?]; reflexivity
    | apply keeps_bind; [|intros ?]
    | apply keeps_defer
    | match goal with
      | |- keeps_clients (if ?b then _ else _) => destruct b
      | |- keeps_clients (match ?x with Some _ => _ | None => _ end) => destruct x
      | |- keeps_clients (match ?x with (_, _) => _ end) => destruct x
      | |- keeps_clients (let (_, _) := ?x in _) => destruct x
      | |- keeps_clients (match ?x with Ret _ => _ | Panic _ => _ end) => destruct x
      end ].

(** A client that is opened and closed by [defer] is gone when the call
    ends, whatever the body does with the clients it finds. *)
Lemma keeps_opened {B} (f : option EtcdMultus * error -> M B) :
  (forall e, keeps_clients (f (None, e))) ->
  (forall em w, clients (snd (f (Some em, None) w)) = Nat.pred (clients w)) ->
  keeps_clients (bind New f).
Proof.
  intros Hn Hs [k r ss ms fr cl rt id ld ca fi co sc lg].
  unfold bind, New, Errorf, bind, ret, emit, modify, gets, tick.
  destruct sc as [|[[|] o] sc]; ev.
  - rewrite Hs. reflexivity.
  - rewrite Hn. reflexivity.
  - rewrite Hs. reflexivity.
Qed.

Lemma closes {A} (c : Client) (body : M A) :
  keeps_clients body ->
  forall w, clients (snd (defer (ClientClose c) body w)) = Nat.pred (clients w).
Proof.
  intros Hb w. unfold defer. specialize (Hb w).
  destruct (body w) as [o [k r ss ms fr cl rt id ld ca fi co sc lg]]; cbn [snd] in *.
  cbn in *. rewrite Hb. reflexivity.
Qed.

Lemma keeps_Errorf msg : keeps_clients (Errorf msg).
Proof. unfold Errorf. keeps. Qed.

Lemma keeps_TransPutKey c key value noExist : keeps_clients (TransPutKey c key value noExist).
Proof.
  intros [k r ss ms fr cl rt id ld ca fi co sc lg].
  unfold TransPutKey, with_client, New, ClientClose, NewSession, SessionClose, Lock,
    unlock_deferred, Unlock, Get, Put, Errorf, Debugf, bind, defer, ret, emit, modify, gets, tick.
  destruct c as [cli|], noExist; run sc; reflexivity.
Qed.

Lemma keeps_TransDelKey c key : keeps_clients (TransDelKey c key).
Proof.
  intros [k r ss ms fr cl rt id ld ca fi co sc lg].
  unfold TransDelKey, with_client, New, ClientClose, NewSession, SessionClose, Lock,
    unlock_deferred, Unlock, Delete, Errorf, Debugf, bind, defer, ret, emit, modify, gets, tick.
  destruct c as [cli|]; run sc; reflexivity.
Qed.

Lemma keeps_GetPrefix c p : keeps_clients (GetPrefix c p).
Proof. unfold GetPrefix. keeps. Qed.

Lemma keeps_Put c k v : keeps_clients (Put c k v).
Proof. unfold Put. keeps. Qed.

Lemma keeps_ipamGetFreeIPRange cli keyDir subnet n :
  keeps_clients (Etcdv3cli.ipamGetFreeIPRange cli keyDir subnet n).
Proof.
  unfold Etcdv3cli.ipamGetFreeIPRange. destruct (Net4To2Uint32 subnet).
  apply keeps_bind; [apply keeps_GetPrefix|]. intros [kvs [e|]].
  - apply keeps_bind; [apply keeps_Errorf|]. intros ?. apply keeps_ret.
  - apply keeps_bind; [apply keeps_lift|]. intros [[? ?]|]; [apply keeps_ret|].
    apply keeps_bind; [apply keeps_Errorf|]. intros ?. apply keeps_ret.
Qed.

Lemma keeps_IPAMApplyIPRange name applyUnit subnet :
  keeps_clients (Etcdv3cli.IPAMApplyIPRange name applyUnit subnet).
Proof.
  unfold Etcdv3cli.IPAMApplyIPRange. apply keeps_opened.
  - intros [e|]; [apply keeps_ret|apply keeps_panic].
  - intros em. apply closes.
    apply keeps_bind; [apply keeps_gets|]. intros ld.
    apply keeps_bind; [apply keeps_ipamGetFreeIPRange|]. intros [[rs|] [e|]];
      try apply keeps_ret; try apply keeps_panic.
    apply keeps_bind; [apply keeps_TransPutKey|]. intros [e|]; [|apply keeps_ret].
    apply keeps_bind; [apply keeps_Errorf|]. intros ?. apply keeps_ret.
Qed.

Lemma keeps_DiskNew n d : keeps_clients (Disk.New n d).
Proof. unfold Disk.New. keeps. Qed.

Lemma keeps_LoadCache s : keeps_clients (Disk.LoadCache s).
Proof. unfold Disk.LoadCache. keeps. Qed.

Lemma keeps_AppendCache s r : keeps_clients (Disk.AppendCache s r).
Proof.
  unfold Disk.AppendCache. apply keeps_bind; [apply keeps_tick|]. intros failed.
  apply keeps_bind; [apply keeps_gets|]. intros l. cbv zeta.
  apply keeps_bind; [apply keeps_emit|]. intros _.
  destruct (_ && _); [|apply keeps_ret].
  apply keeps_bind; [|intros; apply keeps_ret].
  apply keeps_modify. intros [? ? ? ? ? ? ? ? ? ? ? ? ? ?]. reflexivity.
Qed.

Lemma keeps_DeleteCache s r : keeps_clients (Disk.DeleteCache s r).
Proof. unfold Disk.DeleteCache. keeps. Qed.

Lemma keeps_matchCaches s lsr caches : keeps_clients (Etcdv3cli.matchCaches s lsr caches).
Proof.
  induction caches as [|csr rest IH]; cbn [Etcdv3cli.matchCaches]; [apply keeps_ret|].
  destruct (Overlaps csr lsr); [|exact IH].
  destruct (Match csr lsr); [apply keeps_ret|].
  apply keeps_bind; [apply keeps_DeleteCache|]. intros _. exact IH.
Qed.

Lemma keeps_ipamCheckNet em network leases :
  keeps_clients (Etcdv3cli.ipamCheckNet em network leases).
Proof.
  unfold Etcdv3cli.ipamCheckNet.
  apply keeps_bind; [apply keeps_DiskNew|]. intros [[s|] [e|]];
    try (apply keeps_bind; [apply keeps_Errorf|intros; apply keeps_ret]);
    try apply keeps_panic.
  apply keeps_bind; [apply keeps_LoadCache|]. intros [caches [e|]];
    try (apply keeps_bind; [apply keeps_Errorf|intros; apply keeps_ret]).
  apply keeps_bind; [apply keeps_gets|]. intros ld. cbv zeta.
  apply keeps_bind.
  { apply keeps_for_each. intros lsr. unfold Etcdv3cli.checkLease.
    apply keeps_bind; [apply keeps_matchCaches|]. intros [|]; [apply keeps_ret|].
    apply keeps_bind; [apply keeps_AppendCache|]. intros [e|]; [|apply keeps_ret].
    apply keeps_bind; [apply keeps_TransDelKey|]. intros; apply keeps_ret. }
  intros _.
  apply keeps_bind; [apply keeps_LoadCache|]. intros [caches2 [e|]];
    try (apply keeps_bind; [apply keeps_Errorf|intros; apply keeps_ret]).
  apply keeps_for_each. intros csr. unfold Etcdv3cli.checkCache.
  destruct (existsb _ _); [apply keeps_ret|].
  apply keeps_bind; [apply keeps_TransPutKey|]. intros [e|]; [|apply keeps_ret].
  apply keeps_bind; [apply keeps_DeleteCache|]. intros; apply keeps_ret.
Qed.

Lemma keeps_IPAMCheck : keeps_clients Etcdv3cli.IPAMCheck.
Proof.
  unfold Etcdv3cli.IPAMCheck. apply keeps_opened.
  - intros e. apply keeps_panic.
  - intros em. apply closes.
    apply keeps_bind.
    { apply keeps_modify. intros [? ? ? ? ? ? ? ? ? ? ? ? ? ?]. reflexivity. }
    intros _. apply keeps_bind; [apply keeps_gets|]. intros ld.
    apply keeps_bind.
    { unfold Etcdv3cli.IPAMGetAllLease.
      apply keeps_bind; [apply keeps_GetPrefix|]. intros [kvs [e|]].
      - apply keeps_bind; [apply keeps_Errorf|]. intros; apply keeps_ret.
      - apply keeps_bind; [apply keeps_lift|]. intros; apply keeps_ret. }
    intros [leases [e|]]; [apply keeps_ret|].
    destruct (Nat.eqb _ _); [apply keeps_ret|].
    apply keeps_bind; [|intros; apply keeps_ret].
    apply keeps_for_each. intros nl. apply keeps_ipamCheckNet.
Qed.

Lemma keeps_applyLoop tries cli keyDir nodeName subnet unit :
  keeps_clients (HostEtcd.applyLoop tries cli keyDir nodeName subnet unit).
Proof.
  induction tries as [|n IH]; cbn [HostEtcd.applyLoop]; [apply keeps_ret|].
  apply keeps_bind.
  { unfold HostEtcd.GetFreeIPRange.
    apply keeps_bind; [apply keeps_GetPrefix|]. intros [kvs [e|]]; [apply keeps_ret|].
    apply keeps_bind; [apply keeps_lift|]. intros [lastIP|[b e]]; [|apply keeps_ret].
    destruct (_ <? _); apply keeps_ret. }
  intros [[b e] [err|]]; [apply keeps_ret|].
  apply keeps_bind; [apply keeps_Put|]. intros [putRev [err|]]; [apply keeps_ret|].
  apply keeps_bind.
  { unfold HostEtcd.GetRevision. keeps. }
  intros [getRev [err|]]; [apply keeps_ret|].
  destruct (_ =? _); [apply keeps_ret|exact IH].
Qed.

Lemma keeps_ApplyNewIPRange network subnet unit :
  keeps_clients (HostEtcd.ApplyNewIPRange network subnet unit).
Proof.
  intros [k r ss ms fr cl rt id ld ca fi co sc lg].
  unfold HostEtcd.ApplyNewIPRange.
  unfold bind at 1 2, tick, emit. cbn [script].
  destruct sc as [|[[|] o] sc]; cbn [fst snd fails negb]; try reflexivity.
  - unfold bind at 1 2, modify, gets. rewrite closes by apply keeps_applyLoop. reflexivity.
  - unfold bind at 1 2, modify, gets. rewrite closes by apply keeps_applyLoop.
    destruct o; reflexivity.
Qed.

End Clients.

(** ** The leases of a node *)

Section OwnLeases.
Import IPAddr Allocator Sys Etcdv3 Etcdv3cli.

Lemma Split_has_char c s :
  has_char c s = true -> exists a b rest, Strings.Split c s = a :: b :: rest.
Proof.
  induction s as [|x s IH]; [discriminate|].
  cbn [has_char Strings.Split]. destruct (Ascii.eqb x c) eqn:E.
  - intros _. destruct (Strings.Split c s) as [|h t] eqn:Hs.
    + exfalso. exact (Split_nonempty c s Hs).
    + exists "", h, t. reflexivity.
  - cbn [orb]. intros H. destruct (IH H) as (a & b & rest & ->).
    exists (String x a), b, rest. reflexivity.
Qed.

(** A key is read as a lease exactly when its last element has a ["-"]. *)
Lemma ipmaLeaseToUint32Range_panics key :
  (exists msg, ipmaLeaseToUint32Range key = Panic msg) <->
  has_char "-" (Filepath.Base key) = false.
Proof.
  unfold ipmaLeaseToUint32Range.
  destruct (has_char "-" (Filepath.Base key)) eqn:H.
  - destruct (Split_has_char _ _ H) as (a & b & rest & ->).
    split; [intros [msg Hm]; discriminate|discriminate].
  - rewrite Split_no_sep by assumption. split; [reflexivity|]. intros _. eexists. reflexivity.
Qed.





End OwnLeases.

(** ** What the gap search returns *)

Section GapShape.
Import IPAddr Allocator Sys Etcdv3 Etcdv3cli.

Lemma scanLeases_shape unit kvs :
  forall last s e,
    scanLeases unit last kvs = Ret (Some (s, e)) ->
    e = Uint32.sub (Uint32.add s unit) 1 /\
    (s = last \/
     exists k v ips ipe,
       In (k, v) kvs /\ ipmaLeaseToUint32Range k = Ret (ips, ipe) /\ s = Uint32.add ipe 1).
Proof.
  induction kvs as [|[k v] rest IH]; intros last s e; [discriminate|].
  cbn [scanLeases fst].
  destruct (ipmaLeaseToUint32Range k) as [[ips ipe]|msg] eqn:Hk; [|discriminate].
  destruct (ips =? 0).
  - intros H. destruct (IH _ _ _ H) as [He [Hs|(k' & v' & i & j & Hin & Hr & Hs)]].
    + auto.
    + split; [assumption|]. right. exists k', v', i, j. split; [right; assumption|auto].
  - destruct (Uint32.sub ips last <? unit).
    + intros H. destruct (IH _ _ _ H) as [He [Hs|(k' & v' & i & j & Hin & Hr & Hs)]].
      * split; [assumption|]. right. exists k, v, ips, ipe. split; [left; reflexivity|auto].
      * split; [assumption|]. right. exists k', v', i, j. split; [right; assumption|auto].
    + intros [= <- <-]. split; [reflexivity|left; reflexivity].
Qed.

Lemma scanLeases_no_panic unit kvs :
  (forall k v, In (k, v) kvs -> has_char "-" (Filepath.Base k) = true) ->
  forall last, exists r, scanLeases unit last kvs = Ret r.
Proof.
  induction kvs as [|[k v] rest IH]; intros Hall last; [eexists; reflexivity|].
  cbn [scanLeases fst].
  destruct (ipmaLeaseToUint32Range k) as [[ips ipe]|msg] eqn:Hk.
  - assert (Hrest : forall k0 v0, In (k0, v0) rest -> has_char "-" (Filepath.Base k0) = true)
      by (intros k0 v0 Hin; apply (Hall k0 v0); right; assumption).
    destruct (ips =? 0); [apply IH; assumption|].
    destruct (_ <? _); [apply IH; assumption|]. eexists. reflexivity.
  - exfalso. assert (Hp : has_char "-" (Filepath.Base k) = false)
      by (apply ipmaLeaseToUint32Range_panics; eexists; exact Hk).
    rewrite (Hall k v) in Hp by (left; reflexivity). discriminate.
Qed.

Lemma ipamGetFreeIPRange_unfold cli keyDir subnet n w :
  fst (ipamGetFreeIPRange cli keyDir subnet n w) =
  if next_fails w then Ret (None, Some ("Get " +:+ keyDir +:+ " failed"))
  else
    match scanLeases (Uint32.pow2 n) (snd (Net4To2Uint32 subnet))
            (with_prefix keyDir (kv (after_tick w))) with
    | Ret (Some (sips, sipe)) =>
        Ret (Some (mkSimpleRange (Uint32ToIP4 sips) (Uint32ToIP4 sipe)), None)
    | Ret None => Ret (None, Some "apply ip range failed")
    | Panic msg => Panic msg
    end.
Proof.
  unfold ipamGetFreeIPRange. destruct (Net4To2Uint32 subnet) as [rips ripe]. cbn [snd].
  unfold GetPrefix, Errorf. unfold bind at 1 2. rewrite tick_eq.
  unfold emit at 1. unfold bind at 1.
  destruct (next_fails w).
  - reflexivity.
  - unfold gets, ret, bind, lift, emit. cbn [fst snd].
    assert (Hkv : forall f, kv (upd_log f (after_tick w)) = kv (after_tick w)).
    { intros f. destruct (after_tick w). reflexivity. }
    rewrite Hkv.
    destruct (scanLeases _ _ _) as [[[s e]|]|msg]; reflexivity.
Qed.

End GapShape.

(** ** The sweep over the addresses of containers *)

Section Sweep.
Import Sys Etcdv3 Dockercli.

Ltac sweep sc :=
  ev;
  repeat (match goal with
          | |- context [match sc with [] => _ | _ :: _ => _ end] =>
              destruct sc as [|[[|] ?] sc]; ev
          | |- context [bool_decide ?P] =>
              let H := fresh "Hd" in destruct (bool_decide_reflect P) as [H|H]; ev
          end).

(** One turn of the loop keeps the file of a container that is alive,
    and removes no file but the one it looks at. *)
Lemma checkLocalIP_keeps fid w f id :
  files w !! f = Some id -> id ∈ containers w ->
  files (snd (checkLocalIP fid w)) !! f = Some id /\
  containers (snd (checkLocalIP fid w)) = containers w.
Proof.
  destruct w as [k r ss ms fr cl rt nid ld ca fi co sc lg]. destruct fid as [f' id'].
  cbn [files containers]. intros Hf Hlive.
  unfold checkLocalIP, Disk.New, Debugf, bind, ret, panic, emit, modify, gets, tick.
  sweep sc; (split; [|reflexivity]); try assumption.
  all: destruct (String.eqb_spec f' f) as [->|Hne];
    [ exfalso; rewrite Hf in *;
      match goal with H : Some _ = Some _ |- _ => injection H as -> end; contradiction
    | rewrite lookup_delete_ne by assumption; assumption ].
Qed.

Lemma checkLocalIP_shrinks fid w f :
  files w !! f = None -> files (snd (checkLocalIP fid w)) !! f = None.
Proof.
  destruct w as [k r ss ms fr cl rt nid ld ca fi co sc lg]. destruct fid as [f' id'].
  cbn [files]. intros Hf.
  unfold checkLocalIP, Disk.New, Debugf, bind, ret, panic, emit, modify, gets, tick.
  sweep sc; try assumption.
  all: apply lookup_delete_None; right; assumption.
Qed.

Lemma sweep_keeps l :
  forall w f id,
    files w !! f = Some id -> id ∈ containers w ->
    files (snd (for_each l checkLocalIP w)) !! f = Some id.
Proof.
  induction l as [|fid l IH]; intros w f id Hf Hlive; [exact Hf|].
  cbn [for_each]. unfold bind.
  destruct (checkLocalIP_keeps fid w f id Hf Hlive) as [Hf1 Hc1].
  destruct (checkLocalIP fid w) as [[[]|msg] w1]; cbn [snd] in *; [|exact Hf1].
  apply IH; [exact Hf1|]. rewrite Hc1. exact Hlive.
Qed.

End Sweep.

Section SweepRemoves.
Import Sys Etcdv3 Dockercli.

Ltac sweep_calm sc Hq :=
  ev;
  repeat (match goal with
          | |- context [match sc with [] => _ | _ :: _ => _ end] =>
              destruct sc as [|[f0 o] sc];
              [|let Ho := fresh "Ho" in
                pose proof (List.Forall_inv Hq) as Ho;
                apply List.Forall_inv_tail in Hq;
                cbn [others fails] in Ho; destruct Ho; subst o f0];
              ev
          | |- context [bool_decide ?P] =>
              let H := fresh "Hd" in destruct (bool_decide_reflect P) as [H|H]; ev
          end).

Ltac drop_found :=
  first [exists 0%nat; reflexivity | exists 1%nat; reflexivity | exists 2%nat; reflexivity
        | exists 3%nat; reflexivity].

Lemma checkLocalIP_calm fid w :
  calm w ->
  (exists n, script (snd (checkLocalIP fid w)) = drop n (script w)) /\
  containers (snd (checkLocalIP fid w)) = containers w /\
  fst (checkLocalIP fid w) = Ret tt /\
  (fid.2 ∉ containers w -> files (snd (checkLocalIP fid w)) !! fid.1 <> Some fid.2).
Proof.
  destruct w as [k r ss ms fr cl rt nid ld ca fi co sc lg]. destruct fid as [f' id'].
  unfold calm. cbn [script files containers fst snd]. intros Hq.
  unfold checkLocalIP, Disk.New, Debugf, bind, ret, panic, emit, modify, gets, tick.
  sweep_calm sc Hq; (split; [drop_found|]); (split; [reflexivity|]); (split; [reflexivity|]);
    intros Hdead; try contradiction; try assumption.
  all: rewrite lookup_delete_eq; discriminate.
Qed.

Lemma sweep_shrinks l :
  forall w f, files w !! f = None -> files (snd (for_each l checkLocalIP w)) !! f = None.
Proof.
  induction l as [|fid l IH]; intros w f Hf; [exact Hf|].
  cbn [for_each]. unfold bind.
  pose proof (checkLocalIP_shrinks fid w f Hf) as H1.
  destruct (checkLocalIP fid w) as [[[]|msg] w1]; cbn [snd] in *; [|exact H1].
  apply IH. exact H1.
Qed.

Lemma checkLocalIP_only_deletes fid w f :
  files (snd (checkLocalIP fid w)) !! f = files w !! f \/
  files (snd (checkLocalIP fid w)) !! f = None.
Proof.
  destruct w as [k r ss ms fr cl rt nid ld ca fi co sc lg]. destruct fid as [f' id'].
  cbn [files].
  unfold checkLocalIP, Disk.New, Debugf, bind, ret, panic, emit, modify, gets, tick.
  ev.
  repeat (match goal with
          | |- context [match sc with [] => _ | _ :: _ => _ end] =>
              destruct sc as [|[[|] ?] sc]; ev
          | |- context [bool_decide ?P] =>
              let H := fresh "Hd" in destruct (bool_decide_reflect P) as [H|H]; ev
          end); try (left; reflexivity).
  all: destruct (String.eqb_spec f' f) as [->|Hne];
    [right; apply lookup_delete_eq | left; apply lookup_delete_ne; assumption].
Qed.

Lemma sweep_removes l :
  forall w f id,
    calm w -> In (f, id) l -> id ∉ containers w ->
    files w !! f = Some id \/ files w !! f = None ->
    files (snd (for_each l checkLocalIP w)) !! f = None.
Proof.
  induction l as [|fid l IH]; intros w f id Hc Hin Hdead Hf; [contradiction|].
  cbn [for_each]. unfold bind.
  destruct (checkLocalIP_calm fid w Hc) as ([n Hn] & Hco & Hr & Hrm).
  pose proof (checkLocalIP_only_deletes fid w f) as Hod.
  destruct (checkLocalIP fid w) as [o w1]; cbn [fst snd] in *. subst o.
  assert (Hc1 : calm w1) by (eapply calm_drop; eassumption).
  destruct Hin as [->|Hin].
  - cbn [fst snd] in Hrm. specialize (Hrm Hdead).
    apply sweep_shrinks.
    destruct Hod as [Hsame|Hnone]; [|exact Hnone].
    destruct Hf as [Hf|Hf]; rewrite Hf in Hsame; [contradiction|exact Hsame].
  - apply (IH w1 f id Hc1 Hin).
    + rewrite Hco. exact Hdead.
    + destruct Hod as [-> | ->]; [exact Hf|right; reflexivity].
Qed.

End SweepRemoves.

(** X1. [TransPutKey] writes all or nothing. When no other node writes,
    whatever requests fail: a call that returns nil has set the key to the
    value and nothing else, and with [noExist] the key was absent; a call
    that returns an error has left the store as it was; the call does not
    panic. *)
Theorem TransPutKey_all_or_nothing :
  forall (c : option Etcdv3.Client) (key value : string) (noExist : bool) (w : Sys.World),
    quiet w ->
    match fst (Etcdv3.TransPutKey c key value noExist w) with
    | Sys.Ret None =>
        Sys.kv (snd (Etcdv3.TransPutKey c key value noExist w)) = <[key := value]> (Sys.kv w) /\
        (noExist = true -> Sys.kv w !! key = None)
    | Sys.Ret (Some _) => Sys.kv (snd (Etcdv3.TransPutKey c key value noExist w)) = Sys.kv w
    | Sys.Panic _ => False
    end.
Proof.
  intros c key value noExist w Hq. apply TransPutKey_quiet. exact Hq.
Qed.

Lemma TransPutKey_all_or_nothing_witness :
  quiet w_fourth_fails /\
  fst (Etcdv3.TransPutKey None "multus/lease/net1/0167772178-4" "node-a" false w_fourth_fails)
    = Sys.Ret (Some "write key multus/lease/net1/0167772178-4 to node-a failed") /\
  Sys.kv (snd (Etcdv3.TransPutKey None "multus/lease/net1/0167772178-4" "node-a" false
                 w_fourth_fails)) = Sys.kv w_fourth_fails.
Proof.
  assert (Hq : quiet w_fourth_fails) by (repeat constructor).
  split; [exact Hq|]. split; [vm_compute; reflexivity|].
  pose proof (TransPutKey_all_or_nothing None "multus/lease/net1/0167772178-4" "node-a" false
                w_fourth_fails Hq) as H.
  replace (fst (Etcdv3.TransPutKey None "multus/lease/net1/0167772178-4" "node-a" false
                  w_fourth_fails))
    with (@Sys.Ret Sys.error (Some "write key multus/lease/net1/0167772178-4 to node-a failed"))
    in H by (vm_compute; reflexivity).
  exact H.
Defined.

(** X2. [TransDelKey] deletes all or nothing. When no other node writes,
    whatever requests fail: a call that returns nil has deleted the key and
    nothing else, a call that returns an error has left the store as it
    was; the call does not panic. *)
Theorem TransDelKey_all_or_nothing :
  forall (c : option Etcdv3.Client) (key : string) (w : Sys.World),
    quiet w ->
    match fst (Etcdv3.TransDelKey c key w) with
    | Sys.Ret None => Sys.kv (snd (Etcdv3.TransDelKey c key w)) = delete key (Sys.kv w)
    | Sys.Ret (Some _) => Sys.kv (snd (Etcdv3.TransDelKey c key w)) = Sys.kv w
    | Sys.Panic _ => False
    end.
Proof.
  intros c key w Hq. apply TransDelKey_quiet. exact Hq.
Qed.

Lemma TransDelKey_all_or_nothing_witness :
  quiet w_fourth_fails /\
  fst (Etcdv3.TransDelKey None "multus/lease/net1/0167772162-4" w_fourth_fails)
    = Sys.Ret (Some "delete key multus/lease/net1/0167772162-4 failed") /\
  Sys.kv (snd (Etcdv3.TransDelKey None "multus/lease/net1/0167772162-4" w_fourth_fails))
    = Sys.kv w_fourth_fails.
Proof.
  assert (Hq : quiet w_fourth_fails) by (repeat constructor).
  split; [exact Hq|]. split; [vm_compute; reflexivity|].
  pose proof (TransDelKey_all_or_nothing None "multus/lease/net1/0167772162-4"
                w_fourth_fails Hq) as H.
  replace (fst (Etcdv3.TransDelKey None "multus/lease/net1/0167772162-4" w_fourth_fails))
    with (@Sys.Ret Sys.error (Some "delete key multus/lease/net1/0167772162-4 failed"))
    in H by (vm_compute; reflexivity).
  exact H.
Defined.

(** X3. [TransDelKeys] drops the errors of its deletions. When no other node
    writes, whatever requests fail, it ends without a panic, a key that is
    not in its list keeps its value and no key gains one; when every
    request is answered as well, every key of the list is gone. *)
Theorem TransDelKeys_deletes_listed_keys_only :
  forall (c : option Etcdv3.Client) (keys : list string) (w : Sys.World),
    quiet w ->
    fst (Etcdv3.TransDelKeys c keys w) = Sys.Ret tt /\
    (forall k, ~ In k keys ->
       Sys.kv (snd (Etcdv3.TransDelKeys c keys w)) !! k = Sys.kv w !! k) /\
    (forall k, Sys.kv (snd (Etcdv3.TransDelKeys c keys w)) !! k = Sys.kv w !! k \/
               Sys.kv (snd (Etcdv3.TransDelKeys c keys w)) !! k = None) /\
    (calm w -> forall k, In k keys ->
       Sys.kv (snd (Etcdv3.TransDelKeys c keys w)) !! k = None).
Proof.
  intros c keys w Hq.
  destruct (TransDelKeys_quiet c keys w Hq) as (w' & Hrun & _ & Hk).
  rewrite Hrun. cbn [fst snd]. split; [reflexivity|]. split; [|split].
  - intros k Hnin. destruct (Hk k) as [H|[Hin _]]; [exact H|contradiction].
  - intros k. destruct (Hk k) as [H|[_ H]]; [left|right]; exact H.
  - intros Hc k Hin. pose proof (TransDelKeys_calm c keys w Hc k Hin) as H.
    rewrite Hrun in H. exact H.
Qed.

Lemma TransDelKeys_deletes_listed_keys_only_witness :
  quiet w_orphan /\ calm w_orphan /\
  Sys.kv (snd (Etcdv3.TransDelKeys (Some Etcdv3.TheClient)
                 ["multus/lease/net1/0167772178-4"] w_orphan))
    !! "multus/lease/net1/0167772178-4" = None.
Proof.
  assert (Hq : quiet w_orphan) by constructor.
  assert (Hc : calm w_orphan) by constructor.
  split; [exact Hq|]. split; [exact Hc|].
  exact (proj2 (proj2 (proj2 (TransDelKeys_deletes_listed_keys_only (Some Etcdv3.TheClient)
           ["multus/lease/net1/0167772178-4"] w_orphan Hq))) Hc
           "multus/lease/net1/0167772178-4" (or_introl eq_refl)).
Defined.

(** X4. Every call that opens a client closes it: [TransPutKey] and
    [TransDelKey] (which open one when they are given none),
    [IPAMApplyIPRange], [IPAMCheck] and the older [ApplyNewIPRange] leave as
    many clients open as they found, on every path, a panic included. *)
Theorem clients_are_closed :
  (forall c key value noExist, keeps_clients (Etcdv3.TransPutKey c key value noExist)) /\
  (forall c key, keeps_clients (Etcdv3.TransDelKey c key)) /\
  (forall name applyUnit subnet, keeps_clients (Etcdv3cli.IPAMApplyIPRange name applyUnit subnet)) /\
  keeps_clients Etcdv3cli.IPAMCheck /\
  (forall network subnet unit, keeps_clients (HostEtcd.ApplyNewIPRange network subnet unit)).
Proof.
  split; [exact keeps_TransPutKey|]. split; [exact keeps_TransDelKey|].
  split; [exact keeps_IPAMApplyIPRange|]. split; [exact keeps_IPAMCheck|].
  exact keeps_ApplyNewIPRange.
Qed.


(** X6. A block that [ipamGetFreeIPRange] returns has [2^n] addresses, in
    32-bit arithmetic, and starts at the last usable address of the subnet
    or right after the end of a lease of the listing. *)
Theorem ipamGetFreeIPRange_block_shape :
  forall (cli : Etcdv3.Client) (keyDir : string) (subnet : IPAddr.IPNet) (n : Z)
         (w : Sys.World) (rs : Allocator.SimpleRange) (e : Sys.error),
    fst (Etcdv3cli.ipamGetFreeIPRange cli keyDir subnet n w) = Sys.Ret (Some rs, e) ->
    exists s,
      rs = Allocator.mkSimpleRange (IPAddr.Uint32ToIP4 s)
             (IPAddr.Uint32ToIP4 (Uint32.sub (Uint32.add s (Uint32.pow2 n)) 1)) /\
      (s = snd (IPAddr.Net4To2Uint32 subnet) \/
       exists k v ips ipe,
         In (k, v) (Etcdv3.with_prefix keyDir (Sys.kv (after_tick w))) /\
         Etcdv3cli.ipmaLeaseToUint32Range k = Sys.Ret (ips, ipe) /\
         s = Uint32.add ipe 1).
Proof.
  intros cli keyDir subnet n w rs e. rewrite ipamGetFreeIPRange_unfold.
  destruct (next_fails w); [discriminate|].
  destruct (Etcdv3cli.scanLeases _ _ _) as [[[s e']|]|msg] eqn:Hscan; try discriminate.
  intros [= <- <-]. destruct (scanLeases_shape _ _ _ _ _ Hscan) as [-> Hs].
  exists s. split; [reflexivity|exact Hs].
Qed.

Lemma ipamGetFreeIPRange_block_shape_witness :
  fst (Etcdv3cli.ipamGetFreeIPRange Etcdv3.TheClient "multus/lease/net1" net24 4 w_one_lease)
    = Sys.Ret (Some (Allocator.mkSimpleRange (ip 10 0 0 254) (ip 10 0 1 13)), None) /\
  exists s,
    Allocator.mkSimpleRange (ip 10 0 0 254) (ip 10 0 1 13)
      = Allocator.mkSimpleRange (IPAddr.Uint32ToIP4 s)
          (IPAddr.Uint32ToIP4 (Uint32.sub (Uint32.add s (Uint32.pow2 4)) 1)) /\
    (s = snd (IPAddr.Net4To2Uint32 net24) \/
     exists k v ips ipe,
       In (k, v) (Etcdv3.with_prefix "multus/lease/net1" (Sys.kv (after_tick w_one_lease))) /\
       Etcdv3cli.ipmaLeaseToUint32Range k = Sys.Ret (ips, ipe) /\
       s = Uint32.add ipe 1).
Proof.
  assert (H : fst (Etcdv3cli.ipamGetFreeIPRange Etcdv3.TheClient "multus/lease/net1" net24 4
                     w_one_lease)
              = Sys.Ret (Some (Allocator.mkSimpleRange (ip 10 0 0 254) (ip 10 0 1 13)), None))
    by (vm_compute; reflexivity).
  split; [exact H|].
  exact (ipamGetFreeIPRange_block_shape Etcdv3.TheClient "multus/lease/net1" net24 4
           w_one_lease _ _ H).
Defined.

(** X7. A key without ["-"] in its last element stops the gap search: when
    it is the first key of the listing [ipamGetFreeIPRange] panics, whoever
    owns it; when every key of the listing has a ["-"] there, it does not
    panic. *)
Theorem ipamGetFreeIPRange_panics_on_a_key_without_dash :
  forall (cli : Etcdv3.Client) (keyDir : string) (subnet : IPAddr.IPNet) (n : Z)
         (w : Sys.World),
    next_fails w = false ->
    (forall k v rest,
       Etcdv3.with_prefix keyDir (Sys.kv (after_tick w)) = (k, v) :: rest ->
       has_char "-" (Filepath.Base k) = false ->
       fst (Etcdv3cli.ipamGetFreeIPRange cli keyDir subnet n w)
         = Sys.Panic "index out of range") /\
    ((forall k v, In (k, v) (Etcdv3.with_prefix keyDir (Sys.kv (after_tick w))) ->
                  has_char "-" (Filepath.Base k) = true) ->
     exists r, fst (Etcdv3cli.ipamGetFreeIPRange cli keyDir subnet n w) = Sys.Ret r).
Proof.
  intros cli keyDir subnet n w Hf. rewrite ipamGetFreeIPRange_unfold, Hf. split.
  - intros k v rest -> Hk. cbn [Etcdv3cli.scanLeases fst].
    unfold Etcdv3cli.ipmaLeaseToUint32Range. rewrite Split_no_sep by exact Hk. reflexivity.
  - intros Hall.
    destruct (scanLeases_no_panic (Uint32.pow2 n) _ Hall (snd (IPAddr.Net4To2Uint32 subnet)))
      as [r ->].
    destruct r as [[s e]|]; eexists; reflexivity.
Qed.

Lemma ipamGetFreeIPRange_panics_on_a_key_without_dash_witness :
  next_fails (with_key "multus/lease/net1/static" "node-b" w0) = false /\
  fst (Etcdv3cli.ipamGetFreeIPRange Etcdv3.TheClient "multus/lease/net1" net24 4
         (with_key "multus/lease/net1/static" "node-b" w0))
    = Sys.Panic "index out of range".
Proof.
  split; [reflexivity|].
  apply (proj1 (ipamGetFreeIPRange_panics_on_a_key_without_dash Etcdv3.TheClient
                  "multus/lease/net1" net24 4
                  (with_key "multus/lease/net1/static" "node-b" w0) eq_refl)
           "multus/lease/net1/static" "node-b" []).
  - vm_compute. reflexivity.
  - vm_compute. reflexivity.
Defined.

(** X12. [IPAMCheckLocalIPs] never removes the address file of a container
    that is alive, whatever requests fail. *)
Theorem sweep_keeps_files_of_live_containers :
  forall (w : Sys.World) (f id : string),
    Sys.files w !! f = Some id ->
    id ∈ Sys.containers w ->
    Sys.files (snd (Dockercli.IPAMCheckLocalIPs w)) !! f = Some id.
Proof.
  intros [k r ss ms fr cl rt nid ld ca fi co sc lg] f id. cbn [Sys.files Sys.containers].
  intros Hf Hlive.
  unfold Dockercli.IPAMCheckLocalIPs, Etcdv3.Errorf, Sys.bind, Sys.ret, Sys.emit, Sys.gets,
    Sys.tick.
  destruct sc as [|[[|] o] sc]; ev; try assumption.
  all: match goal with |- context [Sys.for_each ?l ?b ?w1] =>
         pose proof (sweep_keeps l w1 f id Hf Hlive) as H;
         destruct (Sys.for_each l b w1) as [[[]|msg] w2]
       end; exact H.
Qed.

Lemma sweep_keeps_files_of_live_containers_witness :
  Sys.files w_two_files !! "/var/lib/cni/networks/net1/10.0.0.2" = Some "c1" /\
  ("c1" ∈ Sys.containers w_two_files) /\
  Sys.files (snd (Dockercli.IPAMCheckLocalIPs w_two_files))
    !! "/var/lib/cni/networks/net1/10.0.0.2" = Some "c1".
Proof.
  assert (Hf : Sys.files w_two_files !! "/var/lib/cni/networks/net1/10.0.0.2" = Some "c1")
    by reflexivity.
  assert (Hl : "c1" ∈ Sys.containers w_two_files) by (unfold w_two_files; cbn [Sys.containers]; apply elem_of_singleton; reflexivity).
  split; [exact Hf|]. split; [exact Hl|].
  exact (sweep_keeps_files_of_live_containers w_two_files _ _ Hf Hl).
Defined.

(** X13. When every request is answered, [IPAMCheckLocalIPs] removes the
    address file of every container that is gone. *)
Theorem sweep_removes_files_of_dead_containers :
  forall (w : Sys.World) (f id : string),
    calm w ->
    Sys.files w !! f = Some id ->
    id ∉ Sys.containers w ->
    Sys.files (snd (Dockercli.IPAMCheckLocalIPs w)) !! f = None.
Proof.
  intros w f id Hc Hf Hdead.
  unfold Dockercli.IPAMCheckLocalIPs. unfold Sys.bind at 1 2. rewrite tick_eq.
  rewrite (calm_next_fails w Hc). unfold Sys.emit at 1. cbn [negb].
  unfold Sys.gets, Sys.bind at 1.
  set (w1 := Sys.upd_log (cons (Sys.EvDocker true)) (after_tick w)).
  assert (Hfiles : Sys.files w1 = Sys.files w).
  { unfold w1. rewrite <- (files_after_tick w). destruct (after_tick w). reflexivity. }
  assert (Hcont : Sys.containers w1 = Sys.containers w).
  { unfold w1. rewrite <- (containers_after_tick w). destruct (after_tick w). reflexivity. }
  assert (Hscript : Sys.script w1 = drop 1 (Sys.script w)).
  { unfold w1. transitivity (Sys.script (after_tick w)).
    - destruct (after_tick w). reflexivity.
    - rewrite script_after_tick. destruct (Sys.script w); reflexivity. }
  assert (Hc1 : calm w1) by (eapply calm_drop; eassumption).
  pose proof (sweep_removes (map_to_list (Sys.files w1)) w1 f id Hc1) as H.
  unfold Sys.bind, Sys.ret.
  destruct (Sys.for_each (map_to_list (Sys.files w1)) Dockercli.checkLocalIP w1)
    as [[[]|msg] w2]; cbn [snd] in *; apply H.
  all: try (rewrite Hcont; exact Hdead).
  all: try (left; rewrite Hfiles; exact Hf).
  all: apply list_elem_of_In, elem_of_map_to_list; rewrite Hfiles; exact Hf.
Qed.

Lemma sweep_removes_files_of_dead_containers_witness :
  calm w_two_files /\
  Sys.files w_two_files !! "/var/lib/cni/networks/net1/10.0.0.3" = Some "c2" /\
  ("c2" ∉ Sys.containers w_two_files) /\
  Sys.files (snd (Dockercli.IPAMCheckLocalIPs w_two_files))
    !! "/var/lib/cni/networks/net1/10.0.0.3" = None.
Proof.
  assert (Hc : calm w_two_files) by constructor.
  assert (Hf : Sys.files w_two_files !! "/var/lib/cni/networks/net1/10.0.0.3" = Some "c2")
    by reflexivity.
  assert (Hd : "c2" ∉ Sys.containers w_two_files).
  { unfold w_two_files. cbn [Sys.containers]. intros H.
    apply elem_of_singleton in H. discriminate H. }
  split; [exact Hc|]. split; [exact Hf|]. split; [exact Hd|].
  exact (sweep_removes_files_of_dead_containers w_two_files _ _ Hc Hf Hd).
Defined.

(** ** A node without leases *)

Section NoLeases.
Import IPAddr Allocator Sys Etcdv3 Etcdv3cli.

Lemma with_prefix_In prefix (m : gmap string string) k v :
  In (k, v) (with_prefix prefix m) -> m !! k = Some v /\ String.prefix prefix k = true.
Proof.
  unfold with_prefix. intros Hin. apply list_elem_of_In in Hin.
  rewrite merge_sort_Permutation in Hin. apply list_elem_of_In, filter_In in Hin.
  destruct Hin as [Hin Hp]. apply list_elem_of_In, elem_of_map_to_list in Hin. auto.
Qed.

Lemma collectLeases_none id kvs acc :
  (forall k v, In (k, v) kvs -> Strings.Trim v <> id) ->
  collectLeases id kvs acc = Ret acc.
Proof.
  induction kvs as [|[k v] rest IH]; intros H; [reflexivity|].
  cbn [collectLeases fst snd].
  assert (Hv : String.eqb (Strings.Trim v) id = false)
    by (apply String.eqb_neq, (H k v); left; reflexivity).
  rewrite Hv. apply IH. intros k' v' Hin. apply (H k' v'). right. exact Hin.
Qed.

Lemma IPAMCheck_idle w :
  quiet w ->
  (forall k v, kv w !! k = Some v -> Strings.Trim v <> nodeId w) ->
  kv (snd (IPAMCheck w)) = kv w /\
  cache (snd (IPAMCheck w)) = cache w /\
  (next_fails w = false -> listing_fails w = false -> fst (IPAMCheck w) = Ret None).
Proof.
  destruct w as [k r ss ms fr cl rt id ld ca fi co sc lg].
  unfold quiet, next_fails, listing_fails. cbn [script kv nodeId cache log].
  intros Hq Hown.
  assert (Hnone : forall p, collectLeases id (with_prefix p k) ∅ = Ret ∅).
  { intros p. apply collectLeases_none. intros k' v' Hin.
    apply with_prefix_In in Hin as [Hin _]. apply (Hown _ _ Hin). }
  unfold IPAMCheck, New, ClientClose, IPAMGetAllLease, GetPrefix, Errorf,
    bind, defer, ret, emit, modify, gets, tick, lift.
  destruct sc as [|[f1 o1] sc].
  - ev. rewrite Hnone. ev. cbn. repeat split; reflexivity.
  - pose proof (List.Forall_inv Hq) as Ho1. apply List.Forall_inv_tail in Hq.
    cbn [others] in Ho1. subst o1. destruct f1; ev.
    + repeat split; try reflexivity. discriminate.
    + destruct sc as [|[f2 o2] sc].
      * ev. rewrite Hnone. ev. cbn. repeat split; reflexivity.
      * pose proof (List.Forall_inv Hq) as Ho2. cbn [others] in Ho2. subst o2.
        destruct f2; ev.
        -- repeat split; try reflexivity. discriminate.
        -- rewrite Hnone. ev. cbn. repeat split; reflexivity.
Qed.

End NoLeases.

(** ** The older lease manager when its listing fails *)

Section OlderListing.
Import IPAddr Allocator Sys Etcdv3 HostEtcd.

(** [GetFreeIPRange] answers a listing that failed with the block (0, 0)
    and no error. *)
Lemma GetFreeIPRange_swallows cli dir subnet unit w :
  next_fails w = true ->
  fst (GetFreeIPRange cli dir subnet unit w) = Ret (0, 0, None).
Proof.
  intros Hf. unfold GetFreeIPRange, GetPrefix. unfold bind at 1 2. rewrite tick_eq, Hf.
  reflexivity.
Qed.

Lemma ApplyNewIPRange_zero_block network subnet unit w o1 o2 :
  script w = [mkTick false o1; mkTick true o2] ->
  fst (ApplyNewIPRange network subnet unit w)
    = Ret (Some (Uint32ToIP4 0, Uint32ToIP4 0), None) /\
  kv (snd (ApplyNewIPRange network subnet unit w))
     !! (rootKeyDir +:+ "/" +:+ network +:+ "/" +:+ keyTemplate 0 0) = Some (nodeId w).
Proof.
  destruct w as [k r ss ms fr cl rt id ld ca fi co sc lg]. cbn [script nodeId]. intros ->.
  unfold ApplyNewIPRange, maxApplyTry. cbn [applyLoop].
  unfold GetFreeIPRange, GetPrefix, Put, GetRevision, ClientClose,
    bind, defer, ret, emit, modify, gets, tick, lift.
  cbn -[String.append keyTemplate Uint32ToIP4 rootKeyDir].
  rewrite Z.eqb_refl. cbn -[String.append keyTemplate Uint32ToIP4 rootKeyDir].
  split; [reflexivity|]. apply lookup_insert_eq.
Qed.

End OlderListing.

Example keyTemplate_zero : HostEtcd.keyTemplate 0 0 = "         0-         0".
Proof. reflexivity. Qed.

(** ** The mutex of a key *)

Section MutexOfKey.
Import Filepath.

Lemma Join_cons sep x y l :
  Strings.Join sep (x :: y :: l) = x +:+ sep +:+ Strings.Join sep (y :: l).
Proof. reflexivity. Qed.

Lemma element_mutex : element "mutex".
Proof. repeat split; discriminate. Qed.

Lemma Split_Join l :
  l <> [] -> Forall element l -> Strings.Split sep (Strings.Join "/" l) = l.
Proof.
  induction l as [|x l IH]; [contradiction|]. intros _ Hall.
  pose proof (List.Forall_inv Hall) as Hx. apply List.Forall_inv_tail in Hall.
  destruct l as [|y l].
  - cbn [Strings.Join]. apply Split_no_sep. apply Hx.
  - rewrite Join_cons.
    change (x +:+ "/" +:+ Strings.Join "/" (y :: l))
      with (x +:+ String sep (Strings.Join "/" (y :: l))).
    rewrite Split_app, (Split_no_sep sep x) by apply Hx.
    rewrite IH by (try discriminate; assumption). reflexivity.
Qed.

Lemma fold_clean_elements root l st :
  Forall element l -> fold_left (clean_step root) l st = (rev l ++ st)%list.
Proof.
  revert st. induction l as [|x l IH]; intros st Hall; [reflexivity|].
  pose proof (List.Forall_inv Hall) as Hx. apply List.Forall_inv_tail in Hall.
  cbn [fold_left]. rewrite clean_step_element by assumption.
  rewrite IH by assumption. cbn [rev]. change (List.rev l) with (rev l).
  rewrite <- app_assoc. reflexivity.
Qed.

Lemma clean_step_empty root st : clean_step root st "" = st.
Proof. reflexivity. Qed.

Lemma Join_nonempty l x : element x -> Strings.Join "/" (x :: l) <> "".
Proof.
  intros Hx. destruct l as [|y l].
  - apply Hx.
  - rewrite Join_cons. destruct x; [destruct Hx as [H _]; contradiction|discriminate].
Qed.

Lemma rooted_Join l x : element x -> rooted (Strings.Join "/" (x :: l)) = false.
Proof.
  intros Hx.
  assert (Hr : rooted x = false).
  { destruct x as [|c n]; [reflexivity|]. destruct Hx as (_ & Hs & _).
    simpl in Hs. apply orb_false_iff in Hs as [Hs _]. exact Hs. }
  destruct l as [|y l]; [exact Hr|].
  rewrite Join_cons. destruct x; [destruct Hx as [H _]; contradiction|exact Hr].
Qed.

Lemma rooted_app a b : a <> "" -> rooted (a +:+ b) = rooted a.
Proof. destruct a; [contradiction|reflexivity]. Qed.

(** A path of elements is clean, with or without a separator at its end. *)
Lemma Clean_Join l :
  l <> [] -> Forall element l -> Clean (Strings.Join "/" l) = Strings.Join "/" l.
Proof.
  intros Hne Hall. destruct l as [|x l]; [contradiction|].
  pose proof (List.Forall_inv Hall) as Hx.
  unfold Clean. rewrite rooted_Join by assumption.
  rewrite Split_Join by assumption. rewrite fold_clean_elements by assumption.
  rewrite app_nil_r. change (List.rev (rev (x :: l))) with (rev (rev (x :: l))).
  rewrite rev_involutive.
  pose proof (Join_nonempty l x Hx) as Hj. apply String.eqb_neq in Hj. rewrite Hj.
  reflexivity.
Qed.

Lemma Clean_Join_slash l :
  l <> [] -> Forall element l ->
  Clean (Strings.Join "/" l +:+ String sep "") = Strings.Join "/" l.
Proof.
  intros Hne Hall. destruct l as [|x l]; [contradiction|].
  pose proof (List.Forall_inv Hall) as Hx.
  unfold Clean. rewrite rooted_app by (apply Join_nonempty; assumption).
  rewrite rooted_Join by assumption.
  rewrite Split_app, Split_Join by assumption. cbn [Strings.Split].
  rewrite fold_left_app, (fold_clean_elements _ (x :: l)) by assumption. cbn [fold_left].
  rewrite clean_step_empty, app_nil_r. change (List.rev (rev (x :: l))) with (rev (rev (x :: l))).
  rewrite rev_involutive.
  pose proof (Join_nonempty l x Hx) as Hj. apply String.eqb_neq in Hj. rewrite Hj.
  reflexivity.
Qed.

Lemma upto_last_sep_app a b :
  has_char sep b = false -> upto_last_sep (a +:+ String sep b) = a +:+ String sep "".
Proof.
  intros Hb.
  assert (Hnone : upto_last_sep b = "").
  { induction b as [|c b IH]; [reflexivity|].
    cbn [has_char] in Hb. apply orb_false_iff in Hb as [Hc Hb].
    cbn [upto_last_sep]. rewrite (IH Hb), Hc. reflexivity. }
  induction a as [|c a IH].
  - cbn [String.append upto_last_sep]. change ("" +:+ String sep b) with (String sep b).
    cbn [upto_last_sep]. rewrite Hnone. unfold sep. rewrite Ascii.eqb_refl. reflexivity.
  - change (String c a +:+ String sep b) with (String c (a +:+ String sep b)).
    cbn [upto_last_sep]. rewrite IH.
    change (String c a +:+ String sep "") with (String c (a +:+ String sep "")).
    destruct (a +:+ String sep "") eqn:E; [destruct a; discriminate|reflexivity].
Qed.

Lemma Dir_Join l leaf :
  l <> [] -> Forall element l -> element leaf ->
  Dir (Strings.Join "/" (l ++ [leaf])) = Strings.Join "/" l.
Proof.
  intros Hne Hall Hleaf. unfold Dir. rewrite Join_snoc.
  destruct l as [|x l]; [contradiction|].
  change (Strings.Join "/" (x :: l) +:+ "/" +:+ leaf)
    with (Strings.Join "/" (x :: l) +:+ String sep leaf).
  rewrite upto_last_sep_app by apply Hleaf.
  apply Clean_Join_slash; assumption.
Qed.

Lemma Filepath_Join_snoc l s :
  l <> [] -> Forall element l -> element s ->
  Join [Strings.Join "/" l; s] = Strings.Join "/" (l ++ [s]).
Proof.
  intros Hne Hall Hs. unfold Join. cbn [List.filter].
  destruct l as [|x l]; [contradiction|].
  pose proof (List.Forall_inv Hall) as Hx.
  pose proof (Join_nonempty l x Hx) as Hj. apply String.eqb_neq in Hj. rewrite Hj.
  assert (Hs0 : s <> "") by apply Hs. apply String.eqb_neq in Hs0. rewrite Hs0.
  cbn [negb]. cbv iota.
  transitivity (Clean (Strings.Join "/" ((x :: l) ++ [s]))).
  - f_equal. rewrite Join_snoc. reflexivity.
  - apply Clean_Join; [discriminate|].
    apply Forall_app. split; [assumption|]. constructor; [assumption|constructor].
Qed.

Lemma fold_Join dirs :
  forall l, l <> [] -> Forall element l -> Forall element dirs ->
  fold_left (fun m s => Join [m; s]) dirs (Strings.Join "/" l) = Strings.Join "/" (l ++ dirs).
Proof.
  induction dirs as [|d dirs IH]; intros l Hne Hall Hd.
  - rewrite app_nil_r. reflexivity.
  - pose proof (List.Forall_inv Hd) as Hd0. apply List.Forall_inv_tail in Hd.
    cbn [fold_left]. rewrite Filepath_Join_snoc by assumption.
    rewrite IH.
    + rewrite <- app_assoc. reflexivity.
    + destruct l; discriminate.
    + apply Forall_app. split; [assumption|]. constructor; [assumption|constructor].
    + assumption.
Qed.

Lemma KeyToMutex_elements root dirs leaf :
  element root -> Forall element dirs -> element leaf ->
  Etcdv3.KeyToMutex (Strings.Join "/" (root :: dirs ++ [leaf]))
  = Strings.Join "/" (root :: "mutex" :: dirs).
Proof.
  intros Hroot Hdirs Hleaf. unfold Etcdv3.KeyToMutex.
  change (root :: dirs ++ [leaf])%list with ((root :: dirs) ++ [leaf])%list.
  assert (Hall : Forall element (root :: dirs)) by (constructor; assumption).
  rewrite Dir_Join by (try discriminate; assumption).
  rewrite Split_Join by (try discriminate; assumption).
  cbn [hd tl].
  assert (Hm : Join [root; "mutex"] = Strings.Join "/" [root; "mutex"]).
  { apply (Filepath_Join_snoc [root] "mutex");
      [discriminate | constructor; [assumption|constructor] | apply element_mutex]. }
  rewrite Hm, fold_Join.
  - reflexivity.
  - discriminate.
  - constructor; [assumption|]. constructor; [apply element_mutex|constructor].
  - assumption.
Qed.

End MutexOfKey.

(** X5. [KeyToMutex] on a key that is a path of elements: the mutex is the
    directory of the key with ["mutex"] put after its first element. The
    name of the key itself plays no part: the lease keys of one directory
    all have the same mutex, whatever their ranges. *)
Theorem KeyToMutex_of_a_path :
  forall (root : string) (dirs : list string) (leaf : string),
    element root -> Forall element dirs -> element leaf ->
    Etcdv3.KeyToMutex (Strings.Join "/" (root :: dirs ++ [leaf]))
      = Strings.Join "/" (root :: "mutex" :: dirs)
    /\
    forall r : Allocator.SimpleRange,
      Etcdv3.KeyToMutex (Etcdv3cli.ipamSimpleRangeToLease (Strings.Join "/" (root :: dirs)) r)
        = Strings.Join "/" (root :: "mutex" :: dirs).
Proof.
  intros root dirs leaf Hroot Hdirs Hleaf. split.
  - apply KeyToMutex_elements; assumption.
  - intros r. unfold Etcdv3cli.ipamSimpleRangeToLease.
    rewrite Filepath_Join_snoc.
    + apply KeyToMutex_elements; [assumption|assumption|apply keyTemplate_element].
    + discriminate.
    + constructor; assumption.
    + apply keyTemplate_element.
Qed.

Lemma KeyToMutex_of_a_path_witness :
  element "multus" /\ Forall element ["lease"; "net1"] /\ element "0167772162-4" /\
  Etcdv3.KeyToMutex (Strings.Join "/" ("multus" :: ["lease"; "net1"] ++ ["0167772162-4"]))
    = Strings.Join "/" ("multus" :: "mutex" :: ["lease"; "net1"]).
Proof.
  assert (H1 : element "multus") by (repeat split; discriminate).
  assert (H2 : Forall element ["lease"; "net1"])
    by (repeat constructor; discriminate).
  assert (H3 : element "0167772162-4") by (repeat split; discriminate).
  split; [exact H1|]. split; [exact H2|]. split; [exact H3|].
  exact (proj1 (KeyToMutex_of_a_path "multus" ["lease"; "net1"] "0167772162-4" H1 H2 H3)).
Defined.

(** X9. A node that owns no key is left alone by [IPAMCheck]: when no other
    node writes, whatever requests fail, neither the coordinator nor the
    cache of any network changes, so a block that is in the cache and has
    no lease stays without one; when the client and the listing are
    answered the call returns nil. *)
Theorem IPAMCheck_leaves_a_node_without_leases_alone :
  forall w : Sys.World,
    quiet w ->
    (forall k v, Sys.kv w !! k = Some v -> Strings.Trim v <> Sys.nodeId w) ->
    Sys.kv (snd (Etcdv3cli.IPAMCheck w)) = Sys.kv w /\
    Sys.cache (snd (Etcdv3cli.IPAMCheck w)) = Sys.cache w /\
    (next_fails w = false -> listing_fails w = false ->
     fst (Etcdv3cli.IPAMCheck w) = Sys.Ret None).
Proof.
  intros w Hq Hown. apply IPAMCheck_idle; assumption.
Qed.

Lemma IPAMCheck_leaves_a_node_without_leases_alone_witness :
  quiet w_cached_only /\
  (forall k v, Sys.kv w_cached_only !! k = Some v -> Strings.Trim v <> Sys.nodeId w_cached_only) /\
  Sys.kv (snd (Etcdv3cli.IPAMCheck w_cached_only)) = Sys.kv w_cached_only /\
  Sys.cache (snd (Etcdv3cli.IPAMCheck w_cached_only)) = Sys.cache w_cached_only.
Proof.
  assert (Hq : quiet w_cached_only) by constructor.
  assert (Hown : forall k v, Sys.kv w_cached_only !! k = Some v ->
                             Strings.Trim v <> Sys.nodeId w_cached_only).
  { intros k v. unfold w_cached_only, with_key. cbn [Sys.kv Sys.set_kv Sys.upd_cache w0].
    intros H. apply lookup_insert_Some in H as [[_ <-]|[_ H]].
    - vm_compute. discriminate.
    - rewrite lookup_empty in H. discriminate. }
  split; [exact Hq|]. split; [exact Hown|].
  destruct (IPAMCheck_leaves_a_node_without_leases_alone w_cached_only Hq Hown) as (H1 & H2 & _).
  split; assumption.
Defined.

(** X15. The older lease manager takes a listing that failed for an empty
    answer: [GetFreeIPRange] hands back the block (0, 0) with a nil error,
    and [ApplyNewIPRange], when its other requests are answered, writes the
    key of that block for the node and returns 0.0.0.0-0.0.0.0 with a nil
    error, for every network, subnet and unit. *)
Theorem older_acquire_ignores_a_failed_listing :
  forall (network : string) (subnet : IPAddr.IPNet) (unit : Z) (w : Sys.World)
         (o1 o2 : list (string * string)),
    Sys.script w = [Sys.mkTick false o1; Sys.mkTick true o2] ->
    fst (HostEtcd.ApplyNewIPRange network subnet unit w)
      = Sys.Ret (Some (IPAddr.Uint32ToIP4 0, IPAddr.Uint32ToIP4 0), None) /\
    Sys.kv (snd (HostEtcd.ApplyNewIPRange network subnet unit w))
      !! (HostEtcd.rootKeyDir +:+ "/" +:+ network +:+ "/" +:+ "         0-         0")
      = Some (Sys.nodeId w).
Proof.
  intros network subnet unit w o1 o2 Hs.
  exact (ApplyNewIPRange_zero_block network subnet unit w o1 o2 Hs).
Qed.

Lemma older_acquire_ignores_a_failed_listing_witness :
  Sys.script w_listing_fails = [Sys.mkTick false []; Sys.mkTick true []] /\
  fst (HostEtcd.ApplyNewIPRange "net1" net24 16 w_listing_fails)
    = Sys.Ret (Some (IPAddr.Uint32ToIP4 0, IPAddr.Uint32ToIP4 0), None).
Proof.
  split; [reflexivity|].
  exact (proj1 (older_acquire_ignores_a_failed_listing "net1" net24 16 w_listing_fails [] []
                  eq_refl)).
Defined.

(** ** [cmdDel] *)

Section Del.
Import IPAddr Allocator Sys Plugin.
Context {St : Type}.
Variable allocRelease : IPAllocator -> string -> string -> St -> error * St.
Variable Errorf0 : string -> string.



End Del.

(** ** The range sets of the older plugin *)

Section OlderRangeSets.
Import IPAddr Allocator Sys Plugin.
Context {St : Type}.
Variable LoadRangeSetFromCache : St -> list string * error.
Variable FlashRangeSetToCache : list string -> St -> St.
Variable etcdApplyNewIPRange : string -> IPNet -> Z -> St -> (IP4 * IP4 + string) * St.

Lemma hostEtcd_overCache_from ors cache :
  forall rs, (forall r, In r rs -> In r ors) ->
  forall r, In r (hostEtcd_overCache ors cache rs) -> In r ors.
Proof.
  induction cache as [|cr cache IH]; intros rs Hrs; [exact Hrs|].
  cbn [hostEtcd_overCache].
  destruct (RangeFor ors (RangeStart cr)) as [o|] eqn:Hf; [|apply IH; exact Hrs].
  apply IH. intros r [Hin|Hin]%in_app_or; [apply Hrs; exact Hin|].
  destruct Hin as [<-|[]]. unfold RangeFor in Hf. apply find_some in Hf. apply Hf.
Qed.

Lemma hostEtcd_overOrigin_formed network unit origin cache :
  forall rss0 flash (h : @Host St) rss h',
    hostEtcd_overOrigin FlashRangeSetToCache etcdApplyNewIPRange network unit origin cache
      rss0 flash h = (Ret (Some rss, None), h') ->
    exists rss1, rss = (rss0 ++ rss1)%list /\ Forall2 formed_from origin rss1.
Proof.
  induction origin as [|ors origin IH]; intros rss0 flash h rss h'.
  - cbn [hostEtcd_overOrigin]. unfold bind, ret.
    destruct flash; cbn; intros [= <- <-]; exists []; rewrite app_nil_r; split; constructor.
  - cbn [hostEtcd_overOrigin].
    destruct (Nat.eqb (List.length (hostEtcd_overCache ors cache [])) 0) eqn:Hlen.
    + unfold bind at 1. unfold lift. destruct ors as [|o0 rest]; [discriminate|].
      unfold bind at 1. unfold ApplyNewIPRange.
      destruct (etcdApplyNewIPRange network (Subnet o0) unit (store h)) as [[[sIP eIP]|msg] s1];
        [|discriminate].
      intros Hrun. destruct (IH _ _ _ _ _ Hrun) as (rss1 & -> & Hall).
      exists ([withBounds o0 sIP eIP] :: rss1). split; [rewrite <- app_assoc; reflexivity|].
      constructor; [|exact Hall]. split; [discriminate|].
      intros r [<-|[]]. right. exists o0, rest, sIP, eIP. split; reflexivity.
    + intros Hrun. destruct (IH _ _ _ _ _ Hrun) as (rss1 & -> & Hall).
      exists (hostEtcd_overCache ors cache [] :: rss1).
      split; [rewrite <- app_assoc; reflexivity|].
      constructor; [|exact Hall]. split.
      * intros E. rewrite E in Hlen. discriminate.
      * intros r Hin. left. eapply hostEtcd_overCache_from; [|exact Hin]. intros ? [].
Qed.

Lemma hostEtcd_formRangeSets_formed origin network unit (h : @Host St) rss e :
  fst (hostEtcd_formRangeSets LoadRangeSetFromCache FlashRangeSetToCache etcdApplyNewIPRange
         origin network unit h) = Ret (Some rss, e) ->
  Forall2 formed_from origin rss.
Proof.
  unfold hostEtcd_formRangeSets, LoadCache. unfold bind at 1.
  destruct (LoadRangeSetFromCache (store h)) as [c [err|]]; [discriminate|].
  unfold bind at 1. unfold lift. destruct (parseCache c) as [cache|msg]; [|discriminate].
  destruct (hostEtcd_overOrigin FlashRangeSetToCache etcdApplyNewIPRange network unit origin
              cache [] false h) as [o h'] eqn:Hrun.
  cbn [fst]. intros ->.
  assert (He : e = None).
  { clear -Hrun. revert Hrun. generalize (@nil RangeSet) false h.
    induction origin as [|ors origin IH]; intros rss0 flash h0.
    - cbn [hostEtcd_overOrigin]. unfold bind, ret. destruct flash; cbn; intros [= _ <- _]; reflexivity.
    - cbn [hostEtcd_overOrigin]. destruct (Nat.eqb _ 0).
      + unfold bind at 1. unfold lift. destruct ors as [|o0 rest]; [discriminate|].
        unfold bind at 1. unfold ApplyNewIPRange.
        destruct (etcdApplyNewIPRange network (Subnet o0) unit (store h0))
          as [[[sIP eIP]|msg] s1]; [|discriminate].
        apply IH.
      + apply IH. }
  subst e. destruct (hostEtcd_overOrigin_formed _ _ _ _ _ _ _ _ _ Hrun) as (rss1 & -> & Hall).
  exact Hall.
Qed.

End OlderRangeSets.

(** ** The requests for leases of one ADD *)

Section Asks.
Import IPAddr Allocator Sys Plugin.
Context {St IPConfig : Type}.
Variable LoadRangeSetFromCache : St -> list string * error.
Variable AppendRangeToCache : string -> St -> St.
Variable FlashRangeSetToCache : list string -> St -> St.
Variable allocGet : IPAllocator -> string -> string -> St -> (IPConfig + string) * St.
Variable allocRelease : IPAllocator -> string -> string -> St -> error * St.
Variable etcdApplyNewIPRange : string -> IPNet -> Z -> St -> (IP4 * IP4 + string) * St.

Abbreviation PH := (ST (@Host St)).

Lemma asks_ret {A} (x : A) : asks (ret x : PH A) 0.
Proof. intros h. cbn. lia. Qed.

Lemma asks_panic {A} msg : asks (panic msg : PH A) 0.
Proof. intros h. cbn. lia. Qed.

Lemma asks_lift {A} (o : outcome A) : asks (lift o : PH A) 0.
Proof. intros h. cbn. lia. Qed.

Lemma asks_weaken {A} (m : PH A) n n' : asks m n -> (n <= n')%nat -> asks m n'.
Proof. intros H Hn h. specialize (H h). lia. Qed.

Lemma asks_bind {A B} n n' (m : PH A) (f : A -> PH B) :
  asks m n -> (forall x, asks (f x) n') -> asks (bind m f) (n + n').
Proof.
  intros Hm Hf h. unfold bind. specialize (Hm h).
  destruct (m h) as [[x|msg] h1]; cbn [snd] in *.
  - specialize (Hf x h1). lia.
  - lia.
Qed.

(** The same when the bound of what follows depends on a property of the
    result. *)
Lemma asks_bind_post {A B} (Q : A -> Prop) n n' (m : PH A) (f : A -> PH B) :
  asks m n -> (forall h x, fst (m h) = Ret x -> Q x) ->
  (forall x, Q x -> asks (f x) n') -> asks (bind m f) (n + n').
Proof.
  intros Hm HQ Hf h. unfold bind. specialize (Hm h). specialize (HQ h).
  destruct (m h) as [[x|msg] h1]; cbn [fst snd] in *.
  - specialize (Hf x (HQ x eq_refl) h1). lia.
  - lia.
Qed.

Lemma asks_call c : is_apply c = false -> asks (call c : PH unit) 0.
Proof.
  intros Hc h. unfold call, applies. cbn [snd calls List.filter]. rewrite Hc. lia.
Qed.

Lemma asks_Errorf msg : asks (Errorf msg : PH error) 0.
Proof.
  unfold Errorf. apply (asks_bind 0 0); [apply asks_call; reflexivity|].
  intros _. apply asks_ret.
Qed.

Lemma asks_LoadCache : asks (LoadCache LoadRangeSetFromCache) 0.
Proof. intros h. cbn. lia. Qed.

Lemma asks_AppendCache line : asks (AppendCache AppendRangeToCache line) 0.
Proof. intros h. unfold AppendCache, applies. cbn. lia. Qed.

Lemma asks_FlashCache lines : asks (FlashCache FlashRangeSetToCache lines) 0.
Proof. intros h. unfold FlashCache, applies. cbn. lia. Qed.

Lemma asks_Get a cid ifn : asks (Get allocGet a cid ifn) 0.
Proof.
  intros h. unfold Get, applies. destruct (allocGet a cid ifn (store h)) as [[c|msg] s']; cbn; lia.
Qed.

Lemma asks_Release a cid ifn : asks (Release allocRelease a cid ifn) 0.
Proof.
  destruct a as [a|]; [|apply asks_panic].
  intros h. unfold Release, applies. destruct (allocRelease a cid ifn (store h)) as [e s']. cbn. lia.
Qed.

Lemma asks_ApplyNewIPRange network subnet unit :
  asks (ApplyNewIPRange etcdApplyNewIPRange network subnet unit) 1.
Proof.
  intros h. unfold ApplyNewIPRange, applies.
  destruct (etcdApplyNewIPRange network subnet unit (store h)) as [[se|msg] s']; cbn; lia.
Qed.

Lemma asks_releaseAll allocs cid ifn : asks (releaseAll allocRelease allocs cid ifn) 0.
Proof.
  unfold releaseAll. induction allocs as [|a allocs IH]; [apply asks_ret|].
  cbn [for_each]. apply (asks_bind 0 0); [|intros _; exact IH].
  apply (asks_bind 0 0); [apply asks_Release|]. intros _. apply asks_ret.
Qed.

Ltac none := apply (asks_weaken _ 0); [first [apply asks_ret | apply asks_panic]|lia].

(** The loop [for i := 0; i < 3; i++]: a request for each turn at most. *)
Lemma asks_applyRetry n conf cid ifn idx :
  forall alloc ipConf err,
    asks (applyRetry AppendRangeToCache allocGet etcdApplyNewIPRange n conf cid ifn idx
            alloc ipConf err) n.
Proof.
  induction n as [|n IH]; intros alloc ipConf err; cbn [applyRetry]; [apply asks_ret|].
  destruct err as [msg|]; [|none].
  destruct (Strings.Contains msg noAddresses); [|none].
  apply (asks_bind 0 (S n)); [apply asks_lift|]. intros r0.
  apply (asks_bind 1 n); [apply asks_ApplyNewIPRange|]. intros [[[sIP eIP]|] [e|]]; try none.
  apply (asks_bind 0 n); [apply asks_AppendCache|]. intros _.
  apply (asks_bind 0 n); [apply asks_Get|]. intros [c [e|]]; [|none].
  apply (asks_bind 0 n); [apply asks_Errorf|]. intros _. apply IH.
Qed.

Lemma asks_allocateFrom conf cid ifn rss :
  forall idx allocs IPs,
    asks (allocateFrom AppendRangeToCache allocGet allocRelease etcdApplyNewIPRange
            conf cid ifn idx rss allocs IPs) (3 * List.length rss).
Proof.
  induction rss as [|rs rss IH]; intros idx allocs IPs; cbn [allocateFrom]; [apply asks_ret|].
  replace (3 * List.length (rs :: rss))%nat with (0 + (3 + 3 * List.length rss))%nat
    by (cbn [List.length]; lia).
  apply asks_bind.
  { destruct (negb _).
    - apply (asks_bind 0 0); [apply asks_Get|]. intros g. apply asks_ret.
    - apply (asks_bind 0 0); [apply asks_Errorf|]. intros e. apply asks_ret. }
  intros [[alloc ipConf] err].
  apply asks_bind; [apply asks_applyRetry|]. intros [[alloc' ipConf'] [e|]].
  - apply (asks_weaken _ 0); [|lia].
    apply (asks_bind 0 0); [apply asks_releaseAll|]. intros _.
    apply (asks_bind 0 0); [apply asks_Errorf|]. intros e'. apply asks_ret.
  - apply IH.
Qed.

Lemma asks_allocateIP conf cid ifn :
  asks (allocateIP LoadRangeSetFromCache AppendRangeToCache allocGet allocRelease
          etcdApplyNewIPRange conf cid ifn) (3 * List.length (Ranges conf)).
Proof.
  unfold allocateIP, formRangeSets.
  intros h. unfold bind at 1 2. unfold LoadCache.
  destruct (LoadRangeSetFromCache (store h)) as [c [e|]]; [cbn; lia|].
  unfold bind at 1. unfold lift. destruct (parseCache c) as [cache|msg]; [|cbn; lia].
  unfold ret at 1. cbv iota beta.
  pose proof (asks_allocateFrom conf cid ifn (overOrigin (Ranges conf) cache []) 0 [] [] h) as H.
  rewrite overOrigin_length in H. exact H.
Qed.

Lemma asks_hostEtcd_overOrigin network unit origin cache :
  forall rss flash,
    asks (hostEtcd_overOrigin FlashRangeSetToCache etcdApplyNewIPRange network unit origin
            cache rss flash) (List.length origin).
Proof.
  induction origin as [|ors origin IH]; intros rss flash; cbn [hostEtcd_overOrigin].
  - apply (asks_bind 0 0); [destruct flash; [apply asks_FlashCache|apply asks_ret]|].
    intros _. apply asks_ret.
  - destruct (Nat.eqb _ 0).
    + cbn [List.length]. apply (asks_bind 0 (S (List.length origin))); [apply asks_lift|].
      intros o0. apply (asks_bind 1 (List.length origin)); [apply asks_ApplyNewIPRange|].
      intros [[[sIP eIP]|] [e|]]; try none. apply IH.
    + apply (asks_weaken _ (List.length origin)); [apply IH|cbn [List.length]; lia].
Qed.

Lemma asks_hostEtcd_allocateFrom conf cid ifn todo :
  forall idx rss allocs IPs reflash,
    asks (hostEtcd_allocateFrom FlashRangeSetToCache allocGet allocRelease etcdApplyNewIPRange
            conf cid ifn idx todo rss allocs IPs reflash) (List.length todo).
Proof.
  induction todo as [|rangeset todo IH]; intros idx rss allocs IPs reflash;
    cbn [hostEtcd_allocateFrom].
  - apply (asks_bind 0 0); [destruct reflash; [apply asks_FlashCache|apply asks_ret]|].
    intros _. apply asks_ret.
  - cbn [List.length]. apply (asks_bind 0 (S (List.length todo))); [apply asks_Get|].
    intros [ipConf [msg|]].
    + destruct (Strings.Contains msg noAddresses).
      * apply (asks_bind 0 (S (List.length todo))); [apply asks_lift|]. intros r0.
        apply (asks_bind 1 (List.length todo)); [apply asks_ApplyNewIPRange|].
        intros [[[sIP eIP]|] [e|]]; try none.
        -- apply (asks_weaken _ 0); [|lia].
           apply (asks_bind 0 0); [apply asks_releaseAll|]. intros _. apply asks_ret.
        -- apply (asks_bind 0 (List.length todo)); [apply asks_Get|]. intros [c' [e|]].
           ++ apply (asks_weaken _ 0); [|lia].
              apply (asks_bind 0 0); [apply asks_releaseAll|]. intros _. apply asks_ret.
           ++ apply IH.
        -- apply (asks_weaken _ 0); [|lia].
           apply (asks_bind 0 0); [apply asks_releaseAll|]. intros _. apply asks_ret.
      * apply (asks_weaken _ (List.length todo)); [apply IH|lia].
    + apply (asks_weaken _ (List.length todo)); [apply IH|lia].
Qed.

Lemma asks_hostEtcd_allocateIP conf cid ifn :
  asks (hostEtcd_allocateIP LoadRangeSetFromCache FlashRangeSetToCache allocGet allocRelease
          etcdApplyNewIPRange conf cid ifn) (2 * List.length (Ranges conf)).
Proof.
  unfold hostEtcd_allocateIP.
  replace (2 * List.length (Ranges conf))%nat
    with (List.length (Ranges conf) + List.length (Ranges conf))%nat by lia.
  apply (asks_bind_post
           (fun r => forall rss e, r = (Some rss, e) ->
                                   List.length rss = List.length (Ranges conf))).
  - unfold hostEtcd_formRangeSets.
    apply (asks_bind 0 (List.length (Ranges conf))); [apply asks_LoadCache|].
    intros [c [e|]]; [none|].
    apply (asks_bind 0 (List.length (Ranges conf))); [apply asks_lift|]. intros cache.
    apply asks_hostEtcd_overOrigin.
  - intros h x Hx rss e ->. symmetry. eapply Forall2_length.
    eapply hostEtcd_formRangeSets_formed. exact Hx.
  - intros [[rss|] [e|]] Hlen; try none.
    rewrite <- (Hlen rss None eq_refl). apply asks_hostEtcd_allocateFrom.
Qed.

End Asks.



(** X16. The range sets that the older [formRangeSets] returns: one for each
    configured range set, none of them empty, each made of ranges of the
    configured set as they are configured (whatever the bounds of the
    cached block that selected them) or of its first range with the bounds
    of a new lease. *)
Theorem older_formRangeSets_returns_no_empty_set :
  forall (St : Type) (LoadRangeSetFromCache : St -> list string * Sys.error)
         (FlashRangeSetToCache : list string -> St -> St)
         (etcdApplyNewIPRange : string -> IPAddr.IPNet -> Z -> St
                                -> (IPAddr.IP4 * IPAddr.IP4 + string) * St)
         (origin : list Allocator.RangeSet) (network : string) (unit : Z)
         (h : @Plugin.Host St) (rss : list Allocator.RangeSet) (e : Sys.error),
    fst (Plugin.hostEtcd_formRangeSets LoadRangeSetFromCache FlashRangeSetToCache
           etcdApplyNewIPRange origin network unit h) = Sys.Ret (Some rss, e) ->
    Forall2 formed_from origin rss /\ List.length rss = List.length origin.
Proof.
  intros St L F A origin network unit h rss e Hrun.
  pose proof (hostEtcd_formRangeSets_formed L F A origin network unit h rss e Hrun) as H.
  split; [exact H|]. symmetry. eapply Forall2_length. exact H.
Qed.

Lemma older_formRangeSets_returns_no_empty_set_witness :
  fst (Plugin.hostEtcd_formRangeSets loadLines demoFlash readyApply
         [[range0]; [range1]] "net1" 16 (Plugin.mkHost ["10.0.1.2-10.0.1.17"] []))
    = Sys.Ret (Some [[Plugin.withBounds range0 (ip 10 0 0 18) (ip 10 0 0 33)]; [range1]], None)
  /\ Forall2 formed_from [[range0]; [range1]]
       [[Plugin.withBounds range0 (ip 10 0 0 18) (ip 10 0 0 33)]; [range1]].
Proof.
  assert (H : fst (Plugin.hostEtcd_formRangeSets loadLines demoFlash readyApply
                     [[range0]; [range1]] "net1" 16 (Plugin.mkHost ["10.0.1.2-10.0.1.17"] []))
              = Sys.Ret (Some [[Plugin.withBounds range0 (ip 10 0 0 18) (ip 10 0 0 33)];
                               [range1]], None))
    by (vm_compute; reflexivity).
  split; [exact H|].
  exact (proj1 (older_formRangeSets_returns_no_empty_set (list string) loadLines demoFlash
                  readyApply [[range0]; [range1]] "net1" 16
                  (Plugin.mkHost ["10.0.1.2-10.0.1.17"] []) _ _ H)).
Defined.

(** X19. One ADD asks the lease manager for a bounded number of leases,
    whatever the allocator, the store and the lease manager do: three for
    each configured range set at most in the multus-ipam plugin, two in the
    older one. *)
Theorem allocateIP_asks_for_few_leases :
  forall (St IPConfig : Type)
         (LoadRangeSetFromCache : St -> list string * Sys.error)
         (AppendRangeToCache : string -> St -> St)
         (FlashRangeSetToCache : list string -> St -> St)
         (allocGet : Plugin.IPAllocator -> string -> string -> St -> (IPConfig + string) * St)
         (allocRelease : Plugin.IPAllocator -> string -> string -> St -> Sys.error * St)
         (etcdApplyNewIPRange : string -> IPAddr.IPNet -> Z -> St
                                -> (IPAddr.IP4 * IPAddr.IP4 + string) * St)
         (conf : Plugin.IPAMConfig) (cid ifn : string),
    asks (Plugin.allocateIP LoadRangeSetFromCache AppendRangeToCache allocGet allocRelease
            etcdApplyNewIPRange conf cid ifn) (3 * List.length (Plugin.Ranges conf)) /\
    asks (Plugin.hostEtcd_allocateIP LoadRangeSetFromCache FlashRangeSetToCache allocGet
            allocRelease etcdApplyNewIPRange conf cid ifn)
         (2 * List.length (Plugin.Ranges conf)).
Proof.
  intros. split; [apply asks_allocateIP|apply asks_hostEtcd_allocateIP].
Qed.

Lemma formRangeSets_intersections_witness :
  Plugin.overOrigin [[range0]] [block_a] [] = formRangeSets_spec [[range0]] [block_a].
Proof.
  apply formRangeSets_intersections.
  - intros rso ro [<-|[]] [<-|[]]. vm_compute. discriminate.
  - intros rso ro cr [<-|[]] [<-|[]] [<-|[]]. split.
    + vm_compute. discriminate.
    + intros [H _]. vm_compute in H. discriminate.
Defined.

(** ** The first pass of the reconciler *)

Section FirstPass.
Import Allocator Sys Etcdv3 Etcdv3cli.

Ltac grown' := repeat (apply grown_cons); apply grown_nil.

Lemma TransDelKey_events cli key w :
  exists e w' l, TransDelKey (Some cli) key w = (Ret e, w') /\
    log w' = (l ++ log w)%list /\ Forall (deletes_only key) l.
Proof.
  destruct w as [k r ss ms fr cl rt id ld ca fi co sc lg].
  unfold TransDelKey, with_client, New, ClientClose, NewSession, SessionClose, Lock,
    unlock_deferred, Unlock, Delete, Errorf, Debugf, bind, defer, ret, emit, modify, gets, tick.
  run sc; eexists _, _, _; (split; [reflexivity|]); cbn [log];
    (split; [grown'|]); repeat constructor.
Qed.

Lemma AppendCache_events s r w :
  exists e w' ok, Disk.AppendCache s r w = (Ret e, w') /\
    log w' = EvAppendCache (Disk.network s) r ok :: log w /\
    (e = None <-> ok = true).
Proof.
  destruct w as [k r0 ss ms fr cl rt id ld ca fi co sc lg].
  unfold Disk.AppendCache, bind, ret, emit, modify, gets, tick.
  destruct sc as [|[[|] o] sc]; ev;
    try (destruct (existsb (Match r) _); ev);
    eexists _, _, _; (split; [reflexivity|]); cbn [log]; (split; [reflexivity|]);
    split; intros; first [reflexivity | discriminate].
Qed.

Variables (s : Disk.Store) (cli : Client) (keyDir : string).

Lemma matchCaches_events lsr caches :
  forall w,
  exists found w' l, matchCaches s lsr caches w = (Ret found, w') /\
    log w' = (l ++ log w)%list /\
    (forall e, In e l ->
       exists csr, e = EvDeleteCache (Disk.network s) csr /\ In csr caches /\
                   Overlaps csr lsr = true /\ Match csr lsr = false) /\
    (found = false ->
     forall csr, In csr caches -> Overlaps csr lsr = true -> Match csr lsr = false).
Proof.
  induction caches as [|csr rest IH]; intros w.
  - exists false, w, []. repeat split; try (intros; contradiction).
  - cbn [matchCaches]. destruct (Overlaps csr lsr) eqn:Ho.
    + destruct (Match csr lsr) eqn:Hm.
      * exists true, w, []. repeat split; try (intros; contradiction). discriminate.
      * unfold bind at 1.
        destruct (DeleteCache_effect s csr w) as (w1 & -> & Hl1 & _).
        destruct (IH w1) as (found & w2 & l & -> & Hl2 & Hev & Hnf).
        exists found, w2, (l ++ [EvDeleteCache (Disk.network s) csr])%list.
        split; [reflexivity|]. split; [rewrite Hl2, Hl1, <- app_assoc; reflexivity|]. split.
        -- intros e [Hin|[<-|[]]]%in_app_or.
           ++ destruct (Hev e Hin) as (c & -> & Hc & H1 & H2).
              exists c. repeat split; try assumption. right. assumption.
           ++ exists csr. repeat split; try assumption. left. reflexivity.
        -- intros Hf c [<-|Hin] Hoc; [assumption|]. apply Hnf; assumption.
    + destruct (IH w) as (found & w2 & l & -> & Hl2 & Hev & Hnf).
      exists found, w2, l. split; [reflexivity|]. split; [assumption|]. split.
      * intros e Hin. destruct (Hev e Hin) as (c & -> & Hc & H1 & H2).
        exists c. repeat split; try assumption. right. assumption.
      * intros Hf c [<-|Hin] Hoc; [congruence|]. apply Hnf; assumption.
Qed.

Lemma checkLease_events caches leases lsr w :
  In lsr leases ->
  exists w' l, checkLease s cli keyDir caches lsr w = (Ret tt, w') /\
    log w' = (l ++ log w)%list /\
    Forall (first_pass_event (Disk.network s) keyDir caches leases l) l.
Proof.
  intros Hin. unfold checkLease. unfold bind at 1.
  destruct (matchCaches_events lsr caches w) as (found & w1 & l1 & -> & Hl1 & Hev1 & Hnf).
  assert (H1 : forall evs, Forall (first_pass_event (Disk.network s) keyDir caches leases evs) l1).
  { intros evs. apply List.Forall_forall. intros e He.
    destruct (Hev1 e He) as (c & -> & Hc & Ho & Hm). cbn.
    split; [reflexivity|]. split; [assumption|]. exists lsr. auto. }
  destruct found.
  - exists w1, l1. split; [reflexivity|]. split; [assumption|]. apply H1.
  - unfold bind at 1.
    destruct (AppendCache_events s lsr w1) as (e & w2 & ok & -> & Hl2 & Hok).
    assert (Ha : forall evs, first_pass_event (Disk.network s) keyDir caches leases evs
                               (EvAppendCache (Disk.network s) lsr ok)).
    { intros evs. cbn. split; [reflexivity|]. split; [assumption|]. apply Hnf. reflexivity. }
    destruct e as [msg|].
    + unfold bind at 1.
      destruct (TransDelKey_events cli (ipamSimpleRangeToLease keyDir lsr) w2)
        as (e3 & w3 & l3 & -> & Hl3 & Hev3).
      assert (Hfalse : ok = false).
      { destruct ok; [|reflexivity]. destruct Hok as [_ Hok]. specialize (Hok eq_refl).
        discriminate. }
      subst ok.
      exists w3, (l3 ++ EvAppendCache (Disk.network s) lsr false :: l1)%list.
      split; [reflexivity|].
      split; [rewrite Hl3, Hl2, Hl1, <- app_assoc; reflexivity|].
      apply Forall_app. split; [|constructor; [apply Ha|apply H1]].
      apply List.Forall_forall. intros e He.
      pose proof (proj1 (List.Forall_forall _ _) Hev3 e He) as Hd.
      destruct e; cbn in Hd |- *; try exact I; try contradiction.
      exists lsr. split; [assumption|]. split; [assumption|].
      apply in_or_app. right. left. reflexivity.
    + exists w2, (EvAppendCache (Disk.network s) lsr ok :: l1).
      split; [reflexivity|]. split; [rewrite Hl2, Hl1; reflexivity|].
      constructor; [apply Ha|apply H1].
Qed.

Lemma first_pass_event_mono net caches leases evs evs' e :
  (forall x, In x evs -> In x evs') ->
  first_pass_event net keyDir caches leases evs e ->
  first_pass_event net keyDir caches leases evs' e.
Proof.
  intros Hsub. destruct e; cbn; auto.
  intros (lsr & H1 & H2 & H3). exists lsr. auto.
Qed.

Lemma first_pass_events caches leases todo :
  (forall lsr, In lsr todo -> In lsr leases) ->
  forall w,
  exists w' l, for_each todo (checkLease s cli keyDir caches) w = (Ret tt, w') /\
    log w' = (l ++ log w)%list /\
    Forall (first_pass_event (Disk.network s) keyDir caches leases l) l.
Proof.
  induction todo as [|lsr todo IH]; intros Hsub w.
  - exists w, []. repeat split. constructor.
  - cbn [for_each]. unfold bind.
    destruct (checkLease_events caches leases lsr w) as (w1 & l1 & -> & Hl1 & Hev1);
      [apply Hsub; left; reflexivity|].
    destruct (IH (fun x Hx => Hsub x (or_intror Hx)) w1) as (w2 & l2 & -> & Hl2 & Hev2).
    exists w2, (l2 ++ l1)%list. split; [reflexivity|].
    split; [rewrite Hl2, Hl1, app_assoc; reflexivity|].
    apply Forall_app. split.
    + eapply Forall_impl; [exact Hev2|]. intros e. apply first_pass_event_mono.
      intros x Hx. apply in_or_app. left. exact Hx.
    + eapply Forall_impl; [exact Hev1|]. intros e. apply first_pass_event_mono.
      intros x Hx. apply in_or_app. right. exact Hx.
Qed.

End FirstPass.

(** ** A network whose cache and leases agree *)

Section Agreement.
Import Allocator Sys Etcdv3 Etcdv3cli.

Lemma for_each_same {A} (body : A -> M unit) (l : list A) w :
  (forall x, In x l -> body x w = (Ret tt, w)) -> for_each l body w = (Ret tt, w).
Proof.
  induction l as [|x l IH]; intros H; [reflexivity|].
  cbn [for_each]. unfold bind. rewrite (H x (or_introl eq_refl)).
  apply IH. intros y Hy. apply H. right. exact Hy.
Qed.

Lemma matchCaches_found s lsr caches w :
  (forall csr, In csr caches -> Overlaps csr lsr = true -> Match csr lsr = true) ->
  (exists csr, In csr caches /\ Overlaps csr lsr = true) ->
  matchCaches s lsr caches w = (Ret true, w).
Proof.
  induction caches as [|csr rest IH]; intros Hall [c [Hin Ho]]; [contradiction|].
  cbn [matchCaches]. destruct (Overlaps csr lsr) eqn:E.
  - rewrite (Hall csr (or_introl eq_refl) E). reflexivity.
  - apply IH.
    + intros c' Hc'. apply Hall. right. exact Hc'.
    + destruct Hin as [<-|Hin]; [congruence|]. exists c. auto.
Qed.

Lemma checkLease_agree s cli keyDir caches leases lsr w :
  agree caches leases -> In lsr leases ->
  checkLease s cli keyDir caches lsr w = (Ret tt, w).
Proof.
  intros (Ha & Hb & _) Hin. unfold checkLease. unfold bind.
  rewrite matchCaches_found; [reflexivity| |apply Hb; exact Hin].
  intros csr Hc. apply Ha; assumption.
Qed.

Lemma checkCache_agree s cli keyDir id caches leases csr w :
  agree caches leases -> In csr caches ->
  checkCache s cli keyDir id leases csr w = (Ret tt, w).
Proof.
  intros (_ & _ & Hc) Hin. apply checkCache_matched. apply Hc. exact Hin.
Qed.

Lemma ipamCheckNet_agree em network leases w :
  quiet w ->
  agree (Disk.lines network w) leases ->
  fst (ipamCheckNet em network leases w) = Ret tt /\
  kv (snd (ipamCheckNet em network leases w)) = kv w /\
  cache (snd (ipamCheckNet em network leases w)) = cache w.
Proof.
  destruct w as [k r ss ms fr cl rt id ld ca fi co sc lg].
  unfold quiet, Disk.lines. cbn [script cache kv]. intros Hq Hag.
  unfold ipamCheckNet. unfold bind at 1. unfold Disk.New, Disk.LoadCache, Errorf, Disk.lines.
  unfold bind at 1 2, tick, emit, ret. cbn [script].
  assert (Hpass1 : forall w1, cache w1 = ca ->
            forall s cli keyDir,
            for_each leases (checkLease s cli keyDir (Disk.linesOf ca network)) w1 = (Ret tt, w1)).
  { intros w1 _ s cli keyDir. apply for_each_same. intros lsr Hin.
    eapply checkLease_agree; eassumption. }
  assert (Hpass2 : forall w1 s cli keyDir id0,
            for_each (Disk.linesOf ca network) (checkCache s cli keyDir id0 leases) w1
            = (Ret tt, w1)).
  { intros w1 s cli keyDir id0. apply for_each_same. intros csr Hin.
    eapply checkCache_agree; eassumption. }
  destruct sc as [|[f1 o1] sc].
  - cbn -[for_each]. unfold bind, gets, tick, emit, ret. cbn -[for_each].
    rewrite Hpass1 by reflexivity. cbn -[for_each]. rewrite Hpass2. repeat split.
  - pose proof (List.Forall_inv Hq) as Ho1. apply List.Forall_inv_tail in Hq.
    cbn [others] in Ho1. subst o1. destruct f1.
    + cbn. repeat split.
    + cbn -[for_each]. unfold bind, gets, tick, emit, ret. cbn -[for_each].
      destruct sc as [|[f2 o2] sc].
      * cbn -[for_each]. rewrite Hpass1 by reflexivity. cbn -[for_each]. rewrite Hpass2.
        repeat split.
      * pose proof (List.Forall_inv Hq) as Ho2. apply List.Forall_inv_tail in Hq.
        cbn [others] in Ho2. subst o2. destruct f2.
        -- cbn. repeat split.
        -- cbn -[for_each]. rewrite Hpass1 by reflexivity. cbn -[for_each].
           destruct sc as [|[f3 o3] sc].
           ++ cbn -[for_each]. rewrite Hpass2. repeat split.
           ++ pose proof (List.Forall_inv Hq) as Ho3. cbn [others] in Ho3. subst o3.
              destruct f3.
              ** cbn. repeat split.
              ** cbn -[for_each]. rewrite Hpass2. repeat split.
Qed.

End Agreement.

(** X10. The first pass of [ipamCheckNet], whatever requests fail: every event
    it leaves is one of these. A line is deleted from the cache only when
    it was read at the start and overlaps a lease without matching it; a
    lease is appended only when no line that was read matches it; a key
    is deleted at the coordinator only when it is the key of a lease whose
    append has failed; nothing is written to the coordinator. *)
Theorem first_pass_touches_what_disagrees :
  forall (s : Disk.Store) (cli : Etcdv3.Client) (keyDir : string)
         (caches leases : list Allocator.SimpleRange) (w : Sys.World),
  exists w',
    Sys.for_each leases (Etcdv3cli.checkLease s cli keyDir caches) w = (Sys.Ret tt, w') /\
    Forall (first_pass_event (Disk.network s) keyDir caches leases (news w w')) (news w w').
Proof.
  intros s cli keyDir caches leases w.
  destruct (first_pass_events s cli keyDir caches leases leases (fun x H => H) w)
    as (w' & l & Hrun & Hl & Hev).
  exists w'. split; [exact Hrun|].
  assert (Hnews : news w w' = rev l) by (unfold news; rewrite Hl; apply since_app).
  rewrite Hnews. apply Forall_rev.
  eapply Forall_impl; [exact Hev|]. intros e. apply first_pass_event_mono.
  intros x Hx. apply in_rev in Hx. exact Hx.
Qed.

(** X11. A network whose cache and leases agree is left alone by
    [ipamCheckNet]: when no other node writes, whatever requests fail, the
    call ends without a panic and changes neither the coordinator nor the
    cache. *)
Theorem ipamCheckNet_leaves_agreement_alone :
  forall (em : Etcdv3.EtcdMultus) (network : string)
         (leases : list Allocator.SimpleRange) (w : Sys.World),
    quiet w ->
    agree (Disk.lines network w) leases ->
    fst (Etcdv3cli.ipamCheckNet em network leases w) = Sys.Ret tt /\
    Sys.kv (snd (Etcdv3cli.ipamCheckNet em network leases w)) = Sys.kv w /\
    Sys.cache (snd (Etcdv3cli.ipamCheckNet em network leases w)) = Sys.cache w.
Proof.
  intros em network leases w Hq Hag. apply ipamCheckNet_agree; assumption.
Qed.

Lemma ipamCheckNet_leaves_agreement_alone_witness :
  quiet w_agreed /\ agree (Disk.lines "net1" w_agreed) [block_b] /\
  Sys.kv (snd (Etcdv3cli.ipamCheckNet node_a "net1" [block_b] w_agreed)) = Sys.kv w_agreed /\
  Sys.cache (snd (Etcdv3cli.ipamCheckNet node_a "net1" [block_b] w_agreed)) = Sys.cache w_agreed.
Proof.
  assert (Hq : quiet w_agreed) by (repeat constructor).
  assert (Hag : agree (Disk.lines "net1" w_agreed) [block_b]).
  { change (Disk.lines "net1" w_agreed) with [block_b]. split; [|split].
    - intros csr lsr [<-|[]] [<-|[]] _. reflexivity.
    - intros lsr [<-|[]]. exists block_b. split; [left; reflexivity|reflexivity].
    - intros csr [<-|[]]. reflexivity. }
  split; [exact Hq|]. split; [exact Hag|].
  exact (proj2 (ipamCheckNet_leaves_agreement_alone node_a "net1" [block_b] w_agreed Hq Hag)).
Defined.
